(** * The expression rewriter of the planner (plan/expression_rewriter.go)

    A shallow embedding of the pass that turns a parsed SQL expression into
    the planner's scalar expressions and decorrelates subqueries, with the
    properties its specification states about it.

    Conventions of the embedding.
    - A Go [int] is a [Z]; [len] is [Z.of_nat (length _)].
    - A Go runtime panic (index out of range, nil dereference, failed type
      assertion) is the [None] of an [option]; every function that can panic
      returns an [option].
    - A Go pair [(value, error)] is a Rocq pair whose second component is an
      [option error]; the nil interface value of [Expression] is the
      constructor [NilExpression].
    - The rewriter [er] and the plan builder [er.b] it points to are records
      threaded through the functions that mutate them.
    - Code of other packages (the function registry, the schema lookup, the
      session variables, the plan constructors, the AST traversal) is taken
      through the classes [ExpressionPkg], [VariablePkg], [PlanPkg] and
      [AstAccept]; the properties hold for every instance of them. *)

From Stdlib Require Import ZArith Lia Ascii String.
From stdpp Require Import base option list gmap strings.

Set Warnings "-register-all".

Open Scope string_scope.
Open Scope list_scope.
Open Scope Z_scope.

(** ** Go slices *)

Definition len {A} (l : list A) : Z := Z.of_nat (length l).

(** [l[i]]: panics outside [0 <= i < len l]. *)
Definition index {A} (l : list A) (i : Z) : option A :=
  if decide (0 ≤ i) then l !! Z.to_nat i else None.

(** [l[:n]]: panics outside [0 <= n <= len l] (no slice here has spare
    capacity that the code relies on). *)
Definition slice_to {A} (l : list A) (n : Z) : option (list A) :=
  if decide (0 ≤ n ≤ len l) then Some (take (Z.to_nat n) l) else None.

(** [l[n:]]: panics outside [0 <= n <= len l]. *)
Definition slice_from {A} (l : list A) (n : Z) : option (list A) :=
  if decide (0 ≤ n ≤ len l) then Some (drop (Z.to_nat n) l) else None.

(** [l[i] = x]: panics outside [0 <= i < len l]. *)
Definition store {A} (l : list A) (i : Z) (x : A) : option (list A) :=
  if decide (0 ≤ i < len l) then Some (<[Z.to_nat i := x]> l) else None.

(** ** Errors

    One constructor per message the pass formats, and one for the errors of
    the collaborators. [errors.Trace] only annotates an error with the place
    it went through. *)

Inductive error :=
| ErrOperandColumns (n : Z)          (* "Operand should contain %d column(s)" *)
| ErrContextLen (n : Z)              (* "context len %v is invalid" *)
| ErrUnknownCompareType              (* "Unknown compare type %T." *)
| ErrUnknownExistsType               (* "Unknown exists type %T." *)
| ErrUnknownUnaryOp                  (* "Unknown Unary Op %T" *)
| ErrUnknownColumn (schema table name : string)
                                     (* "Unknown column %s %s %s." *)
| ErrUnknownSystemVar (name : string)(* "Unknown system variable '%s'" *)
| ErrExternal (msg : string).        (* an error of a collaborator *)

Definition Trace (e : error) : error := e.

(** ** Types, datums, columns, expressions

    The types of packages util/types, mysql and expression are declared
    outside src/; they are modelled as the specification's data model
    describes them. *)

(** Modelled from the spec: [types.FieldType] is not under src/. The pass
    only builds field types from a type code and passes them on. *)
Record FieldType := { Tp : Z }.

Definition NewFieldType (tp : Z) : FieldType := {| Tp := tp |}.

(** Modelled from the spec: the type codes of package mysql that the pass
    names are not under src/. No property below depends on their values. *)
Module mysql.
Definition TypeTiny : Z := 1.
Definition TypeNull : Z := 6.
Definition TypeString : Z := 254.
End mysql.

(** Modelled from the spec: [types.Datum] and its kinds are not under src/.
    A datum is a literal value; a datum of kind row holds a tuple of
    datums. *)
Inductive Kind := KindNull | KindInt64 | KindString | KindRow.

#[global] Instance Kind_eq_dec : EqDecision Kind.
Proof. solve_decision. Defined.

Inductive Datum :=
| DNull
| DInt64 (i : Z)
| DString (s : string)
| DRow (row : list Datum).

(** The kind of rows as the byte that [handleCompareSubquery] passes to
    [types.NewFieldType]. *)
Module types.
Definition KindRow : Z := 14.
End types.

Definition Datum_Kind (d : Datum) : Kind :=
  match d with
  | DNull => KindNull
  | DInt64 _ => KindInt64
  | DString _ => KindString
  | DRow _ => KindRow
  end.

(** [d.GetRow()] asserts that the datum holds a slice of datums. *)
Definition GetRow (d : Datum) : option (list Datum) :=
  match d with
  | DRow row => Some row
  | _ => None
  end.

Definition IsNull (d : Datum) : bool :=
  match d with DNull => true | _ => false end.

(** Modelled from the spec: [expression.Column] and [expression.Schema] are
    not under src/. A column is a position in a schema with a type; the
    names are the lower-case forms the lookups compare. A schema is an
    ordered sequence of columns. *)
Record Column := {
  FromID : string;
  DBName : string;
  TblName : string;
  ColName : string;
  ColRetType : option FieldType;
  Position : Z;
}.

Definition Schema := list Column.

(** Modelled from the spec: the interface [expression.Expression] and its
    four implementations are not under src/. A column refers to a position
    in a schema, a correlated column is a column of an enclosing query, a
    constant is a literal value with a type, and a scalar function is a
    function name with an ordered argument list and a return type.
    [NilExpression] is the nil value of the interface. *)
Inductive Expression :=
| NilExpression
| ColumnExpr (col : Column)
| CorrelatedColumn (col : Column)
| Constant (Value : Datum) (RetType : option FieldType)
| ScalarFunction (FuncName : string) (Args : list Expression)
                 (RetType : option FieldType).

(** [e.GetType()] *)
Definition GetType (e : Expression) : option (option FieldType) :=
  match e with
  | NilExpression => None
  | ColumnExpr c | CorrelatedColumn c => Some (ColRetType c)
  | Constant _ tp => Some tp
  | ScalarFunction _ _ tp => Some tp
  end.

(** Modelled from the spec: [Clone] of package expression is not under
    src/. A clone is a logical duplicate of its operand: the copy is rebuilt
    node by node, and with values instead of pointers it is equal to the
    original ([Clone_id]). *)
Definition Column_Clone (c : Column) : Column :=
  {| FromID := FromID c; DBName := DBName c; TblName := TblName c;
     ColName := ColName c; ColRetType := ColRetType c;
     Position := Position c |}.

Fixpoint Clone (e : Expression) : Expression :=
  match e with
  | NilExpression => NilExpression
  | ColumnExpr c => ColumnExpr (Column_Clone c)
  | CorrelatedColumn c => CorrelatedColumn c
  | Constant v tp => Constant v tp
  | ScalarFunction name args tp => ScalarFunction name (map Clone args) tp
  end.

Definition Schema_Clone (s : Schema) : Schema := map Column_Clone s.

(** [e.Clone()] where [e] is a value of the interface: a method call on
    the nil interface panics. *)
Definition Expression_Clone (e : Expression) : option Expression :=
  match e with
  | NilExpression => None
  | _ => Some (Clone e)
  end.

(** ** Names of package ast and package opcode *)

(** Modelled from the spec: the function names of package ast are not under
    src/. They are the keys of the function registry. *)
Module ast.
Definition AndAnd := "and".
Definition OrOr := "or".
Definition EQ := "eq".
Definition LT := "lt".
Definition LE := "le".
Definition GT := "gt".
Definition GE := "ge".
Definition UnaryNot := "not".
Definition UnaryMinus := "unaryminus".
Definition BitNeg := "bitneg".
Definition RowFunc := "row".
Definition SetVar := "setvar".
Definition GetVar := "getvar".
Definition IsNull := "isnull".
Definition IsTruth := "istrue".
Definition IsFalsity := "isfalse".
Definition In := "in".
Definition Like := "like".
Definition Regexp := "regexp".
Definition Case := "case".
End ast.

(** Modelled from the spec: the operators of package opcode and the table
    [opcode.Ops] of their function names are not under src/. *)
Module opcode.
Inductive Op :=
| AndAnd | LeftShift | RightShift | OrOr | GE | LE | EQ | NE | LT | GT
| Plus | Minus | And | Or | Mod | Xor | Div | Mul | Not | BitNeg
| IntDiv | LogicXor | NullEQ.

#[global] Instance Op_eq_dec : EqDecision Op.
Proof. solve_decision. Defined.

Definition Ops (op : Op) : string :=
  match op with
  | AndAnd => "and" | LeftShift => "leftshift" | RightShift => "rightshift"
  | OrOr => "or" | GE => "ge" | LE => "le" | EQ => "eq" | NE => "ne"
  | LT => "lt" | GT => "gt" | Plus => "plus" | Minus => "minus"
  | And => "bitand" | Or => "bitor" | Mod => "mod" | Xor => "bitxor"
  | Div => "div" | Mul => "mul" | Not => "not" | BitNeg => "bitneg"
  | IntDiv => "intdiv" | LogicXor => "xor" | NullEQ => "nulleq"
  end.
End opcode.

(** Modelled from the spec: [ast.ColumnName] is not under src/. A column
    name has a schema, a table and a name part (here their lower-case
    forms). *)
Record ColumnName := {
  cn_Schema : string;
  cn_Table : string;
  cn_Name : string;
}.

(** ** Package expression

    What the pass calls in package expression and cannot see: the function
    registry behind [NewFunction], the two CNF helpers and the lookup of a
    column name in a schema. *)

Class ExpressionPkg := {
  (** the registry's verdict on a function name and an argument count:
      [None] when the name resolves and takes that many arguments *)
  checkFunction : string → Z → option error;
  ComposeCNFCondition : list Expression → Expression;
  SplitCNFItems : Expression → list Expression;
  (** [s.FindColumn(name)]: the column found (or nil) and an error *)
  FindColumn : Schema → ColumnName → option Column * option error;
}.

(** Modelled from the spec: [NewFunction] of package expression is not under
    src/. A function node is a function name, the ordered argument list and a
    return type; whether the name resolves, and to how many arguments, is the
    registry's business. *)
Definition NewFunction `{ExpressionPkg} (funcName : string)
    (retType : option FieldType) (args : list Expression)
  : Expression * option error :=
  match checkFunction funcName (len args) with
  | Some e => (NilExpression, Some e)
  | None => (ScalarFunction funcName args retType, None)
  end.

(** ** Row-arity utilities *)

Definition getRowLen (e : Expression) : Z :=
  match e with
  | ScalarFunction name args _ =>
      if decide (name = ast.RowFunc) then len args else 1
  | Constant v _ =>
      if decide (Datum_Kind v = KindRow) then len (default [] (GetRow v))
      else 1
  | _ => 1
  end.

Definition getRowArg (e : Expression) (idx : Z) : option Expression :=
  match e with
  | ScalarFunction _ args _ => index args idx
  | Constant v tp =>
      row ← GetRow v;
      d ← index row idx;
      Some (Constant d tp)
  | _ => None
  end.

(** The loop [for i := 0; i < n; i++ { x, err := body(i); if err != nil
    { return nil, err }; xs[i] = x }]: the values collected, or the first
    error. *)
Fixpoint collect {A} (body : Z → option (A * option error)) (ixs : list Z)
  : option (list A * option error) :=
  match ixs with
  | [] => Some ([], None)
  | i :: ixs =>
      '(x, err) ← body i;
      match err with
      | Some e => Some ([], Some e)
      | None =>
          '(xs, err) ← collect body ixs;
          match err with
          | Some e => Some ([], Some e)
          | None => Some (x :: xs, None)
          end
      end
  end.

Definition for_range {A} (n : Z) (body : Z → option (A * option error))
  : option (list A * option error) :=
  collect body (seqZ 0 n).

(** The body of [constructBinaryOpFunction], its recursive call being
    [self]. *)
Definition constructBinaryOpFunction_body `{ExpressionPkg}
    (self : Expression → Expression → string
            → option (Expression * option error))
    (l r : Expression) (op : string)
  : option (Expression * option error) :=
  let lLen := getRowLen l in
  let rLen := getRowLen r in
  if decide (lLen = 1 ∧ rLen = 1) then
    Some (NewFunction op (Some (NewFieldType mysql.TypeTiny)) [l; r])
  else if decide (rLen ≠ lLen) then
    Some (NilExpression, Some (ErrOperandColumns lLen))
  else
    '(funcs, err) ← for_range lLen (λ i,
       li ← getRowArg l i;
       ri ← getRowArg r i;
       self li ri op);
    match err with
    | Some e => Some (NilExpression, Some (Trace e))
    | None => Some (ComposeCNFCondition funcs, None)
    end.

(** The recursion goes down one level of row nesting of [l] at each call;
    [row_depth l] calls deep it has reached the scalars. *)
Fixpoint Datum_depth (d : Datum) : nat :=
  match d with
  | DRow row => S (list_max (map Datum_depth row))
  | _ => O
  end.

Fixpoint row_depth (e : Expression) : nat :=
  match e with
  | ScalarFunction _ args _ => S (list_max (map row_depth args))
  | Constant v _ => Datum_depth v
  | _ => O
  end.

Fixpoint constructBinaryOpFunction_rec `{ExpressionPkg} (n : nat)
    (l r : Expression) (op : string)
  : option (Expression * option error) :=
  match n with
  | O => None
  | S n =>
      constructBinaryOpFunction_body (constructBinaryOpFunction_rec n) l r op
  end.

Definition constructBinaryOpFunction `{ExpressionPkg}
    (l r : Expression) (op : string)
  : option (Expression * option error) :=
  constructBinaryOpFunction_rec (S (row_depth l)) l r op.

(** ** Package ast

    [ast.ExprNode] is an interface; the pass asserts one of its dynamic
    types, [*ast.SubqueryExpr], and otherwise only hands nodes to the
    traversal. The body of a subquery is compiled by the plan builder and
    never inspected here. *)

Class AstTypes := {
  ExprNode : Type;
  ResultSetNode : Type;
}.

(** Modelled from the spec: the node types of package ast are not under
    src/. Each record has the fields of its node that the pass reads; a
    field that the pass tests against nil is an [option]. *)
Record SubqueryExpr `{AstTypes} := {
  Query : ResultSetNode;
}.

Record CompareSubqueryExpr `{AstTypes} := {
  cmp_L : ExprNode;
  cmp_Op : opcode.Op;
  cmp_R : ExprNode;
  cmp_All : bool;
}.

Record ExistsSubqueryExpr `{AstTypes} := {
  exists_Sel : ExprNode;
}.

Record PatternInExpr `{AstTypes} := {
  in_Expr : ExprNode;
  in_List : list ExprNode;
  in_Not : bool;
  in_Sel : option ExprNode;
  in_Type : FieldType;
}.

Record UnaryOperationExpr `{AstTypes} := {
  unary_Op : opcode.Op;
  unary_V : ExprNode;
  unary_Type : FieldType;
}.

Record BetweenExpr `{AstTypes} := {
  between_Expr : ExprNode;
  between_Left : ExprNode;
  between_Right : ExprNode;
  between_Not : bool;
  between_Type : FieldType;
}.

Record IsNullExpr `{AstTypes} := {
  isnull_Expr : ExprNode;
  isnull_Not : bool;
  isnull_Type : FieldType;
}.

Record VariableExpr `{AstTypes} := {
  var_Name : string;
  var_IsGlobal : bool;
  var_IsSystem : bool;
  var_Value : option ExprNode;
}.

(** ** Session and plan builder *)

(** Modelled from the spec: [variable.SessionVars] is not under src/. The
    session keeps the user variables and the system variables by name. *)
Record SessionVars := {
  Users : gmap string string;
  Systems : gmap string string;
}.

(** Modelled from the spec: the declaration of [planBuilder] is not under
    src/. It has the fields the pass reads or writes: the error slot of the
    builder, the session (behind its context) and the Outer-Schema Stack,
    innermost scope last. *)
Record planBuilder := {
  b_err : option error;
  b_sessionVars : SessionVars;
  outerSchemas : list Schema;
}.

Definition set_outerSchemas (s : list Schema) (b : planBuilder) : planBuilder :=
  {| b_err := b_err b; b_sessionVars := b_sessionVars b; outerSchemas := s |}.

Definition set_sessionVars (s : SessionVars) (b : planBuilder) : planBuilder :=
  {| b_err := b_err b; b_sessionVars := s; outerSchemas := outerSchemas b |}.

(** ** Package sessionctx/variable *)

(** Modelled from the spec: [variable.SysVar] and the scope flags are not
    under src/. A system variable has a scope (a set of flags, none for a
    constant) and a default value. *)
Record SysVar := {
  Scope : Z;
  SysVar_Value : string;
}.

Module variable.
Definition ScopeNone : Z := 0.
Definition ScopeGlobal : Z := 1.
Definition ScopeSession : Z := 2.
End variable.

Class VariablePkg := {
  ToLower : string → string;
  SysVars : string → option SysVar;
  GetGlobalSysVar : planBuilder → string → string * option error;
  GetSystemVar : SessionVars → string → Datum;
  SetSystemVar : SessionVars → string → Datum → SessionVars * option error;
}.

(** ** The planner around the pass

    [LogicalPlan] is an interface. The constructors of plan nodes are taken
    as functions of the plans they combine (the identifiers they allocate
    are not part of the model); [buildResultSetNode] compiles a query body
    and may come back to this pass, so it takes and returns the builder. *)

(** Modelled from the spec: the declaration of [ApplyConditionChecker] is
    not under src/. It is the per-row check of an apply and its ALL/ANY
    flag. *)
Record ApplyConditionChecker := {
  Condition : Expression;
  All : bool;
}.

Class PlanPkg `{AstTypes} := {
  LogicalPlan : Type;
  PhysicalPlan : Type;
  (** the nil value of the interface *)
  nilPlan : LogicalPlan;
  GetSchema : LogicalPlan → Schema;
  IsCorrelated : LogicalPlan → bool;
  GetChildByIndex : LogicalPlan → Z → option LogicalPlan;
  (** the type assertion to a Selection: its [Conditions] when it holds *)
  asSelection : LogicalPlan → option (list Expression);
  PredicatePushDown :
    LogicalPlan → list Expression
    → list Expression * LogicalPlan * option error;
  (** prunes the plan in place: the plan afterwards, and an error *)
  PruneColumnsAndResolveIndices :
    LogicalPlan → Schema → LogicalPlan * option error;
  convert2PhysicalPlan : LogicalPlan → PhysicalPlan * option error;
  EvalSubquery : PhysicalPlan → planBuilder → list Datum * option error;
  buildResultSetNode :
    planBuilder → ResultSetNode → LogicalPlan * planBuilder;
  buildApply :
    LogicalPlan → LogicalPlan → Schema → option ApplyConditionChecker
    → LogicalPlan;
  buildSemiJoin :
    LogicalPlan → LogicalPlan → list Expression → bool → bool → LogicalPlan;
  buildExists : LogicalPlan → LogicalPlan;
  buildMaxOneRow : LogicalPlan → LogicalPlan;
}.

(** ** The rewriter *)

Record expressionRewriter `{PlanPkg} := {
  ctxStack : list Expression;
  er_p : LogicalPlan;
  er_schema : Schema;
  er_err : option error;
  (** keyed by the identity of the aggregate node; nil when absent *)
  aggrMap : option (gmap Z Z);
  er_b : planBuilder;
  asScalar : bool;
}.

(** The traversal of package ast: [n.Accept(er)] walks the node [n] calling
    [er.Enter] and [er.Leave], and leaves its effects in [er]. *)
Class AstAccept `{PlanPkg} := {
  (** the type assertion to a subquery node *)
  asSubqueryExpr : ExprNode → option SubqueryExpr;
  Accept : ExprNode → expressionRewriter → option expressionRewriter;
}.

Section Rewriter.
Context {AT : AstTypes} {PP : PlanPkg} {AA : AstAccept}
        {EP : ExpressionPkg} {VP : VariablePkg}.

Definition set_ctxStack (s : list Expression) (er : expressionRewriter)
  : expressionRewriter :=
  {| ctxStack := s; er_p := er_p er; er_schema := er_schema er;
     er_err := er_err er; aggrMap := aggrMap er; er_b := er_b er;
     asScalar := asScalar er |}.

Definition set_p (p : LogicalPlan) (er : expressionRewriter)
  : expressionRewriter :=
  {| ctxStack := ctxStack er; er_p := p; er_schema := er_schema er;
     er_err := er_err er; aggrMap := aggrMap er; er_b := er_b er;
     asScalar := asScalar er |}.

Definition set_err (e : option error) (er : expressionRewriter)
  : expressionRewriter :=
  {| ctxStack := ctxStack er; er_p := er_p er; er_schema := er_schema er;
     er_err := e; aggrMap := aggrMap er; er_b := er_b er;
     asScalar := asScalar er |}.

Definition set_b (b : planBuilder) (er : expressionRewriter)
  : expressionRewriter :=
  {| ctxStack := ctxStack er; er_p := er_p er; er_schema := er_schema er;
     er_err := er_err er; aggrMap := aggrMap er; er_b := b;
     asScalar := asScalar er |}.

Definition set_asScalar (a : bool) (er : expressionRewriter)
  : expressionRewriter :=
  {| ctxStack := ctxStack er; er_p := er_p er; er_schema := er_schema er;
     er_err := er_err er; aggrMap := aggrMap er; er_b := er_b er;
     asScalar := a |}.

(** [er.ctxStack = append(er.ctxStack, e)] *)
Definition push (e : Expression) (er : expressionRewriter)
  : expressionRewriter :=
  set_ctxStack (ctxStack er ++ [e]) er.

(** [er.ctxStack[len(er.ctxStack)-1]] *)
Definition top (er : expressionRewriter) : option Expression :=
  index (ctxStack er) (len (ctxStack er) - 1).

(** [er.ctxStack[len(er.ctxStack)-1] = e] *)
Definition set_top (e : Expression) (er : expressionRewriter)
  : option expressionRewriter :=
  s ← store (ctxStack er) (len (ctxStack er) - 1) e;
  Some (set_ctxStack s er).

(** [er.p.GetSchema()[len(er.p.GetSchema())-1]] *)
Definition last_column (p : LogicalPlan) : option Expression :=
  ColumnExpr <$> index (GetSchema p) (len (GetSchema p) - 1).

Definition buildSubquery (subq : SubqueryExpr) (er : expressionRewriter)
  : option (LogicalPlan * Schema * expressionRewriter) :=
  let outerSchema := Schema_Clone (er_schema er) in
  let b := set_outerSchemas (outerSchemas (er_b er) ++ [outerSchema]) (er_b er) in
  let '(np, b) := buildResultSetNode b (Query subq) in
  popped ← slice_to (outerSchemas b) (len (outerSchemas b) - 1);
  let b := set_outerSchemas popped b in
  let er := set_b b er in
  match b_err b with
  | Some e => Some (nilPlan, [], set_err (Some (Trace e)) er)
  | None => Some (np, outerSchema, er)
  end.

(** The right operand of a subquery comparison: the only column of the
    subquery, or a row over all of them. [handleCompareSubquery] and
    [handleInSubquery] each have this block in their body; they differ in
    the return type [tp] they give the row. *)
Definition subqueryRow (np : LogicalPlan) (tp : option FieldType)
    (er : expressionRewriter) : option (Expression * expressionRewriter) :=
  if decide (len (GetSchema np) = 1) then
    col ← index (GetSchema np) 0;
    Some (ColumnExpr (Column_Clone col), er)
  else
    let args := (λ col, ColumnExpr (Column_Clone col)) <$> GetSchema np in
    let '(rexpr, e) := NewFunction ast.RowFunc tp args in
    match e with
    | Some e => Some (rexpr, set_err (Some (Trace e)) er)
    | None => Some (rexpr, set_err None er)
    end.

Definition handleCompareSubquery (v : CompareSubqueryExpr)
    (er : expressionRewriter) : option expressionRewriter :=
  er ← Accept (cmp_L v) er;
  if er_err er is Some _ then Some er else
  lexpr ← top er;
  match asSubqueryExpr (cmp_R v) with
  | None => Some (set_err (Some ErrUnknownCompareType) er)
  | Some subq =>
  '(np, outerSchema, er) ← buildSubquery subq er;
  if er_err er is Some _ then Some er else
  (* Only (a,b,c) = all (...) and (a,b,c) != any () can use row *)
  let canMultiCol :=
    (negb (cmp_All v) && bool_decide (cmp_Op v = opcode.EQ))
    || (cmp_All v && bool_decide (cmp_Op v = opcode.NE)) in
  if negb canMultiCol
     && (bool_decide (getRowLen lexpr ≠ 1)
         || bool_decide (len (GetSchema np) ≠ 1)) then
    Some (set_err (Some (ErrOperandColumns 1)) er)
  else if decide (getRowLen lexpr ≠ len (GetSchema np)) then
    Some (set_err (Some (ErrOperandColumns (getRowLen lexpr))) er)
  else
  '(rexpr, er) ← subqueryRow np (Some (NewFieldType types.KindRow)) er;
  if er_err er is Some _ then Some er else
  '(checkCondition, e) ←
    match cmp_Op v with
    (* Only EQ, NE and NullEQ can be composed with and. *)
    | opcode.EQ | opcode.NE | opcode.NullEQ =>
        constructBinaryOpFunction lexpr rexpr (opcode.Ops (cmp_Op v))
    (* Any other operator stays a comparison of the two rows. *)
    | _ =>
        Some (NewFunction (opcode.Ops (cmp_Op v))
                (Some (NewFieldType mysql.TypeTiny)) [lexpr; rexpr])
    end;
  match e with
  | Some e => Some (set_err (Some (Trace e)) er)
  | None =>
  let er := set_err None er in
  let er :=
    set_p (buildApply (er_p er) np outerSchema
             (Some {| Condition := checkCondition; All := cmp_All v |})) er in
  (* The parent expression only uses the last column of the schema, which
     tells whether the condition is matched. *)
  col ← last_column (er_p er);
  set_top col er
  end
  end.

Definition handleExistSubquery (v : ExistsSubqueryExpr)
    (er : expressionRewriter) : option expressionRewriter :=
  match asSubqueryExpr (exists_Sel v) with
  | None => Some (set_err (Some ErrUnknownExistsType) er)
  | Some subq =>
  '(np, outerSchema, er) ← buildSubquery subq er;
  if er_err er is Some _ then Some er else
  let np := buildExists np in
  if IsCorrelated np then
    semi ← match GetChildByIndex np 0 with
           | Some child =>
               match asSelection child with
               | Some conditions =>
                   inner ← GetChildByIndex child 0;
                   Some (if IsCorrelated inner then None
                         else Some (inner, conditions))
               | None => Some None
               end
           (* a nil child fails the type assertion *)
           | None => Some None
           end;
    match semi with
    | Some (inner, conditions) =>
        let er :=
          set_p (buildSemiJoin (er_p er) inner conditions (asScalar er) false)
                er in
        if negb (asScalar er) then Some er
        else col ← last_column (er_p er); Some (push col er)
    | None =>
        (* Can't be built as semi-join *)
        let er := set_p (buildApply (er_p er) np outerSchema None) er in
        col ← last_column (er_p er); Some (push col er)
    end
  else
    let '(_, np, e) := PredicatePushDown np [] in
    let er := set_err e er in
    if e is Some _ then Some er else
    let '(np, e) := PruneColumnsAndResolveIndices np (GetSchema np) in
    if e is Some e then Some (set_err (Some (Trace e)) er) else
    let '(info, e) := convert2PhysicalPlan np in
    if e is Some e then Some (set_err (Some (Trace e)) er) else
    let '(d, e) := EvalSubquery info (er_b er) in
    if e is Some e then Some (set_err (Some (Trace e)) er) else
    d0 ← index d 0;
    col ← index (GetSchema np) 0;
    Some (push (Constant d0 (ColRetType col)) er)
  end.

Definition handleInSubquery (v : PatternInExpr) (er : expressionRewriter)
  : option expressionRewriter :=
  let asScalar0 := asScalar er in
  let er := set_asScalar true er in
  er ← Accept (in_Expr v) er;
  if er_err er is Some _ then Some er else
  lexpr ← top er;
  match in_Sel v ≫= asSubqueryExpr with
  | None => Some (set_err (Some ErrUnknownCompareType) er)
  | Some subq =>
  '(np, outerSchema, er) ← buildSubquery subq er;
  if er_err er is Some _ then Some er else
  if decide (getRowLen lexpr ≠ len (GetSchema np)) then
    Some (set_err (Some (ErrOperandColumns (getRowLen lexpr))) er)
  else
  '(rexpr, er) ← subqueryRow np None er;
  if er_err er is Some _ then Some er else
  (* a in (subq) will be rewritten as a = any(subq).
     a not in (subq) will be rewritten as a != all(subq). *)
  '(checkCondition, err) ← constructBinaryOpFunction lexpr rexpr ast.EQ;
  if negb (IsCorrelated np) then
    let er :=
      set_p (buildSemiJoin (er_p er) np (SplitCNFItems checkCondition)
               asScalar0 (in_Not v)) er in
    if asScalar0 then
      col ← last_column (er_p er);
      set_top col er
    else
      s ← slice_to (ctxStack er) (len (ctxStack er) - 1);
      Some (set_ctxStack s er)
  else
  let checkCondition :=
    if in_Not v
    then (NewFunction ast.UnaryNot (Some (in_Type v)) [checkCondition]).1
    else checkCondition in
  match err with
  | Some e => Some (set_err (Some (Trace e)) er)
  | None =>
  let er :=
    set_p (buildApply (er_p er) np outerSchema
             (Some {| Condition := checkCondition; All := in_Not v |})) er in
  (* The parent expression only uses the last column of the schema, which
     tells whether the condition is matched. *)
  col ← last_column (er_p er);
  set_top col er
  end
  end.

Definition handleScalarSubquery (v : SubqueryExpr) (er : expressionRewriter)
  : option expressionRewriter :=
  '(np, outerSchema, er) ← buildSubquery v er;
  if er_err er is Some _ then Some er else
  let np := buildMaxOneRow np in
  if IsCorrelated np then
    let er := set_p (buildApply (er_p er) np outerSchema None) er in
    if decide (1 < len (GetSchema np)) then
      let newCols := (λ col, ColumnExpr (Column_Clone col)) <$> GetSchema np in
      let '(expr, e) := NewFunction ast.RowFunc None newCols in
      if e is Some e then Some (set_err (Some (Trace e)) er)
      else Some (push expr er)
    else
      col ← last_column (er_p er); Some (push col er)
  else
    let '(_, np, e) := PredicatePushDown np [] in
    let er := set_err e er in
    if e is Some _ then Some er else
    let '(np, e) := PruneColumnsAndResolveIndices np (GetSchema np) in
    if e is Some e then Some (set_err (Some (Trace e)) er) else
    let '(info, e) := convert2PhysicalPlan np in
    if e is Some e then Some (set_err (Some (Trace e)) er) else
    let '(d, e) := EvalSubquery info (er_b er) in
    if e is Some e then Some (set_err (Some (Trace e)) er) else
    if decide (1 < len (GetSchema np)) then
      newCols ← mapM (λ '(i, data),
                   col ← index (GetSchema np) i;
                   Some (Constant data (ColRetType col)))
                 (zip (seqZ 0 (len d)) d);
      let '(expr, e) := NewFunction ast.RowFunc None newCols in
      if e is Some e then Some (set_err (Some (Trace e)) er)
      else Some (push expr er)
    else
      d0 ← index d 0;
      col ← index (GetSchema np) 0;
      Some (push (Constant d0 (ColRetType col)) er).

(** [rewrite] turns an AST expression into an [Expression]. [asScalar] says
    whether the expression must be treated as a scalar. The result is Go's
    triple: an expression, a plan that may have an apply or a semi-join, and
    an error; the builder [b] is returned as the traversal left it. *)
Definition rewrite (expr : ExprNode) (p : LogicalPlan)
    (aggMapper : option (gmap Z Z)) (asScalar : bool) (b : planBuilder)
  : option (Expression * LogicalPlan * option error * planBuilder) :=
  let er := {| ctxStack := []; er_p := p; er_schema := GetSchema p;
               er_err := None; aggrMap := aggMapper; er_b := b;
               asScalar := asScalar |} in
  er ← Accept expr er;
  if er_err er is Some e then
    Some (NilExpression, nilPlan, Some (Trace e), er_b er)
  else if negb asScalar && bool_decide (len (ctxStack er) = 0) then
    Some (NilExpression, er_p er, None, er_b er)
  else if decide (len (ctxStack er) ≠ 1) then
    Some (NilExpression, nilPlan, Some (ErrContextLen (len (ctxStack er))),
          er_b er)
  else
    e0 ← index (ctxStack er) 0;
    if decide (getRowLen e0 ≠ 1) then
      Some (NilExpression, nilPlan, Some (ErrOperandColumns 1), er_b er)
    else
      Some (e0, er_p er, None, er_b er).

Definition datumToConstant (d : Datum) (tp : Z) : Expression :=
  Constant d (Some (NewFieldType tp)).

Definition rewriteVariable (v : VariableExpr) (er : expressionRewriter)
  : option expressionRewriter :=
  let stkLen := len (ctxStack er) in
  let name := ToLower (var_Name v) in
  let sessionVars := b_sessionVars (er_b er) in
  if negb (var_IsSystem v) then
    if var_Value v is Some _ then
      operand ← index (ctxStack er) (stkLen - 1);
      tp ← GetType operand;
      let '(f, e) :=
        NewFunction ast.SetVar tp
          [datumToConstant (DString name) mysql.TypeString; operand] in
      s ← store (ctxStack er) (stkLen - 1) f;
      Some (set_err e (set_ctxStack s er))
    else if Users sessionVars !! name is Some _ then
      let '(f, e) :=
        NewFunction ast.GetVar (Some (NewFieldType mysql.TypeString))
          [datumToConstant (DString name) mysql.TypeString] in
      if e is Some e then Some (set_err (Some (Trace e)) er)
      else Some (push f er)
    else
      (* select null user vars is permitted. *)
      Some (push (Constant DNull (Some (NewFieldType mysql.TypeNull))) er)
  else
  match SysVars name with
  | None =>
      (* select null sys vars is not permitted *)
      Some (set_err (Some (ErrUnknownSystemVar name)) er)
  | Some sysVar =>
  if decide (Scope sysVar = variable.ScopeNone) then
    Some (push (datumToConstant (DString (SysVar_Value sysVar))
                  mysql.TypeString) er)
  else if var_IsGlobal v then
    let '(value, e) := GetGlobalSysVar (er_b er) name in
    if e is Some e then Some (set_err (Some (Trace e)) er)
    else Some (push (datumToConstant (DString value) mysql.TypeString) er)
  else
  let d := GetSystemVar sessionVars name in
  if IsNull d then
    if decide (Z.land (Scope sysVar) variable.ScopeGlobal = 0) then
      Some (push (datumToConstant (DString (SysVar_Value sysVar))
                    mysql.TypeString) er)
    else
      (* Get global system variable and fill it in session. *)
      let '(globalVal, e) := GetGlobalSysVar (er_b er) name in
      if e is Some e then Some (set_err (Some (Trace e)) er) else
      let d := DString globalVal in
      let '(sessionVars, e) := SetSystemVar sessionVars name d in
      let er := set_b (set_sessionVars sessionVars (er_b er)) er in
      if e is Some e then Some (set_err (Some (Trace e)) er)
      else Some (push (datumToConstant d mysql.TypeString) er)
  else
    Some (push (datumToConstant d mysql.TypeString) er)
  end.

Definition unaryOpToExpression (v : UnaryOperationExpr)
    (er : expressionRewriter) : option expressionRewriter :=
  let stkLen := len (ctxStack er) in
  operand ← index (ctxStack er) (stkLen - 1);
  let er :=
    if decide (getRowLen operand ≠ 1)
    then set_err (Some (ErrOperandColumns 1)) er
    else er in
  match
    match unary_Op v with
    | opcode.Plus => inl er          (* expression (+ a) is equal to a *)
    | opcode.Minus => inr ast.UnaryMinus
    | opcode.BitNeg => inr ast.BitNeg
    | opcode.Not => inr ast.UnaryNot
    | _ => inl (set_err (Some ErrUnknownUnaryOp) er)
    end
  with
  | inl er => Some er
  | inr op =>
      operand ← index (ctxStack er) (stkLen - 1);
      let '(f, e) := NewFunction op (Some (unary_Type v)) [operand] in
      s ← store (ctxStack er) (stkLen - 1) f;
      Some (set_err e (set_ctxStack s er))
  end.

(** [notToExpression] returns the expression (nil on error) and records
    the error in [er]. *)
Definition notToExpression (hasNot : bool) (op : string)
    (tp : option FieldType) (args : list Expression)
    (er : expressionRewriter) : Expression * expressionRewriter :=
  let '(opFunc, e) := NewFunction op tp args in
  if e is Some e then (NilExpression, set_err (Some (Trace e)) er) else
  if negb hasNot then (opFunc, er) else
  let '(opFunc, e) := NewFunction ast.UnaryNot tp [opFunc] in
  if e is Some e then (NilExpression, set_err (Some (Trace e)) er) else
  (opFunc, er).

Definition isnullToExpression (v : IsNullExpr) (er : expressionRewriter)
  : option expressionRewriter :=
  let stkLen := len (ctxStack er) in
  operand ← index (ctxStack er) (stkLen - 1);
  if decide (getRowLen operand ≠ 1) then
    Some (set_err (Some (ErrOperandColumns 1)) er)
  else
    operand ← index (ctxStack er) (stkLen - 1);
    let '(function, er) :=
      notToExpression (isnull_Not v) ast.IsNull (Some (isnull_Type v))
        [operand] er in
    s ← slice_to (ctxStack er) (stkLen - 1);
    Some (set_ctxStack (s ++ [function]) er).

Definition betweenToExpression (v : BetweenExpr) (er : expressionRewriter)
  : option expressionRewriter :=
  let stkLen := len (ctxStack er) in
  let tp := Some (between_Type v) in
  '(op, l, r, e) ←
    (if between_Not v then
       value ← index (ctxStack er) (stkLen - 3);
       low ← index (ctxStack er) (stkLen - 2);
       let '(l, e) := NewFunction ast.LT tp [value; low] in
       if e is None then
         value ← index (ctxStack er) (stkLen - 3);
         value ← Expression_Clone value;
         high ← index (ctxStack er) (stkLen - 1);
         let '(r, e) := NewFunction ast.GT tp [value; high] in
         Some (ast.OrOr, l, r, e)
       else Some (ast.OrOr, l, NilExpression, e)
     else
       value ← index (ctxStack er) (stkLen - 3);
       low ← index (ctxStack er) (stkLen - 2);
       let '(l, e) := NewFunction ast.GE tp [value; low] in
       if e is None then
         value ← index (ctxStack er) (stkLen - 3);
         value ← Expression_Clone value;
         high ← index (ctxStack er) (stkLen - 1);
         let '(r, e) := NewFunction ast.LE tp [value; high] in
         Some (ast.AndAnd, l, r, e)
       else Some (ast.AndAnd, l, NilExpression, e));
  if e is Some e then Some (set_err (Some (Trace e)) er) else
  let er := set_err None er in
  let '(function, e) := NewFunction op tp [l; r] in
  if e is Some e then Some (set_err (Some (Trace e)) er) else
  s ← slice_to (ctxStack er) (stkLen - 3);
  Some (set_ctxStack (s ++ [function]) er).

(** The loop of [toColumn] over the outer schemas, innermost first:
    [outers] is the part of the stack still to search, innermost scope at
    the head. *)
Fixpoint searchOuterSchemas (v : ColumnName) (outers : list Schema)
    (er : expressionRewriter) : expressionRewriter :=
  match outers with
  | [] =>
      set_err (Some (ErrUnknownColumn (cn_Schema v) (cn_Table v) (cn_Name v)))
              er
  | outerSchema :: outers =>
      let '(column, e) := FindColumn outerSchema v in
      if column is Some column then push (CorrelatedColumn column) er
      else if e is Some e then set_err (Some (Trace e)) er
      else searchOuterSchemas v outers er
  end.

Definition toColumn (v : ColumnName) (er : expressionRewriter)
  : expressionRewriter :=
  let '(column, e) := FindColumn (er_schema er) v in
  if e is Some e then set_err (Some (Trace e)) er
  else if column is Some column then push (ColumnExpr column) er
  else searchOuterSchemas v (reverse (outerSchemas (er_b er))) er.

End Rewriter.

(** ** The other node builders

    The translators of the remaining expression forms. Their AST nodes are
    modelled like the ones above, and [evaluator.CastFuncFactory] is the
    one more collaborator they call. *)

(** [l[a:b]]: panics outside [0 <= a <= b <= len l]. *)
Definition slice {A} (l : list A) (a b : Z) : option (list A) :=
  if decide (0 ≤ a ≤ b ∧ b ≤ len l)
  then Some (take (Z.to_nat (b - a)) (drop (Z.to_nat a) l))
  else None.

(** Modelled from the spec: the node types of package ast are not under
    src/. Each record has the fields of its node that the pass reads; a
    field that the pass tests against nil is an [option]. *)
Record BinaryOperationExpr `{AstTypes} := {
  binary_Op : opcode.Op;
  binary_L : ExprNode;
  binary_R : ExprNode;
  binary_Type : FieldType;
}.

Record IsTruthExpr `{AstTypes} := {
  istruth_Expr : ExprNode;
  istruth_Not : bool;
  istruth_True : Z;
  istruth_Type : FieldType;
}.

Record PatternLikeExpr `{AstTypes} := {
  like_Expr : ExprNode;
  like_Pattern : ExprNode;
  like_Not : bool;
  like_Escape : Z;
  like_Type : FieldType;
}.

Record PatternRegexpExpr `{AstTypes} := {
  regexp_Expr : ExprNode;
  regexp_Pattern : ExprNode;
  regexp_Not : bool;
  regexp_Type : FieldType;
}.

Record RowExpr `{AstTypes} := {
  row_Values : list ExprNode;
}.

Record FuncCallExpr `{AstTypes} := {
  call_FnName : string;
  call_Args : list ExprNode;
  call_Type : FieldType;
}.

Record WhenClause `{AstTypes} := {
  when_Expr : ExprNode;
  when_Result : ExprNode;
}.

Record CaseExpr `{AstTypes} := {
  case_Value : option ExprNode;
  case_WhenClauses : list WhenClause;
  case_ElseClause : option ExprNode;
  case_Type : FieldType;
}.

Record FuncCastExpr `{AstTypes} := {
  cast_Expr : ExprNode;
  cast_Tp : FieldType;
}.

(** [evaluator.CastFuncFactory(tp)]: the conversion routine of a target
    type, of which the model keeps whether it exists. *)
Class EvaluatorPkg := {
  CastFuncFactory : FieldType → option error;
}.

Section Builders.
Context {AT : AstTypes} {PP : PlanPkg} {EP : ExpressionPkg}
        {CP : EvaluatorPkg}.

Definition binaryOpToExpression (v : BinaryOperationExpr)
    (er : expressionRewriter) : option expressionRewriter :=
  let stkLen := len (ctxStack er) in
  '(function, e) ←
    match binary_Op v with
    | opcode.EQ | opcode.NE | opcode.NullEQ =>
        l ← index (ctxStack er) (stkLen - 2);
        r ← index (ctxStack er) (stkLen - 1);
        constructBinaryOpFunction l r (opcode.Ops (binary_Op v))
    | _ =>
        args ← slice_from (ctxStack er) (stkLen - 2);
        Some (NewFunction (opcode.Ops (binary_Op v))
                (Some (binary_Type v)) args)
    end;
  if e is Some e then Some (set_err (Some (Trace e)) er) else
  let er := set_err None er in
  s ← slice_to (ctxStack er) (stkLen - 2);
  Some (set_ctxStack (s ++ [function]) er).

Definition istrueToScalarFunc (v : IsTruthExpr) (er : expressionRewriter)
  : option expressionRewriter :=
  let stkLen := len (ctxStack er) in
  let op := if decide (istruth_True v = 0) then ast.IsFalsity
            else ast.IsTruth in
  operand ← index (ctxStack er) (stkLen - 1);
  let '(function, er) :=
    notToExpression (istruth_Not v) op (Some (istruth_Type v)) [operand] er in
  s ← slice_to (ctxStack er) (stkLen - 1);
  Some (set_ctxStack (s ++ [function]) er).

Definition inToExpression (v : PatternInExpr) (er : expressionRewriter)
  : option expressionRewriter :=
  if in_Sel v is Some _ then Some er else
  let stkLen := len (ctxStack er) in
  let lLen := len (in_List v) in
  args ← slice (ctxStack er) (stkLen - lLen - 1) stkLen;
  let '(function, er) :=
    notToExpression (in_Not v) ast.In (Some (in_Type v)) args er in
  s ← slice_to (ctxStack er) (stkLen - lLen - 1);
  Some (set_ctxStack (s ++ [function]) er).

(** The indices of [for i := a; i < b; i += 2]. *)
Definition every_second (a b : Z) : list Z :=
  (λ j, a + 2 * j) <$> seqZ 0 ((b - a + 1) `div` 2).

Definition caseToExpression (v : CaseExpr) (er : expressionRewriter)
  : option expressionRewriter :=
  let stkLen := len (ctxStack er) in
  let argsLen := 2 * len (case_WhenClauses v) in
  let argsLen := if case_ElseClause v is Some _ then argsLen + 1
                 else argsLen in
  (* value                          -> ctxStack[stkLen-argsLen-1]
     when clause(condition, result) -> ctxStack[stkLen-argsLen:stkLen-1]
     else clause                    -> ctxStack[stkLen-1] *)
  '(args, argsLen, e) ←
    (if case_Value v is Some _ then
       value ← index (ctxStack er) (stkLen - argsLen - 1);
       '(pairs, e) ← collect (λ i,
          clone ← Expression_Clone value;
          condition ← index (ctxStack er) i;
          let '(arg, e) :=
            NewFunction ast.EQ (Some (NewFieldType mysql.TypeTiny))
              [clone; condition] in
          if e is Some e then Some ([], Some (Trace e)) else
          result ← index (ctxStack er) (i + 1);
          Some ([arg; result], None))
         (every_second (stkLen - argsLen) (stkLen - 1));
       if e is Some e then Some ([], argsLen, Some e) else
       args ← (if case_ElseClause v is Some _ then
                 elseResult ← index (ctxStack er) (stkLen - 1);
                 Some (concat pairs ++ [elseResult])
               else Some (concat pairs));
       (* one more for trimming the value element later *)
       Some (args, argsLen + 1, None)
     else
       args ← slice (ctxStack er) (stkLen - argsLen) stkLen;
       Some (args, argsLen, None));
  if e is Some e then Some (set_err (Some e) er) else
  let '(function, e) := NewFunction ast.Case (Some (case_Type v)) args in
  if e is Some e then Some (set_err (Some (Trace e)) er) else
  s ← slice_to (ctxStack er) (stkLen - argsLen);
  Some (set_ctxStack (s ++ [function]) er).

Definition likeToScalarFunc (v : PatternLikeExpr) (er : expressionRewriter)
  : option expressionRewriter :=
  let l := len (ctxStack er) in
  expr ← index (ctxStack er) (l - 2);
  pattern ← index (ctxStack er) (l - 1);
  let '(function, er) :=
    notToExpression (like_Not v) ast.Like (Some (like_Type v))
      [expr; pattern; Constant (DInt64 (like_Escape v)) None] er in
  s ← slice_to (ctxStack er) (l - 2);
  Some (set_ctxStack (s ++ [function]) er).

Definition regexpToScalarFunc (v : PatternRegexpExpr)
    (er : expressionRewriter) : option expressionRewriter :=
  let l := len (ctxStack er) in
  expr ← index (ctxStack er) (l - 2);
  pattern ← index (ctxStack er) (l - 1);
  let '(function, er) :=
    notToExpression (regexp_Not v) ast.Regexp (Some (regexp_Type v))
      [expr; pattern] er in
  s ← slice_to (ctxStack er) (l - 2);
  Some (set_ctxStack (s ++ [function]) er).

Definition rowToScalarFunc (v : RowExpr) (er : expressionRewriter)
  : option expressionRewriter :=
  let stkLen := len (ctxStack er) in
  let length := len (row_Values v) in
  rows ← mapM (index (ctxStack er)) (seqZ (stkLen - length) length);
  s ← slice_to (ctxStack er) (stkLen - length);
  let er := set_ctxStack s er in
  let '(function, e) := NewFunction ast.RowFunc None rows in
  if e is Some e then Some (set_err (Some (Trace e)) er) else
  Some (push function er).

Definition funcCallToExpression (v : FuncCallExpr) (er : expressionRewriter)
  : option expressionRewriter :=
  let stackLen := len (ctxStack er) in
  args ← slice_from (ctxStack er) (stackLen - len (call_Args v));
  let '(function, e) :=
    NewFunction (call_FnName v) (Some (call_Type v)) args in
  let er := set_err e er in
  s ← slice_to (ctxStack er) (stackLen - len (call_Args v));
  Some (set_ctxStack (s ++ [function]) er).

Definition castToScalarFunc (v : FuncCastExpr) (er : expressionRewriter)
  : option expressionRewriter :=
  if CastFuncFactory (cast_Tp v) is Some e
  then Some (set_err (Some (Trace e)) er) else
  operand ← top er;
  let function := ScalarFunction "cast" [operand] (Some (cast_Tp v)) in
  set_top function er.

End Builders.

(** The WHEN clauses as they lie on the stack: condition, result,
    condition, result, ... *)
Definition when_entries (whens : list (Expression * Expression))
  : list Expression :=
  concat ((λ '(c, r), [c; r]) <$> whens).

(** * A small instance of the collaborators

    A registry, a schema lookup and a planner small enough to run the pass
    on concrete inputs. Plans are trees; a query body is the plan it
    compiles to, with the error its compilation reports; an AST node is
    either a subquery or an operand whose traversal pushes one expression. *)

Module Toy.

(** The registry: name, least and greatest number of arguments ([-1]: no
    upper bound). *)
Definition Funcs : list (string * (Z * Z)) :=
  [("eq", (2, 2)); ("ne", (2, 2)); ("nulleq", (2, 2)); ("lt", (2, 2));
   ("le", (2, 2)); ("gt", (2, 2)); ("ge", (2, 2)); ("and", (2, 2));
   ("or", (2, 2)); ("not", (1, 1)); ("unaryminus", (1, 1));
   ("bitneg", (1, 1)); ("row", (2, -1)); ("getvar", (1, 1));
   ("setvar", (2, 2))].

Definition registryCheck (name : string) (n : Z) : option error :=
  match list_find (λ f, f.1 = name) Funcs with
  | None => Some (ErrExternal "Function is not implemented.")
  | Some (_, (_, (lo, hi))) =>
      if bool_decide (n < lo) || (bool_decide (hi ≠ -1) && bool_decide (hi < n))
      then Some (ErrExternal "number of function arguments out of range")
      else None
  end.

Fixpoint composeAnd (conditions : list Expression) : Expression :=
  match conditions with
  | [] => NilExpression
  | [c] => c
  | c :: conditions =>
      ScalarFunction ast.AndAnd [c; composeAnd conditions]
        (Some (NewFieldType mysql.TypeTiny))
  end.

Fixpoint splitAnd (onExpr : Expression) : list Expression :=
  match onExpr with
  | ScalarFunction name args _ =>
      if decide (name = ast.AndAnd) then flat_map splitAnd args
      else [onExpr]
  | _ => [onExpr]
  end.

Definition matches (v : ColumnName) (col : Column) : bool :=
  (bool_decide (cn_Schema v = "") || bool_decide (cn_Schema v = DBName col))
  && (bool_decide (cn_Table v = "") || bool_decide (cn_Table v = TblName col))
  && bool_decide (cn_Name v = ColName col).

Definition findByName (s : Schema) (v : ColumnName)
  : option Column * option error :=
  match filter (λ col, matches v col = true) s with
  | [] => (None, None)
  | [col] => (Some col, None)
  | _ => (None, Some (ErrExternal "Column is ambiguous"))
  end.

Definition expressionPkg : ExpressionPkg :=
  {| checkFunction := registryCheck;
     ComposeCNFCondition := composeAnd;
     SplitCNFItems := splitAnd;
     FindColumn := findByName |}.

Definition lower (c : ascii) : ascii :=
  let n := nat_of_ascii c in
  if bool_decide (65 ≤ n ≤ 90)%nat then ascii_of_nat (n + 32) else c.

Fixpoint lowerString (s : string) : string :=
  match s with
  | EmptyString => EmptyString
  | String c s => String (lower c) (lowerString s)
  end.

Definition variablePkg : VariablePkg :=
  {| ToLower := lowerString;
     SysVars := λ name,
       if decide (name = "version") then
         Some {| Scope := variable.ScopeNone; SysVar_Value := "5.6" |}
       else if decide (name = "autocommit") then
         Some {| Scope := 3; SysVar_Value := "ON" |}
       else None;
     GetGlobalSysVar := λ _ name, ("ON", None);
     GetSystemVar := λ s name,
       match Systems s !! name with Some v => DString v | None => DNull end;
     SetSystemVar := λ s name d,
       match d with
       | DString v =>
           ({| Users := Users s; Systems := <[name := v]> (Systems s) |}, None)
       | _ => (s, Some (ErrExternal "cannot be set to this value"))
       end |}.

Inductive plan :=
| Nil
| Table (schema : Schema)
| Selection (Conditions : list Expression) (child : plan)
| Exists (child : plan)
| MaxOneRow (child : plan)
| Apply (outer inner : plan) (outerSchema : Schema)
        (checker : option ApplyConditionChecker)
| SemiJoin (outer inner : plan) (conditions : list Expression)
           (asScalar : bool) (not : bool).

Record query := {
  compiled : plan;
  failure : option error;
}.

Inductive node :=
| Operand (e : Expression)
| Subquery (q : query).

Definition astTypes : AstTypes :=
  {| ExprNode := node; ResultSetNode := query |}.

#[local] Existing Instance expressionPkg.
#[local] Existing Instance variablePkg.
#[local] Existing Instance astTypes.

Definition boolColumn (name : string) : Column :=
  {| FromID := "aux"; DBName := ""; TblName := ""; ColName := name;
     ColRetType := Some (NewFieldType mysql.TypeTiny); Position := 0 |}.

Fixpoint schemaOf (p : plan) : Schema :=
  match p with
  | Nil => []
  | Table schema => schema
  | Selection _ child => schemaOf child
  | Exists _ => [boolColumn "exists_col"]
  | MaxOneRow child => schemaOf child
  | Apply outer inner _ checker =>
      (schemaOf outer ++ schemaOf inner
       ++ (if checker is Some _ then [boolColumn "exists_row"] else []))%list
  | SemiJoin outer _ _ asScalar _ =>
      (schemaOf outer
       ++ (if asScalar then [boolColumn "exists_row"] else []))%list
  end.

Fixpoint hasCorrelated (e : Expression) : bool :=
  match e with
  | CorrelatedColumn _ => true
  | ScalarFunction _ args _ => existsb hasCorrelated args
  | _ => false
  end.

Fixpoint correlated (p : plan) : bool :=
  match p with
  | Nil | Table _ => false
  | Selection conditions child =>
      existsb hasCorrelated conditions || correlated child
  | Exists child | MaxOneRow child => correlated child
  | Apply outer inner _ _ | SemiJoin outer inner _ _ _ =>
      correlated outer || correlated inner
  end.

Definition children (p : plan) : list plan :=
  match p with
  | Nil | Table _ => []
  | Selection _ child | Exists child | MaxOneRow child => [child]
  | Apply outer inner _ _ | SemiJoin outer inner _ _ _ => [outer; inner]
  end.

Definition planPkg : PlanPkg :=
  {| LogicalPlan := plan;
     PhysicalPlan := plan;
     nilPlan := Nil;
     GetSchema := schemaOf;
     IsCorrelated := correlated;
     GetChildByIndex := λ p i, index (children p) i;
     asSelection := λ p,
       match p with Selection conditions _ => Some conditions | _ => None end;
     PredicatePushDown := λ p _, ([], p, None);
     PruneColumnsAndResolveIndices := λ p _, (p, None);
     convert2PhysicalPlan := λ p, (p, None);
     EvalSubquery := λ p _, ((λ _, DInt64 1) <$> schemaOf p, None);
     buildResultSetNode := λ b q,
       (compiled q,
        {| b_err := failure q; b_sessionVars := b_sessionVars b;
           outerSchemas := outerSchemas b |});
     buildApply := Apply;
     buildSemiJoin := SemiJoin;
     buildExists := Exists;
     buildMaxOneRow := MaxOneRow |}.

#[local] Existing Instance planPkg.

Definition subquery (q : query) : SubqueryExpr := {| Query := q |}.

Definition astAccept : AstAccept :=
  {| asSubqueryExpr := λ n,
       match n with
       | Subquery q => Some (subquery q)
       | Operand _ => None
       end;
     Accept := λ n er,
       match n with
       | Operand e => Some (push e er)
       | Subquery _ => Some er
       end |}.

#[local] Existing Instance astAccept.

(** Two tables, [t(a, b)] for the outer query and [t2(c, d)] for the
    subqueries, and a session with the user variable [x]. *)
Definition col (tbl name : string) (pos : Z) : Column :=
  {| FromID := tbl; DBName := "test"; TblName := tbl; ColName := name;
     ColRetType := Some (NewFieldType mysql.TypeTiny); Position := pos |}.

Definition t : Schema := [col "t" "a" 0; col "t" "b" 1].

Definition t2 : Schema := [col "t2" "c" 0; col "t2" "d" 1].

Definition int (i : Z) : Expression :=
  Constant (DInt64 i) (Some (NewFieldType mysql.TypeTiny)).

Definition row (args : list Expression) : Expression :=
  ScalarFunction ast.RowFunc args None.

Definition tiny : FieldType := NewFieldType mysql.TypeTiny.

Definition session : SessionVars :=
  {| Users := {["x" := "1"]}; Systems := ∅ |}.

Definition builder (outer : list Schema) : planBuilder :=
  {| b_err := None; b_sessionVars := session; outerSchemas := outer |}.

(** A rewriter over the plan [Table t], with the given stack. *)
Definition rewriter (stack : list Expression) (scalar : bool)
    (outer : list Schema) : expressionRewriter :=
  {| ctxStack := stack; er_p := Table t; er_schema := t; er_err := None;
     aggrMap := None; er_b := builder outer; asScalar := scalar |}.

(** [SELECT c, d FROM t2] *)
Definition select_c_d : query :=
  {| compiled := Table t2; failure := None |}.

(** [SELECT c, d FROM t2 WHERE t2.c = t.a] *)
Definition select_c_d_where_c_eq_a : query :=
  {| compiled :=
       Selection [ScalarFunction ast.EQ
                    [ColumnExpr (col "t2" "c" 0);
                     CorrelatedColumn (col "t" "a" 0)] (Some tiny)]
                 (Table t2);
     failure := None |}.

(** The same filter under a max-one-row operator: the child of the EXISTS
    is then not a Selection. *)
Definition select_correlated_no_selection : query :=
  {| compiled :=
       MaxOneRow
         (Selection [ScalarFunction ast.EQ
                       [ColumnExpr (col "t2" "c" 0);
                        CorrelatedColumn (col "t" "a" 0)] (Some tiny)]
                    (Table t2));
     failure := None |}.

(** A subquery whose compilation fails. *)
Definition select_unknown_table : query :=
  {| compiled := Nil; failure := Some (ErrExternal "table doesn't exist") |}.

(** [(1, 2) op ANY/ALL (SELECT c, d FROM t2)] *)
Definition row_compare (op : opcode.Op) (all : bool) : CompareSubqueryExpr :=
  {| cmp_L := Operand (row [int 1; int 2]); cmp_Op := op;
     cmp_R := Subquery select_c_d; cmp_All := all |}.

(** [(1, (2, 3)) IN (q)] *)
Definition nested_row_in (q : query) : PatternInExpr :=
  {| in_Expr := Operand (row [int 1; row [int 2; int 3]]); in_List := [];
     in_Not := false; in_Sel := Some (Subquery q); in_Type := tiny |}.

(** [op (1, 2)] and [op 1] *)
Definition unary (op : opcode.Op) (operand : Expression)
  : UnaryOperationExpr :=
  {| unary_Op := op; unary_V := Operand operand; unary_Type := tiny |}.

(** [1 [NOT] BETWEEN 0 AND 5] *)
Definition between (not : bool) : BetweenExpr :=
  {| between_Expr := Operand (int 1); between_Left := Operand (int 0);
     between_Right := Operand (int 5); between_Not := not;
     between_Type := tiny |}.

(** [@X] *)
Definition user_variable (name : string) : VariableExpr :=
  {| var_Name := name; var_IsGlobal := false; var_IsSystem := false;
     var_Value := None |}.

(** [EXISTS (q)] *)
Definition exists_subquery (q : query) : ExistsSubqueryExpr :=
  {| exists_Sel := Subquery q |}.

(** A third table [u(a)], and a rewriter inside a subquery over [t2] whose
    enclosing scopes are [outer]. *)
Definition u : Schema := [col "u" "a" 0].

Definition subquery_rewriter (outer : list Schema) : expressionRewriter :=
  {| ctxStack := []; er_p := Table t2; er_schema := t2; er_err := None;
     aggrMap := None; er_b := builder outer; asScalar := true |}.

Definition column_name (name : string) : ColumnName :=
  {| cn_Schema := ""; cn_Table := ""; cn_Name := name |}.

(** A registry that also knows the predicates and CASE, and a conversion
    routine for every type but the one of code 0. *)
Definition AllFuncs : list (string * (Z * Z)) :=
  Funcs ++ [("isnull", (1, 1)); ("istrue", (1, 1)); ("isfalse", (1, 1));
            ("in", (1, -1)); ("like", (3, 3)); ("regexp", (2, 2));
            ("case", (1, -1)); ("concat", (1, -1))].

Definition fullCheck (name : string) (n : Z) : option error :=
  match list_find (λ f, f.1 = name) AllFuncs with
  | None => Some (ErrExternal "Function is not implemented.")
  | Some (_, (_, (lo, hi))) =>
      if bool_decide (n < lo) || (bool_decide (hi ≠ -1) && bool_decide (hi < n))
      then Some (ErrExternal "number of function arguments out of range")
      else None
  end.

Definition fullPkg : ExpressionPkg :=
  {| checkFunction := fullCheck;
     ComposeCNFCondition := composeAnd;
     SplitCNFItems := splitAnd;
     FindColumn := findByName |}.

Definition evaluatorPkg : EvaluatorPkg :=
  {| CastFuncFactory := λ tp,
       if decide (Tp tp = 0) then Some (ErrExternal "unknown cast type")
       else None |}.

(** More nodes: each takes its operands from the stack, so its children
    are the operands' nodes only for the record. *)
Definition is_null (not : bool) : IsNullExpr :=
  {| isnull_Expr := Operand (int 1); isnull_Not := not;
     isnull_Type := tiny |}.

Definition is_truth (not : bool) (true : Z) : IsTruthExpr :=
  {| istruth_Expr := Operand (int 1); istruth_Not := not;
     istruth_True := true; istruth_Type := tiny |}.

(** [1 [NOT] IN (2, 3)] *)
Definition in_list (not : bool) : PatternInExpr :=
  {| in_Expr := Operand (int 1);
     in_List := [Operand (int 2); Operand (int 3)];
     in_Not := not; in_Sel := None; in_Type := tiny |}.

Definition like (not : bool) : PatternLikeExpr :=
  {| like_Expr := Operand (int 1); like_Pattern := Operand (int 2);
     like_Not := not; like_Escape := 92; like_Type := tiny |}.

Definition binary (op : opcode.Op) : BinaryOperationExpr :=
  {| binary_Op := op; binary_L := Operand (int 1);
     binary_R := Operand (int 2); binary_Type := tiny |}.

(** [(1, 2)] *)
Definition row_of_two : RowExpr :=
  {| row_Values := [Operand (int 1); Operand (int 2)] |}.

(** [name(1, 2)] *)
Definition call (name : string) : FuncCallExpr :=
  {| call_FnName := name;
     call_Args := [Operand (int 1); Operand (int 2)];
     call_Type := tiny |}.

(** [CASE [1] WHEN 2 THEN 3 WHEN 4 THEN 5 ELSE 6 END] *)
Definition case_of (value : bool) : CaseExpr :=
  {| case_Value := if value then Some (Operand (int 1)) else None;
     case_WhenClauses :=
       [{| when_Expr := Operand (int 2); when_Result := Operand (int 3) |};
        {| when_Expr := Operand (int 4); when_Result := Operand (int 5) |}];
     case_ElseClause := Some (Operand (int 6));
     case_Type := tiny |}.

Definition cast (tp : Z) : FuncCastExpr :=
  {| cast_Expr := Operand (int 1); cast_Tp := NewFieldType tp |}.

(** [@@name], [@@global.name] *)
Definition system_variable (name : string) (global : bool) : VariableExpr :=
  {| var_Name := name; var_IsGlobal := global; var_IsSystem := true;
     var_Value := None |}.

(** [@name := 1] *)
Definition assignment (name : string) : VariableExpr :=
  {| var_Name := name; var_IsGlobal := false; var_IsSystem := false;
     var_Value := Some (Operand (int 1)) |}.

(** A schema in which the name [a] is ambiguous. *)
Definition aa : Schema := [col "t" "a" 0; col "u" "a" 1].

(** [1 [NOT] REGEXP 2] *)
Definition regexp (not : bool) : PatternRegexpExpr :=
  {| regexp_Expr := Operand (int 1); regexp_Pattern := Operand (int 2);
     regexp_Not := not; regexp_Type := tiny |}.

(** [(1, 2) [NOT] IN (q)] *)
Definition row_in (not : bool) (q : query) : PatternInExpr :=
  {| in_Expr := Operand (row [int 1; int 2]); in_List := [];
     in_Not := not; in_Sel := Some (Subquery q); in_Type := tiny |}.

End Toy.

(** * Properties *)

(** ** Slices *)

Lemma index_Some {A} (l : list A) (i : Z) :
  0 ≤ i < len l → is_Some (index l i).
Proof.
  intros Hi. unfold index, len in *. rewrite decide_True by lia.
  apply lookup_lt_is_Some. lia.
Qed.

Lemma index_app_last {A} (l : list A) (x : A) :
  index (l ++ [x]) (len (l ++ [x]) - 1) = Some x.
Proof.
  unfold index, len. rewrite length_app. simpl.
  rewrite decide_True by lia.
  replace (Z.to_nat _) with (length l) by lia.
  by rewrite lookup_app_r, Nat.sub_diag by lia.
Qed.

Lemma index_In {A} (l : list A) (i : Z) (x : A) :
  index l i = Some x → x ∈ l.
Proof.
  unfold index. case_decide; [|done]. intros Hx.
  apply list_elem_of_lookup. eauto.
Qed.

(** The three entries on top of a stack and the stack below them. *)
Lemma stack3 {A} (rest : list A) (a b c : A) :
  let s := rest ++ [a; b; c] in
  index s (len s - 3) = Some a ∧ index s (len s - 2) = Some b
  ∧ index s (len s - 1) = Some c ∧ slice_to s (len s - 3) = Some rest.
Proof.
  intros s. subst s. unfold index, slice_to, len. rewrite length_app. simpl.
  rewrite !decide_True by lia.
  replace (Z.to_nat (Z.of_nat (length rest + 3) - 3)) with (length rest + 0)%nat by lia.
  replace (Z.to_nat (Z.of_nat (length rest + 3) - 2)) with (length rest + 1)%nat by lia.
  replace (Z.to_nat (Z.of_nat (length rest + 3) - 1)) with (length rest + 2)%nat by lia.
  rewrite !lookup_app_r, !Nat.add_sub' by lia.
  rewrite Nat.add_0_r, take_app_length. done.
Qed.

(** ** Row-arity utilities *)

Section RowArity.
Context `{ExpressionPkg}.

Lemma collect_ext {A} (f g : Z → option (A * option error)) (ixs : list Z) :
  (∀ i, i ∈ ixs → f i = g i) → collect f ixs = collect g ixs.
Proof.
  induction ixs as [|i ixs IH]; intros Hfg; [done|]. simpl.
  rewrite (Hfg i) by left. rewrite IH; [done|].
  intros j Hj. apply Hfg. by right.
Qed.

Lemma list_max_elem_of (l : list nat) (x : nat) :
  x ∈ l → (x ≤ list_max l)%nat.
Proof.
  induction 1 as [x l|x y l _ IH]; simpl; lia.
Qed.

(** A component of a row lies one level of nesting below the row. *)
Lemma getRowArg_row_depth (e a : Expression) (i : Z) :
  getRowArg e i = Some a → (row_depth a < row_depth e)%nat.
Proof.
  destruct e as [| | |v tp|name args tp]; simpl; try done.
  - destruct v as [| | |row]; simpl; try done.
    destruct (index row i) as [d|] eqn:Hd; simpl; [|done].
    intros [= <-]. simpl.
    apply index_In in Hd.
    apply Nat.lt_succ_r, list_max_elem_of, list_elem_of_fmap. eauto.
  - intros Ha. apply index_In in Ha.
    apply Nat.lt_succ_r, list_max_elem_of, list_elem_of_fmap. eauto.
Qed.

(** Past the nesting depth of [l] the number of unfoldings does not matter. *)
Lemma constructBinaryOpFunction_rec_stable (n m : nat)
    (l r : Expression) (op : string) :
  (row_depth l < n)%nat → (row_depth l < m)%nat →
  constructBinaryOpFunction_rec n l r op
  = constructBinaryOpFunction_rec m l r op.
Proof.
  revert m l r. induction n as [|n IH]; intros m l r Hn Hm; [lia|].
  destruct m as [|m]; [lia|]. simpl.
  unfold constructBinaryOpFunction_body, for_range.
  repeat case_decide; try done.
  erewrite collect_ext; [done|]. intros i _. simpl.
  destruct (getRowArg l i) as [li|] eqn:Hli; simpl; [|done].
  destruct (getRowArg r i) as [ri|]; simpl; [|done].
  apply getRowArg_row_depth in Hli. apply IH; lia.
Qed.

(** [constructBinaryOpFunction] satisfies the recursive equation of the
    source function. *)
Lemma constructBinaryOpFunction_unfold (l r : Expression) (op : string) :
  constructBinaryOpFunction l r op
  = constructBinaryOpFunction_body constructBinaryOpFunction l r op.
Proof.
  unfold constructBinaryOpFunction at 1. simpl.
  unfold constructBinaryOpFunction_body, for_range.
  repeat case_decide; try done.
  erewrite collect_ext; [done|]. intros i _. simpl.
  destruct (getRowArg l i) as [li|] eqn:Hli; simpl; [|done].
  destruct (getRowArg r i) as [ri|]; simpl; [|done].
  apply getRowArg_row_depth in Hli.
  unfold constructBinaryOpFunction.
  apply constructBinaryOpFunction_rec_stable; lia.
Qed.

Lemma collect_is_Some {A} (body : Z → option (A * option error))
    (ixs : list Z) :
  (∀ i, i ∈ ixs → is_Some (body i)) → is_Some (collect body ixs).
Proof.
  induction ixs as [|i ixs IH]; intros Hb; simpl; [by eexists|].
  destruct (Hb i) as [[x [e|]] ->]; [by left| |]; simpl; [by eexists|].
  destruct IH as [[xs [e|]] ->]; simpl; [|by eexists..].
  intros j Hj. apply Hb. by right.
Qed.

Lemma collect_ok {A} (body : Z → option (A * option error))
    (ixs : list Z) (xs : list A) :
  Forall2 (λ i x, body i = Some (x, None)) ixs xs →
  collect body ixs = Some (xs, None).
Proof.
  induction 1 as [|i x ixs xs Hi _ IH]; simpl; [done|].
  by rewrite Hi; simpl; rewrite IH.
Qed.

(** A row of arity [N] other than 1 has its [N] components. *)
Lemma getRowArg_is_Some (e : Expression) (i : Z) :
  getRowLen e ≠ 1 → 0 ≤ i < getRowLen e → is_Some (getRowArg e i).
Proof.
  destruct e as [| | |v tp|name args tp]; simpl; try done.
  - destruct v as [| | |row]; simpl; try done.
    intros _ Hi. destruct (index_Some row i Hi) as [d ->]. by eexists.
  - case_decide; [|done]. intros _ Hi. by apply index_Some.
Qed.

(** The function returns on every input: no index is out of range and no
    nil is dereferenced, whatever the operands. *)
Lemma constructBinaryOpFunction_total (l r : Expression) (op : string) :
  is_Some (constructBinaryOpFunction l r op).
Proof.
  remember (row_depth l) as n eqn:Hn.
  revert l r Hn. induction (lt_wf n) as [n _ IH]. intros l r ->.
  rewrite constructBinaryOpFunction_unfold.
  unfold constructBinaryOpFunction_body, for_range.
  case_decide as H1; [by eexists|]. case_decide as H2; [by eexists|].
  assert (getRowLen l ≠ 1) as Hl by (intros ?; apply H1; split; congruence).
  match goal with
  | |- is_Some (?c ≫= _) => assert (is_Some c) as [[fs [e|]] ->]
  end; [|by eexists..].
  apply collect_is_Some. intros i Hi. apply elem_of_seqZ in Hi.
  destruct (getRowArg_is_Some l i) as [li Hli]; [done|lia|].
  destruct (getRowArg_is_Some r i) as [ri Hri]; [congruence|lia|].
  rewrite Hli, Hri. simpl.
  eapply IH; [|reflexivity]. by eapply getRowArg_row_depth.
Qed.


End RowArity.

(** ** More on the row-arity utilities *)

Section RowArityOutcome.
Context `{ExpressionPkg}.

Lemma collect_error {A} (body : Z → option (A * option error))
    (ixs : list Z) (xs : list A) (e : error) :
  collect body ixs = Some (xs, Some e) →
  ∃ i x, i ∈ ixs ∧ body i = Some (x, Some e).
Proof.
  revert xs. induction ixs as [|i ixs IH]; intros xs; simpl; [done|].
  destruct (body i) as [[x [e'|]]|] eqn:Hi; simpl; [| |done].
  - intros [= _ <-]. exists i, x. split; [by left|done].
  - destruct (collect body ixs) as [[xs' [e'|]]|] eqn:Hc; simpl; try done.
    intros [= _ <-]. destruct (IH xs' eq_refl) as (j & y & Hj & Hy).
    exists j, y. split; [by right|done].
Qed.

(** X1. [constructBinaryOpFunction] returns on every pair of operands (no
    index out of range, no nil dereferenced). An error comes with a nil
    expression and is either the registry's refusal of [op] with two
    arguments or an arity error; a result without error means that the two
    operands have the same row length. *)
Theorem constructBinaryOpFunction_outcome (l r : Expression) (op : string) :
  ∃ f err,
    constructBinaryOpFunction l r op = Some (f, err)
    ∧ (∀ e, err = Some e →
         f = NilExpression
         ∧ (checkFunction op 2 = Some e ∨ ∃ n, e = ErrOperandColumns n))
    ∧ (err = None → getRowLen l = getRowLen r).
Proof.
  remember (row_depth l) as n eqn:Hn.
  revert l r Hn. induction (lt_wf n) as [n _ IH]. intros l r ->.
  destruct (constructBinaryOpFunction_total l r op) as [[f err] Hrun].
  exists f, err. split; [done|].
  rewrite constructBinaryOpFunction_unfold in Hrun.
  unfold constructBinaryOpFunction_body, for_range in Hrun.
  case_decide as H1.
  { unfold NewFunction in Hrun. change (len [l; r]) with 2 in Hrun.
    destruct (checkFunction op 2) as [e'|] eqn:Hreg;
      injection Hrun as <- <-.
    - split; [|done]. intros e [= <-]. split; [done|by left].
    - split; [done|]. intros _. destruct H1; congruence. }
  case_decide as H2.
  { injection Hrun as <- <-. split; [|done].
    intros e [= <-]. split; [done|]. right. by eexists. }
  destruct (collect _ _) as [[fs [e'|]]|] eqn:Hc; simpl in Hrun; [| |done].
  - injection Hrun as <- <-. split; [|done]. intros e [= <-].
    split; [done|].
    apply collect_error in Hc as (i & x & _ & Hi).
    destruct (getRowArg l i) as [li|] eqn:Hli; simpl in Hi; [|done].
    destruct (getRowArg r i) as [ri|] eqn:Hri; simpl in Hi; [|done].
    apply getRowArg_row_depth in Hli.
    destruct (IH _ Hli li ri eq_refl) as (f' & err' & Hrun' & Herr' & _).
    rewrite Hi in Hrun'. injection Hrun' as <- <-.
    by apply Herr'.
  - injection Hrun as <- <-. split; [done|]. intros _. congruence.
Qed.

(** Two scalars under a known operator compare in one node. *)
Lemma constructBinaryOpFunction_scalars (l r : Expression) (op : string) :
  getRowLen l = 1 → getRowLen r = 1 → checkFunction op 2 = None →
  constructBinaryOpFunction l r op
  = Some (ScalarFunction op [l; r] (Some (NewFieldType mysql.TypeTiny)),
          None).
Proof.
  intros Hl Hr Hreg. rewrite constructBinaryOpFunction_unfold.
  unfold constructBinaryOpFunction_body. rewrite decide_True by done.
  unfold NewFunction. change (len [l; r]) with 2. by rewrite Hreg.
Qed.

(** X2. Two row constructors of the same arity (other than 1) over scalar
    components, under an operator the registry knows: the result is the
    conjunction of the comparisons of the components taken pairwise in
    order, [(a0 op b0) and (a1 op b1) and ...]. *)
Theorem constructBinaryOpFunction_flat_rows (ls rs : list Expression)
    (tl tr : option FieldType) (op : string) :
  length ls = length rs → length ls ≠ 1%nat →
  Forall (λ a, getRowLen a = 1) ls → Forall (λ b, getRowLen b = 1) rs →
  checkFunction op 2 = None →
  constructBinaryOpFunction (ScalarFunction ast.RowFunc ls tl)
    (ScalarFunction ast.RowFunc rs tr) op
  = Some (ComposeCNFCondition
            (zip_with (λ a b, ScalarFunction op [a; b]
                                (Some (NewFieldType mysql.TypeTiny)))
               ls rs), None).
Proof.
  intros Hlen Hone Hls Hrs Hreg.
  assert (∀ xs t, getRowLen (ScalarFunction ast.RowFunc xs t) = len xs)
    as Hrow by done.
  rewrite constructBinaryOpFunction_unfold.
  unfold constructBinaryOpFunction_body. cbv zeta. rewrite !Hrow.
  rewrite decide_False by (unfold len; intros [? _]; lia).
  rewrite decide_False by (unfold len; intros Hn; apply Hn; by rewrite Hlen).
  unfold for_range. erewrite collect_ok; [done|].
  apply Forall2_same_length_lookup. split.
  { rewrite length_seqZ, length_zip_with. unfold len. lia. }
  intros k i f Hk Hf. apply lookup_seqZ in Hk as [-> Hk].
  rewrite Z.add_0_l. cbn [getRowArg]. unfold index.
  rewrite !decide_True by lia. rewrite !Nat2Z.id.
  apply lookup_zip_with_Some in Hf as (a & b & -> & Ha & Hb).
  rewrite Ha, Hb. simpl.
  apply constructBinaryOpFunction_scalars; [| |done].
  - eapply Forall_lookup_1 in Hls; done.
  - eapply Forall_lookup_1 in Hrs; done.
Qed.

(** X3. The components of a row value are at the indices from 0 to its row
    length: [getRowArg] returns exactly there and panics at any other
    index. *)
Theorem getRowArg_in_range (e : Expression) (i : Z) :
  getRowLen e ≠ 1 →
  is_Some (getRowArg e i) ↔ 0 ≤ i < getRowLen e.
Proof.
  intros Hrow. split; [|by apply getRowArg_is_Some].
  assert (∀ {A} (l : list A), is_Some (index l i) → 0 ≤ i < len l) as Hidx.
  { intros A l [x Hx]. unfold index in Hx. case_decide; [|done].
    apply lookup_lt_Some in Hx. unfold len. lia. }
  destruct e as [| | |v tp|name args tp]; simpl in *; try done.
  - destruct v as [| | |row]; simpl in *; try done.
    intros [a Ha]. apply Hidx.
    destruct (index row i); [by eexists|done].
  - case_decide; [|done]. apply Hidx.
Qed.

End RowArityOutcome.

(** ** Expressions *)

Lemma Column_Clone_id (c : Column) : Column_Clone c = c.
Proof. by destruct c. Qed.

(** A deep copy is the same value. *)
Lemma Clone_id : ∀ e : Expression, Clone e = e.
Proof.
  fix IH 1. intros [|c|c|v tp|name args tp]; simpl; try done.
  - by rewrite Column_Clone_id.
  - f_equal. induction args as [|a args IHargs]; simpl; [done|].
    by rewrite IH, IHargs.
Qed.

Lemma Schema_Clone_id (s : Schema) : Schema_Clone s = s.
Proof.
  unfold Schema_Clone. induction s as [|c s IH]; simpl; [done|].
  by rewrite Column_Clone_id, IH.
Qed.

(** ** The rewriter *)

Section RewriterProperties.
Context {AT : AstTypes} {PP : PlanPkg} {AA : AstAccept}
        {EP : ExpressionPkg} {VP : VariablePkg}.

Lemma top_push (e : Expression) (er : expressionRewriter) :
  top (push e er) = Some e.
Proof. unfold top, push. simpl. apply index_app_last. Qed.

(** C3. A top-level rewrite requested as scalar whose traversal ends
    without error: a final stack that does not hold exactly one entry gives
    the invalid-length error, a single entry whose row length is not 1 gives
    the arity error, and an expression is returned only when the stack is
    one entry of row length 1 (which is then the result). *)
Theorem rewrite_scalar_final_stack (expr : ExprNode) (p : LogicalPlan)
    (aggMapper : option (gmap Z Z)) (b : planBuilder)
    (er : expressionRewriter) :
  Accept expr {| ctxStack := []; er_p := p; er_schema := GetSchema p;
                 er_err := None; aggrMap := aggMapper; er_b := b;
                 asScalar := true |} = Some er →
  er_err er = None →
  (len (ctxStack er) ≠ 1 →
     rewrite expr p aggMapper true b
     = Some (NilExpression, nilPlan,
             Some (ErrContextLen (len (ctxStack er))), er_b er))
  ∧ (∀ e, ctxStack er = [e] → getRowLen e ≠ 1 →
       rewrite expr p aggMapper true b
       = Some (NilExpression, nilPlan, Some (ErrOperandColumns 1), er_b er))
  ∧ (∀ e, ctxStack er = [e] → getRowLen e = 1 →
       rewrite expr p aggMapper true b = Some (e, er_p er, None, er_b er))
  ∧ (∀ e p' b',
       rewrite expr p aggMapper true b = Some (e, p', None, b') →
       ctxStack er = [e] ∧ getRowLen e = 1).
Proof.
  intros Hacc Herr. unfold rewrite. rewrite Hacc. simpl. rewrite Herr. simpl.
  split; [|split; [|split]].
  - intros Hlen. by rewrite decide_True.
  - intros e -> He. rewrite decide_False by (intros Hn; by apply Hn).
    simpl. by rewrite decide_True.
  - intros e -> He. rewrite decide_False by (intros Hn; by apply Hn).
    simpl. by rewrite decide_False by (intros Hn; by apply Hn).
  - intros e p' b'. case_decide as Hlen; [done|].
    destruct (ctxStack er) as [|e0 [|e1 s]] eqn:Hs;
      try (unfold len in Hlen; simpl in Hlen; lia).
    simpl. case_decide as He; [done|]. intros Heq.
    assert (e0 = e) as -> by congruence.
    by split.
Qed.

(** C9. Around the compilation of a subquery the Outer-Schema Stack holds
    one more schema, a snapshot of the current one: the nested build runs on
    the stack extended by it, and when it hands the stack back as it found
    it, the stack after [buildSubquery] is the stack before, whether the
    nested build succeeded or reported an error. *)
Theorem buildSubquery_restores_outerSchemas (subq : SubqueryExpr)
    (er : expressionRewriter) (np : LogicalPlan) (b' : planBuilder) :
  let snapshot := Schema_Clone (er_schema er) in
  let pushed := outerSchemas (er_b er) ++ [snapshot] in
  buildResultSetNode (set_outerSchemas pushed (er_b er)) (Query subq)
  = (np, b') →
  outerSchemas b' = pushed →
  snapshot = er_schema er
  ∧ ∃ np' outerSchema er',
      buildSubquery subq er = Some (np', outerSchema, er')
      ∧ outerSchemas (er_b er') = outerSchemas (er_b er)
      ∧ (b_err b' = None →
           np' = np ∧ outerSchema = snapshot ∧ er_err er' = er_err er)
      ∧ (∀ e, b_err b' = Some e →
           np' = nilPlan ∧ outerSchema = [] ∧ er_err er' = Some e).
Proof.
  intros snapshot pushed Hbuild Hbal. split; [apply Schema_Clone_id|].
  unfold buildSubquery. fold snapshot pushed. rewrite Hbuild, Hbal.
  assert (slice_to pushed (len pushed - 1) = Some (outerSchemas (er_b er)))
    as ->.
  { unfold slice_to, pushed, len. rewrite length_app. simpl.
    rewrite decide_True by lia. f_equal.
    replace (Z.to_nat _) with (length (outerSchemas (er_b er))) by lia.
    by rewrite take_app_length. }
  simpl. destruct (b_err b') as [e|] eqn:He.
  - eexists _, _, _. split; [done|]. simpl. split; [done|].
    split; [done|]. by intros e' [= <-].
  - eexists _, _, _. split; [done|]. simpl. by repeat split.
Qed.

(** C4. A correlated EXISTS whose existence-wrapped plan has for immediate
    child a Selection over a plan that is not correlated becomes a semi-join
    of the outer plan with that inner plan on the Selection's conditions;
    any other correlated EXISTS becomes an apply of the outer plan to the
    existence-wrapped plan, with no condition checker. *)
Theorem handleExistSubquery_correlated (v : ExistsSubqueryExpr)
    (er er1 : expressionRewriter) (subq : SubqueryExpr)
    (np child : LogicalPlan) (outerSchema : Schema) :
  asSubqueryExpr (exists_Sel v) = Some subq →
  buildSubquery subq er = Some (np, outerSchema, er1) →
  er_err er1 = None →
  IsCorrelated (buildExists np) = true →
  GetChildByIndex (buildExists np) 0 = Some child →
  (∀ conditions inner,
     asSelection child = Some conditions →
     GetChildByIndex child 0 = Some inner →
     IsCorrelated inner = false →
     let er2 :=
       set_p (buildSemiJoin (er_p er1) inner conditions (asScalar er1) false)
             er1 in
     handleExistSubquery v er
     = if asScalar er1
       then col ← last_column (er_p er2); Some (push col er2)
       else Some er2)
  ∧ (asSelection child = None
     ∨ (∃ inner, GetChildByIndex child 0 = Some inner
                 ∧ IsCorrelated inner = true) →
     let er2 :=
       set_p (buildApply (er_p er1) (buildExists np) outerSchema None) er1 in
     handleExistSubquery v er
     = (col ← last_column (er_p er2); Some (push col er2))).
Proof.
  intros Hsub Hbuild Herr Hcorr Hchild. unfold handleExistSubquery.
  rewrite Hsub, Hbuild. simpl. rewrite Herr, Hcorr, Hchild. simpl. split.
  - intros conditions inner -> Hinner Hnc. simpl.
    rewrite Hinner. simpl. rewrite Hnc. simpl.
    by destruct (asScalar er1).
  - intros [->|[inner [Hinner Hc]]]; simpl; [done|].
    destruct (asSelection child) as [conditions|]; simpl; [|done].
    rewrite Hinner. simpl. by rewrite Hc.
Qed.

(** C7. BETWEEN over the three operands value, low, high on top of the
    stack, the value being an expression (not nil): with NOT the result is
    [(value < low) OR (value > high)], without it
    [(value >= low) AND (value <= high)]; the second comparison is built
    over a clone of the value, which is the same value; the three operands
    are replaced by the one result. *)
Theorem betweenToExpression_expansion (v : BetweenExpr)
    (er : expressionRewriter) (rest : list Expression)
    (value low high : Expression) :
  let tp := Some (between_Type v) in
  let cmp1 := if between_Not v then ast.LT else ast.GE in
  let cmp2 := if between_Not v then ast.GT else ast.LE in
  let op := if between_Not v then ast.OrOr else ast.AndAnd in
  ctxStack er = rest ++ [value; low; high] →
  value ≠ NilExpression →
  checkFunction cmp1 2 = None →
  checkFunction cmp2 2 = None →
  checkFunction op 2 = None →
  Clone value = value
  ∧ betweenToExpression v er
    = Some (set_ctxStack
              (rest ++ [ScalarFunction op
                          [ScalarFunction cmp1 [value; low] tp;
                           ScalarFunction cmp2 [Clone value; high] tp] tp])
              (set_err None er))
  ∧ ∀ er', betweenToExpression v er = Some er' →
      len (ctxStack er') = len (ctxStack er) - 3 + 1 ∧ er_err er' = None.
Proof.
  intros tp cmp1 cmp2 op Hstack Hvalue Hc1 Hc2 Hop.
  split; [apply Clone_id|].
  assert (Expression_Clone value = Some (Clone value)) as Hclone
    by (by destruct value).
  assert (betweenToExpression v er
    = Some (set_ctxStack
              (rest ++ [ScalarFunction op
                          [ScalarFunction cmp1 [value; low] tp;
                           ScalarFunction cmp2 [Clone value; high] tp] tp])
              (set_err None er))) as Heq.
  { destruct (stack3 rest value low high) as (Hv & Hl & Hh & Hs).
    unfold betweenToExpression, NewFunction. cbv zeta.
    rewrite Hstack, Hv, Hl, Hh. subst cmp1 cmp2 op tp.
    destruct (between_Not v); cbn iota in Hc1, Hc2, Hop;
      cbn [mbind option_bind];
      change (len [value; low]) with 2;
      rewrite Hc1, Hclone; cbn [mbind option_bind];
      change (len [Clone value; high]) with 2;
      rewrite Hc2; cbn [mbind option_bind];
      match goal with |- context [len [?x; ?y]] =>
        change (len [x; y]) with 2 end;
      rewrite Hop; cbn [ctxStack set_err];
      by rewrite Hstack, Hs. }
  split; [done|].
  intros er'. rewrite Heq. intros [= <-]. simpl. split; [|done].
  rewrite Hstack. unfold len. rewrite !length_app. simpl. lia.
Qed.

(** The search of the outer schemas stops at the innermost scope that has
    the column. *)
Lemma searchOuterSchemas_first_match (v : ColumnName)
    (inner outer : list Schema) (s : Schema) (column : Column)
    (e : option error) (er : expressionRewriter) :
  Forall (λ s', FindColumn s' v = (None, None)) inner →
  FindColumn s v = (Some column, e) →
  searchOuterSchemas v (inner ++ s :: outer) er
  = push (CorrelatedColumn column) er.
Proof.
  intros Hinner Hs. induction Hinner as [|s' inner Hs' _ IH]; simpl.
  - by rewrite Hs.
  - by rewrite Hs'.
Qed.

Lemma searchOuterSchemas_no_match (v : ColumnName) (outers : list Schema)
    (er : expressionRewriter) :
  Forall (λ s', FindColumn s' v = (None, None)) outers →
  searchOuterSchemas v outers er
  = set_err (Some (ErrUnknownColumn (cn_Schema v) (cn_Table v) (cn_Name v)))
            er.
Proof.
  induction 1 as [|s' outers Hs' _ IH]; simpl; [done|]. by rewrite Hs'.
Qed.

(** C8. A column reference is looked up in the current schema first and,
    found there, pushed as it is. When the current schema does not have it,
    the outer schemas are searched from the innermost (the last pushed) to
    the outermost, and the column of the first scope that has it is pushed
    as a correlated column; when no scope has it the rewrite fails with the
    unknown-column error that carries the three parts of the name. A push
    adds the column on top of the stack and leaves the error slot; the
    failure sets the error slot and leaves the stack; nothing else of the
    rewriter changes. *)
Theorem toColumn_resolution (v : ColumnName) (er : expressionRewriter) :
  (∀ column,
     FindColumn (er_schema er) v = (Some column, None) →
     toColumn v er
     = {| ctxStack := ctxStack er ++ [ColumnExpr column];
          er_p := er_p er; er_schema := er_schema er; er_err := er_err er;
          aggrMap := aggrMap er; er_b := er_b er; asScalar := asScalar er |})
  ∧ (FindColumn (er_schema er) v = (None, None) →
     (∀ outer inner s column e,
        outerSchemas (er_b er) = outer ++ s :: inner →
        Forall (λ s', FindColumn s' v = (None, None)) inner →
        FindColumn s v = (Some column, e) →
        toColumn v er
        = {| ctxStack := ctxStack er ++ [CorrelatedColumn column];
             er_p := er_p er; er_schema := er_schema er;
             er_err := er_err er; aggrMap := aggrMap er; er_b := er_b er;
             asScalar := asScalar er |})
     ∧ (Forall (λ s', FindColumn s' v = (None, None)) (outerSchemas (er_b er)) →
        toColumn v er
        = {| ctxStack := ctxStack er; er_p := er_p er;
             er_schema := er_schema er;
             er_err := Some (ErrUnknownColumn (cn_Schema v) (cn_Table v)
                               (cn_Name v));
             aggrMap := aggrMap er; er_b := er_b er;
             asScalar := asScalar er |})).
Proof.
  unfold toColumn. split; [by intros column ->|].
  intros ->. split.
  - intros outer inner s column e -> Hinner Hs.
    rewrite reverse_app, reverse_cons, <- app_assoc. simpl.
    rewrite (searchOuterSchemas_first_match v (reverse inner) (reverse outer)
               s column e er); [done| |done].
    by apply Forall_reverse.
  - intros Hall. rewrite searchOuterSchemas_no_match; [done|].
    by apply Forall_reverse.
Qed.

(** C10. Reading a user variable (not a system variable, no value
    assigned by the expression): a name the session's user-variable map does
    not have pushes a NULL constant of type NULL; a name it has pushes a
    get-variable node over the name; a get-variable node on top of the
    result means the name was in the map; and, [getvar] with one argument
    being a function the registry knows, the read returns with one more
    entry on the stack and the error slot as it was. *)
Theorem rewriteVariable_user_read (v : VariableExpr)
    (er : expressionRewriter) :
  let name := ToLower (var_Name v) in
  let users := Users (b_sessionVars (er_b er)) in
  var_IsSystem v = false →
  var_Value v = None →
  (users !! name = None →
     rewriteVariable v er
     = Some (push (Constant DNull (Some (NewFieldType mysql.TypeNull))) er))
  ∧ (is_Some (users !! name) → checkFunction ast.GetVar 1 = None →
     rewriteVariable v er
     = Some (push (ScalarFunction ast.GetVar
                     [Constant (DString name)
                        (Some (NewFieldType mysql.TypeString))]
                     (Some (NewFieldType mysql.TypeString))) er))
  ∧ (∀ er' args tp,
       rewriteVariable v er = Some er' → er_err er' = None →
       top er' = Some (ScalarFunction ast.GetVar args tp) →
       is_Some (users !! name))
  ∧ (checkFunction ast.GetVar 1 = None →
     ∃ er', rewriteVariable v er = Some er'
       ∧ er_err er' = er_err er
       ∧ len (ctxStack er') = len (ctxStack er) + 1).
Proof.
  intros name users Hsys Hval.
  assert (users !! name = None →
     rewriteVariable v er
     = Some (push (Constant DNull (Some (NewFieldType mysql.TypeNull))) er))
    as Hnone.
  { intros Hu. unfold rewriteVariable. rewrite Hsys, Hval. simpl.
    fold name users. by rewrite Hu. }
  assert (is_Some (users !! name) → checkFunction ast.GetVar 1 = None →
     rewriteVariable v er
     = Some (push (ScalarFunction ast.GetVar
                     [Constant (DString name)
                        (Some (NewFieldType mysql.TypeString))]
                     (Some (NewFieldType mysql.TypeString))) er))
    as Hsome.
  { intros [val Hu] Hreg. unfold rewriteVariable. rewrite Hsys, Hval. simpl.
    fold name users. rewrite Hu. unfold NewFunction.
    change (len [_]) with 1. by rewrite Hreg. }
  split; [done|]. split; [done|]. split.
  - intros er' args tp Hrun _ Htop.
    destruct (users !! name) as [val|] eqn:Hu; [by eexists|].
    rewrite Hnone in Hrun by done. injection Hrun as <-.
    by rewrite top_push in Htop.
  - intros Hreg.
    assert (∀ e, len (ctxStack (push e er)) = len (ctxStack er) + 1) as Hlen.
    { intros e. unfold push, len. simpl. rewrite length_app. simpl. lia. }
    destruct (users !! name) as [val|] eqn:Hu.
    + eexists. split; [by apply Hsome|]. by split.
    + eexists. split; [by apply Hnone|]. by split.
Qed.

(** What [unaryOpToExpression] does for [-], [~] and [!], whatever the row
    length of the operand: the operand is replaced by the function node and
    the error slot takes the outcome of building it. *)
Lemma unaryOpToExpression_function_node (v : UnaryOperationExpr)
    (er : expressionRewriter) (rest : list Expression)
    (operand : Expression) (name : string) :
  (unary_Op v, name) ∈ [(opcode.Minus, ast.UnaryMinus);
                         (opcode.BitNeg, ast.BitNeg);
                         (opcode.Not, ast.UnaryNot)] →
  ctxStack er = rest ++ [operand] →
  checkFunction name 1 = None →
  unaryOpToExpression v er
  = Some (set_err None
            (set_ctxStack
               (rest ++ [ScalarFunction name [operand] (Some (unary_Type v))])
               er)).
Proof.
  intros Hop Hstack Hreg.
  assert (index (rest ++ [operand]) (len (rest ++ [operand]) - 1)
          = Some operand) as Hidx by apply index_app_last.
  assert (∀ f, store (rest ++ [operand]) (len (rest ++ [operand]) - 1) f
               = Some (rest ++ [f])) as Hstore.
  { intros f. unfold store, len. rewrite length_app. simpl.
    rewrite decide_True by lia. f_equal.
    replace (Z.to_nat _) with (length rest + 0)%nat by lia.
    by rewrite insert_app_r. }
  unfold unaryOpToExpression. cbv zeta. rewrite Hstack, Hidx.
  cbn [mbind option_bind].
  repeat (apply elem_of_cons in Hop as [[= Hop' ->]|Hop];
          [rewrite Hop'; case_decide; cbn [ctxStack set_err];
           rewrite Hstack, Hidx; cbn [mbind option_bind];
           unfold NewFunction; change (len [operand]) with 1;
           rewrite Hreg, Hstore; done|]).
  by apply elem_of_nil in Hop.
Qed.

(** [+x] leaves the stack as it is, and records the arity error when the
    operand is not a scalar. *)
Lemma unaryOpToExpression_plus (v : UnaryOperationExpr)
    (er : expressionRewriter) (operand : Expression) :
  unary_Op v = opcode.Plus →
  top er = Some operand →
  unaryOpToExpression v er
  = Some (if decide (getRowLen operand ≠ 1)
          then set_err (Some (ErrOperandColumns 1)) er else er).
Proof.
  intros Hop Htop. unfold unaryOpToExpression, top in *. cbv zeta.
  rewrite Htop. cbn [mbind option_bind]. by rewrite Hop.
Qed.

(** [isnullToExpression] makes the same test and returns on it: a row
    operand leaves the arity error and the stack as it was. *)
Lemma isnullToExpression_row_operand (v : IsNullExpr)
    (er : expressionRewriter) (operand : Expression) :
  top er = Some operand → getRowLen operand ≠ 1 →
  isnullToExpression v er = Some (set_err (Some (ErrOperandColumns 1)) er).
Proof.
  intros Htop Hrow. unfold isnullToExpression, top in *. cbv zeta.
  rewrite Htop. cbn [mbind option_bind]. by rewrite decide_True.
Qed.

(** In [handleInSubquery] the error of the equality is read only on the
    correlated branch: over an uncorrelated subquery the result is the
    semi-join on whatever the failed construction returned. *)
Lemma handleInSubquery_uncorrelated (v : PatternInExpr)
    (er er1 er2 er3 : expressionRewriter) (lexpr rexpr : Expression)
    (subq : SubqueryExpr) (np : LogicalPlan) (outerSchema : Schema)
    (checkCondition : Expression) (err : option error) :
  Accept (in_Expr v) (set_asScalar true er) = Some er1 → er_err er1 = None →
  top er1 = Some lexpr →
  in_Sel v ≫= asSubqueryExpr = Some subq →
  buildSubquery subq er1 = Some (np, outerSchema, er2) → er_err er2 = None →
  getRowLen lexpr = len (GetSchema np) →
  subqueryRow np None er2 = Some (rexpr, er3) → er_err er3 = None →
  constructBinaryOpFunction lexpr rexpr ast.EQ = Some (checkCondition, err) →
  IsCorrelated np = false →
  let er4 :=
    set_p (buildSemiJoin (er_p er3) np (SplitCNFItems checkCondition)
             (asScalar er) (in_Not v)) er3 in
  handleInSubquery v er
  = if asScalar er
    then col ← last_column (er_p er4); set_top col er4
    else s ← slice_to (ctxStack er4) (len (ctxStack er4) - 1);
         Some (set_ctxStack s er4).
Proof.
  intros Hacc Herr1 Htop Hsub Hbuild Herr2 Hlen Hrow Herr3 Hcond Hnc er4.
  unfold handleInSubquery. cbv zeta. rewrite Hacc. cbn [mbind option_bind].
  rewrite Herr1, Htop. cbn [mbind option_bind]. rewrite Hsub, Hbuild.
  cbn [mbind option_bind]. rewrite Herr2.
  rewrite decide_False by (intros Hn; by apply Hn).
  rewrite Hrow. cbn [mbind option_bind]. rewrite Herr3, Hcond.
  cbn [mbind option_bind]. by rewrite Hnc.
Qed.

End RewriterProperties.

(** ** More on slices *)

Lemma len_app {A} (l k : list A) : len (l ++ k) = len l + len k.
Proof. unfold len. rewrite length_app. lia. Qed.

Lemma len_nonneg {A} (l : list A) : 0 ≤ len l.
Proof. unfold len. lia. Qed.

Lemma len_nil_inv {A} (l : list A) : len l = 0 → l = [].
Proof. unfold len. destruct l; simpl; [done|lia]. Qed.

Lemma index_app_r {A} (rest xs : list A) (k : Z) :
  0 ≤ k → index (rest ++ xs) (len rest + k) = index xs k.
Proof.
  intros Hk. unfold index, len. rewrite !decide_True by lia.
  rewrite lookup_app_r by lia. f_equal. lia.
Qed.

Lemma index_None {A} (l : list A) (i : Z) :
  index l i = None ↔ i < 0 ∨ len l ≤ i.
Proof.
  unfold index, len. case_decide.
  - rewrite lookup_ge_None. lia.
  - split; [lia|done].
Qed.

Lemma slice_to_app {A} (rest xs : list A) :
  slice_to (rest ++ xs) (len rest) = Some rest.
Proof.
  unfold slice_to. rewrite len_app.
  rewrite decide_True by (pose proof (len_nonneg rest);
                          pose proof (len_nonneg xs); lia).
  unfold len. by rewrite Nat2Z.id, take_app_length.
Qed.

Lemma slice_from_app {A} (rest xs : list A) :
  slice_from (rest ++ xs) (len rest) = Some xs.
Proof.
  unfold slice_from. rewrite len_app.
  rewrite decide_True by (pose proof (len_nonneg rest);
                          pose proof (len_nonneg xs); lia).
  unfold len. by rewrite Nat2Z.id, drop_app_length.
Qed.

Lemma slice_app {A} (rest xs : list A) :
  slice (rest ++ xs) (len rest) (len rest + len xs) = Some xs.
Proof.
  unfold slice. rewrite len_app.
  rewrite decide_True by (pose proof (len_nonneg rest);
                          pose proof (len_nonneg xs); lia).
  replace (len rest + len xs - len rest) with (len xs) by lia.
  unfold len. rewrite !Nat2Z.id, drop_app_length. by rewrite firstn_all.
Qed.

Lemma store_app_last {A} (rest : list A) (x y : A) :
  store (rest ++ [x]) (len (rest ++ [x]) - 1) y = Some (rest ++ [y]).
Proof.
  unfold store. rewrite len_app. change (len [x]) with 1.
  rewrite decide_True by (pose proof (len_nonneg rest); lia). f_equal.
  replace (Z.to_nat _) with (length rest + 0)%nat by (unfold len; lia).
  by rewrite insert_app_r.
Qed.

(** A stack is empty or has a top. *)
Lemma stack_cases {A} (l : list A) : l = [] ∨ ∃ rest x, l = rest ++ [x].
Proof.
  destruct l as [|a l] using rev_ind; [by left|]. right. by eexists _, _.
Qed.

(** ** More on the rewriter *)

(** Closes the case in which a function has returned with an error and has
    changed nothing else. *)
Ltac error_case :=
  simplify_eq; simpl in *; repeat split; intros; simplify_eq;
  try done; try congruence.

Section MoreProperties.
Context {AT : AstTypes} {PP : PlanPkg} {AA : AstAccept}
        {EP : ExpressionPkg} {VP : VariablePkg} {CP : EvaluatorPkg}.

(** X4. [rewrite] returns whenever the traversal does, in scalar and in
    non-scalar mode: with an error, a nil expression and a nil plan, and
    the error the traversal recorded if it recorded one; without error, the
    plan the traversal built and either nothing (non-scalar mode, empty
    stack) or the single entry of the stack, which has row length 1. The
    builder comes back as the traversal left it. *)
Theorem rewrite_outcome (expr : ExprNode) (p : LogicalPlan)
    (aggMapper : option (gmap Z Z)) (scalar : bool) (b : planBuilder)
    (er : expressionRewriter) :
  Accept expr {| ctxStack := []; er_p := p; er_schema := GetSchema p;
                 er_err := None; aggrMap := aggMapper; er_b := b;
                 asScalar := scalar |} = Some er →
  ∃ e p' err,
    rewrite expr p aggMapper scalar b = Some (e, p', err, er_b er)
    ∧ (∀ x, er_err er = Some x → err = Some x)
    ∧ match err with
      | Some _ => e = NilExpression ∧ p' = nilPlan
      | None =>
          er_err er = None ∧ p' = er_p er
          ∧ ((scalar = false ∧ ctxStack er = [] ∧ e = NilExpression)
             ∨ (ctxStack er = [e] ∧ getRowLen e = 1))
      end.
Proof.
  intros Hacc. unfold rewrite. rewrite Hacc. simpl.
  destruct (er_err er) as [x|] eqn:Herr.
  { eexists _, _, _. split; [done|]. split; [|done]. by intros ? [= <-]. }
  destruct (negb scalar && bool_decide (len (ctxStack er) = 0)) eqn:Hempty.
  { eexists _, _, _. split; [done|]. split; [done|].
    split; [done|]. split; [done|]. left.
    apply andb_prop in Hempty as [Hs Hl].
    apply negb_true_iff in Hs. apply bool_decide_eq_true in Hl.
    split; [done|]. split; [|done]. by apply len_nil_inv. }
  destruct (decide (len (ctxStack er) ≠ 1)) as [Hlen|Hlen].
  { eexists _, _, _. split; [done|]. by repeat split. }
  destruct (ctxStack er) as [|e0 [|e1 st]] eqn:Hs;
    try (unfold len in Hlen; simpl in Hlen; lia).
  simpl. destruct (decide (getRowLen e0 ≠ 1)) as [He|He].
  { eexists _, _, _. split; [done|]. by repeat split. }
  eexists _, _, _. split; [done|]. split; [done|].
  split; [done|]. split; [done|]. right. split; [done|].
  by apply dec_stable.
Qed.

(** What [buildSubquery] leaves alone. *)
Lemma buildSubquery_frame (subq : SubqueryExpr) (er er' : expressionRewriter)
    (np : LogicalPlan) (outerSchema : Schema) :
  buildSubquery subq er = Some (np, outerSchema, er') →
  ctxStack er' = ctxStack er ∧ er_p er' = er_p er
  ∧ er_schema er' = er_schema er ∧ asScalar er' = asScalar er
  ∧ (er_err er' = None → er_err er = None).
Proof.
  unfold buildSubquery.
  destruct (buildResultSetNode _ _) as [np0 b0].
  destruct (slice_to _ _) as [popped|]; simpl; [|done].
  destruct (b_err _) as [e0|] eqn:Hb; intros Heq; simplify_eq; simpl;
    by repeat split.
Qed.

(** X5. [buildSubquery] removes the last schema of the stack that the
    nested build hands back, whatever that stack is, and panics exactly
    when that stack is empty; it leaves the working stack, the plan, the
    schema and the scalar flag of the rewriter as they were. *)
Theorem buildSubquery_pops_last (subq : SubqueryExpr)
    (er : expressionRewriter) (np : LogicalPlan) (b' : planBuilder) :
  buildResultSetNode
    (set_outerSchemas (outerSchemas (er_b er) ++ [Schema_Clone (er_schema er)])
       (er_b er)) (Query subq) = (np, b') →
  (buildSubquery subq er = None ↔ outerSchemas b' = [])
  ∧ ∀ np' outerSchema er',
      buildSubquery subq er = Some (np', outerSchema, er') →
      (∃ last, outerSchemas b' = outerSchemas (er_b er') ++ [last])
      ∧ b_sessionVars (er_b er') = b_sessionVars b'
      ∧ ctxStack er' = ctxStack er ∧ er_p er' = er_p er
      ∧ er_schema er' = er_schema er ∧ asScalar er' = asScalar er.
Proof.
  intros Hbuild. unfold buildSubquery. rewrite Hbuild.
  destruct (stack_cases (outerSchemas b')) as [Hs|(rest & last & Hs)];
    rewrite Hs.
  - split; [done|]. intros np' os er'. by unfold slice_to.
  - assert (slice_to (rest ++ [last]) (len (rest ++ [last]) - 1) = Some rest)
      as ->.
    { rewrite len_app. change (len [last]) with 1.
      replace (len rest + 1 - 1) with (len rest) by lia.
      apply slice_to_app. }
    simpl. split.
    { split; [by destruct (b_err b')|]. by destruct rest. }
    intros np' os er'.
    destruct (b_err b'); intros Heq; simplify_eq; simpl;
      (split; [by exists last|done]).
Qed.

(** X6. The effect of [handleExistSubquery], started without error. When
    it records an error, the stack and the plan are as before. When it does
    not, the stack has one more entry, or is unchanged in the one case of a
    semi-join built as a pure filter ([asScalar] false); the plan is the one
    before (the subquery was evaluated on the spot), or a semi-join, or an
    apply without checker, with the plan before as outer side. *)
Theorem handleExistSubquery_effect (v : ExistsSubqueryExpr)
    (er er' : expressionRewriter) :
  er_err er = None →
  handleExistSubquery v er = Some er' →
  (∀ e, er_err er' = Some e →
     ctxStack er' = ctxStack er ∧ er_p er' = er_p er)
  ∧ (er_err er' = None →
     ((∃ x, ctxStack er' = ctxStack er ++ [x])
      ∨ (ctxStack er' = ctxStack er ∧ asScalar er = false))
     ∧ (er_p er' = er_p er
        ∨ (∃ inner conditions,
             er_p er'
             = buildSemiJoin (er_p er) inner conditions (asScalar er) false)
        ∨ (∃ np outerSchema,
             er_p er'
             = buildApply (er_p er) (buildExists np) outerSchema None)))
  ∧ er_schema er' = er_schema er ∧ asScalar er' = asScalar er.
Proof.
  intros Herr Hrun. unfold handleExistSubquery in Hrun.
  destruct (asSubqueryExpr _) as [subq|]; [|error_case].
  destruct (buildSubquery subq er) as [[[np os] er1]|] eqn:Hbuild;
    simpl in Hrun; [|done].
  apply buildSubquery_frame in Hbuild as (Hst & Hp & Hsch & Hsc & _).
  destruct (er_err er1) as [e1|] eqn:Herr1.
  { error_case. }
  destruct (IsCorrelated (buildExists np)).
  - assert (∀ er2, er_err er2 = None → ctxStack er2 = ctxStack er →
              er_schema er2 = er_schema er → asScalar er2 = asScalar er →
              (col ← last_column (er_p er2); Some (push col er2)) = Some er' →
              er_err er' = None ∧ (∃ x, ctxStack er' = ctxStack er ++ [x])
              ∧ er_p er' = er_p er2 ∧ er_schema er' = er_schema er
              ∧ asScalar er' = asScalar er) as Hpush.
    { intros er2 He2 Hs2 Hsch2 Hsc2 Hrun2.
      destruct (last_column (er_p er2)) as [col|]; simpl in Hrun2; [|done].
      simplify_eq. simpl. rewrite Hs2. split; [done|]. split; [by eexists|].
      done. }
    destruct (match GetChildByIndex _ _ with
              | Some _ => _ | None => _ end) as [semi|] eqn:Hsemi;
      simpl in Hrun; [|done].
    destruct semi as [[inner conditions]|].
    + destruct (asScalar er1) eqn:Hsc1; simpl in Hrun.
      * destruct (Hpush (set_p (buildSemiJoin (er_p er1) inner conditions
                                  true false) er1)
                    Herr1 Hst Hsch (eq_trans Hsc1 Hsc) Hrun)
          as (He & Hx & Hp' & Hsch' & Hsc').
        rewrite He. split; [done|]. split; [|done]. intros _.
        split; [by left|]. right. left. exists inner, conditions.
        rewrite Hp'. simpl. by rewrite Hp, <- Hsc.
      * simplify_eq. simpl. rewrite Herr1. split; [done|].
        split; [|split; congruence]. intros _.
        split; [right; split; congruence|].
        right. left. exists inner, conditions. by rewrite Hp, <- Hsc.
    + destruct (Hpush (set_p (buildApply (er_p er1) (buildExists np) os
                                None) er1)
                  Herr1 Hst Hsch Hsc Hrun)
        as (He & Hx & Hp' & Hsch' & Hsc').
      rewrite He. split; [done|]. split; [|done]. intros _.
      split; [by left|]. right. right. exists np, os.
      rewrite Hp'. simpl. by rewrite Hp.
  - destruct (PredicatePushDown _ _) as [[conds np1] e2].
    destruct e2 as [e2|]; [error_case|].
    destruct (PruneColumnsAndResolveIndices _ _) as [np2 e3].
    destruct e3 as [e3|]; [error_case|].
    destruct (convert2PhysicalPlan _) as [info e4].
    destruct e4 as [e4|]; [error_case|].
    destruct (EvalSubquery _ _) as [d e5].
    destruct e5 as [e5|]; [error_case|].
    destruct (index d 0) as [d0|]; simpl in Hrun; [|done].
    destruct (index (GetSchema np2) 0) as [col|]; simpl in Hrun; [|done].
    simplify_eq. simpl. split; [done|]. split; [|done]. intros _.
    rewrite Hst. split; [left; by eexists|by left].
Qed.

(** X7. The effect of [handleScalarSubquery], started without error: with
    an error recorded the stack is as before, without error it has exactly
    one more entry; the plan is the one before (the subquery was evaluated
    on the spot) or an apply without checker of the plan before to the
    max-one-row plan of the subquery. *)
Theorem handleScalarSubquery_effect (v : SubqueryExpr)
    (er er' : expressionRewriter) :
  er_err er = None →
  handleScalarSubquery v er = Some er' →
  (∀ e, er_err er' = Some e → ctxStack er' = ctxStack er)
  ∧ (er_err er' = None → ∃ x, ctxStack er' = ctxStack er ++ [x])
  ∧ (er_p er' = er_p er
     ∨ ∃ np outerSchema,
         er_p er'
         = buildApply (er_p er) (buildMaxOneRow np) outerSchema None)
  ∧ er_schema er' = er_schema er ∧ asScalar er' = asScalar er.
Proof.
  intros Herr Hrun. unfold handleScalarSubquery in Hrun.
  destruct (buildSubquery v er) as [[[np os] er1]|] eqn:Hbuild;
    simpl in Hrun; [|done].
  apply buildSubquery_frame in Hbuild as (Hst & Hp & Hsch & Hsc & _).
  assert (∀ er2 : expressionRewriter,
            Some er2 = Some er' →
            ctxStack er2 = ctxStack er
            ∨ (er_err er2 = None ∧ ∃ x, ctxStack er2 = ctxStack er ++ [x]) →
            (∀ e, er_err er2 = Some e → ctxStack er2 = ctxStack er) →
            er_p er2 = er_p er
            ∨ (∃ np outerSchema,
                 er_p er2
                 = buildApply (er_p er) (buildMaxOneRow np) outerSchema None) →
            er_schema er2 = er_schema er → asScalar er2 = asScalar er →
            (er_err er2 = None → ∃ x, ctxStack er2 = ctxStack er ++ [x]) →
            (∀ e, er_err er' = Some e → ctxStack er' = ctxStack er)
            ∧ (er_err er' = None → ∃ x, ctxStack er' = ctxStack er ++ [x])
            ∧ (er_p er' = er_p er
               ∨ ∃ np outerSchema,
                   er_p er'
                   = buildApply (er_p er) (buildMaxOneRow np) outerSchema
                       None)
            ∧ er_schema er' = er_schema er ∧ asScalar er' = asScalar er)
    as Hfin by (intros er2 [= <-]; tauto).
  assert (∀ (x : Expression) (er2 : expressionRewriter),
            er_err er2 = None → ctxStack er2 = ctxStack er →
            er_err (push x er2) = None
            ∧ ∃ y, ctxStack (push x er2) = ctxStack er ++ [y]) as Hpushed.
  { intros x er2 He Hs. split; [done|]. exists x. simpl. by rewrite Hs. }
  destruct (er_err er1) as [e1|] eqn:Herr1.
  { eapply Hfin; [exact Hrun|by left|done|by left|done..|].
    by rewrite Herr1. }
  destruct (IsCorrelated (buildMaxOneRow np)).
  - case_decide.
    + destruct (NewFunction _ _ _) as [expr [e2|]].
      * eapply Hfin; [exact Hrun|by left|done| |done..].
        right. exists np, os. simpl. by rewrite Hp.
      * eapply Hfin; [exact Hrun|right; by apply Hpushed| | |done..|].
        -- simpl. by rewrite Herr1.
        -- right. exists np, os. simpl. by rewrite Hp.
        -- intros _. by apply Hpushed.
    + destruct (last_column _) as [col|]; simpl in Hrun; [|done].
      eapply Hfin; [exact Hrun|right; by apply Hpushed| | |done..|].
      * simpl. by rewrite Herr1.
      * right. exists np, os. simpl. by rewrite Hp.
      * intros _. by apply Hpushed.
  - destruct (PredicatePushDown _ _) as [[conds np1] e2].
    destruct e2 as [e2|];
      [eapply Hfin; [exact Hrun|by left|done|by left|done..]|].
    destruct (PruneColumnsAndResolveIndices _ _) as [np2 e3].
    destruct e3 as [e3|];
      [eapply Hfin; [exact Hrun|by left|done|by left|done..]|].
    destruct (convert2PhysicalPlan _) as [info e4].
    destruct e4 as [e4|];
      [eapply Hfin; [exact Hrun|by left|done|by left|done..]|].
    destruct (EvalSubquery _ _) as [d e5].
    destruct e5 as [e5|];
      [eapply Hfin; [exact Hrun|by left|done|by left|done..]|].
    case_decide.
    + destruct (mapM _ _) as [newCols|]; simpl in Hrun; [|done].
      destruct (NewFunction _ _ _) as [expr [e6|]].
      * eapply Hfin; [exact Hrun|by left|done|by left|done..].
      * eapply Hfin; [exact Hrun|right; by apply Hpushed| |by left|done..|].
        -- by simpl.
        -- intros _. by apply Hpushed.
    + destruct (index d 0) as [d0|]; simpl in Hrun; [|done].
      destruct (index (GetSchema np2) 0) as [col|]; simpl in Hrun; [|done].
      eapply Hfin; [exact Hrun|right; by apply Hpushed| |by left|done..|].
      * by simpl.
      * intros _. by apply Hpushed.
Qed.

(** The constants of a row, one per datum, typed by the columns in order;
    [pre] is the part of the schema already passed. *)
Lemma mapM_row_constants (d : list Datum) (pre schema : list Column) :
  mapM (λ '(i, data),
          col ← index (pre ++ schema) i;
          Some (Constant data (ColRetType col)))
       (zip (seqZ (len pre) (len d)) d)
  = if decide (length d ≤ length schema)%nat
    then Some (zip_with (λ data col, Constant data (ColRetType col)) d schema)
    else None.
Proof.
  revert pre schema. induction d as [|x d IH]; intros pre schema.
  - by destruct (decide _); [|simpl in *; lia].
  - assert (len (x :: d) = Z.succ (len d)) as -> by (unfold len; simpl; lia).
    rewrite seqZ_cons by (pose proof (len_nonneg d); lia).
    rewrite Z.pred_succ. cbn [zip zip_with mapM].
    replace (len pre) with (len pre + 0) at 1 by lia.
    rewrite index_app_r by done.
    destruct schema as [|c schema].
    { destruct (decide _); [simpl in *; lia|done]. }
    change (index (c :: schema) 0) with (Some c). cbn [mbind option_bind].
    assert (Z.succ (len pre) = len (pre ++ [c])) as ->
      by (rewrite len_app; change (len [c]) with 1; lia).
    replace (pre ++ c :: schema) with ((pre ++ [c]) ++ schema)
      by (by rewrite <- app_assoc).
    rewrite IH.
    destruct (decide (length d ≤ length schema)%nat);
      destruct (decide (length (x :: d) ≤ length (c :: schema))%nat);
      simpl in *; try lia; done.
Qed.

(** X8. An uncorrelated scalar subquery of more than one column, evaluated
    on the spot: the entry pushed is a row of constants, one per datum of
    the evaluated row in order, each typed by the column of the pruned plan
    at the same position. A row with more datums than the plan has columns
    makes the pass panic. *)
Theorem handleScalarSubquery_uncorrelated_row (v : SubqueryExpr)
    (er er1 : expressionRewriter) (np np1 np2 : LogicalPlan)
    (outerSchema : Schema) (conds : list Expression) (info : PhysicalPlan)
    (d : list Datum) :
  buildSubquery v er = Some (np, outerSchema, er1) → er_err er1 = None →
  IsCorrelated (buildMaxOneRow np) = false →
  PredicatePushDown (buildMaxOneRow np) [] = (conds, np1, None) →
  PruneColumnsAndResolveIndices np1 (GetSchema np1) = (np2, None) →
  convert2PhysicalPlan np2 = (info, None) →
  EvalSubquery info (er_b er1) = (d, None) →
  1 < len (GetSchema np2) →
  ((length d ≤ length (GetSchema np2))%nat →
   checkFunction ast.RowFunc (len d) = None →
   handleScalarSubquery v er
   = Some (push (ScalarFunction ast.RowFunc
                   (zip_with (λ data col, Constant data (ColRetType col))
                      d (GetSchema np2)) None)
                (set_err None er1)))
  ∧ ((length (GetSchema np2) < length d)%nat →
     handleScalarSubquery v er = None).
Proof.
  intros Hbuild Herr1 Hnc Hpush Hprune Hconv Heval Hcols.
  unfold handleScalarSubquery. rewrite Hbuild. simpl.
  rewrite Herr1, Hnc, Hpush, Hprune, Hconv.
  rewrite Heval. rewrite decide_True by done.
  pose proof (mapM_row_constants d [] (GetSchema np2)) as Hm.
  change (len []) with 0 in Hm. cbn [app] in Hm. rewrite Hm.
  split.
  - intros Hlen Hreg. rewrite decide_True by done. simpl.
    unfold NewFunction.
    assert (len (zip_with (λ data col, Constant data (ColRetType col)) d
                   (GetSchema np2)) = len d) as ->
      by (unfold len; rewrite length_zip_with; lia).
    by rewrite Hreg.
  - intros Hlen. by rewrite decide_False by lia.
Qed.

Lemma top_app (er : expressionRewriter) (rest : list Expression)
    (x : Expression) :
  ctxStack er = rest ++ [x] → top er = Some x.
Proof. intros Hs. unfold top. rewrite Hs. apply index_app_last. Qed.

Lemma set_top_app (er : expressionRewriter) (rest : list Expression)
    (x y : Expression) :
  ctxStack er = rest ++ [x] →
  set_top y er = Some (set_ctxStack (rest ++ [y]) er).
Proof. intros Hs. unfold set_top. by rewrite Hs, store_app_last. Qed.

Lemma last_column_app (p : LogicalPlan) (schema : Schema) (c : Column) :
  GetSchema p = schema ++ [c] → last_column p = Some (ColumnExpr c).
Proof.
  intros Hs. unfold last_column. by rewrite Hs, index_app_last.
Qed.

Lemma subqueryRow_frame (np : LogicalPlan) (tp : option FieldType)
    (er er' : expressionRewriter) (rexpr : Expression) :
  subqueryRow np tp er = Some (rexpr, er') →
  ctxStack er' = ctxStack er ∧ er_p er' = er_p er ∧ er_b er' = er_b er
  ∧ asScalar er' = asScalar er ∧ er_schema er' = er_schema er.
Proof.
  unfold subqueryRow. case_decide.
  - destruct (index _ _); simpl; [|done]. by intros; simplify_eq.
  - destruct (NewFunction _ _ _) as [r [e|]]; by intros; simplify_eq.
Qed.

(** X9. IN over a correlated subquery, the operand [lexpr] being on top of
    the stack after its traversal and the equality of the operand with the
    subquery's row being [checkCondition]: the plan becomes an apply of the
    plan before to the subquery's plan whose checker has the equality and
    ANY semantics for IN, the negated equality and ALL semantics for NOT IN,
    and the operand is replaced on the stack by the last column of the
    apply. When the equality cannot be built, its error is recorded and
    stack and plan stay as they were. *)
Theorem handleInSubquery_correlated (v : PatternInExpr)
    (er er1 er2 er3 : expressionRewriter) (rest : list Expression)
    (lexpr rexpr : Expression) (subq : SubqueryExpr) (np : LogicalPlan)
    (outerSchema : Schema) (checkCondition : Expression)
    (err : option error) :
  Accept (in_Expr v) (set_asScalar true er) = Some er1 → er_err er1 = None →
  ctxStack er1 = rest ++ [lexpr] →
  in_Sel v ≫= asSubqueryExpr = Some subq →
  buildSubquery subq er1 = Some (np, outerSchema, er2) → er_err er2 = None →
  getRowLen lexpr = len (GetSchema np) →
  subqueryRow np None er2 = Some (rexpr, er3) → er_err er3 = None →
  constructBinaryOpFunction lexpr rexpr ast.EQ = Some (checkCondition, err) →
  IsCorrelated np = true →
  (∀ e, err = Some e →
     ∃ er', handleInSubquery v er = Some er'
       ∧ er_err er' = Some e ∧ ctxStack er' = ctxStack er1
       ∧ er_p er' = er_p er1)
  ∧ (err = None →
     let condition :=
       if in_Not v
       then (NewFunction ast.UnaryNot (Some (in_Type v)) [checkCondition]).1
       else checkCondition in
     let apply :=
       buildApply (er_p er1) np outerSchema
         (Some {| Condition := condition; All := in_Not v |}) in
     ∀ schema c, GetSchema apply = schema ++ [c] →
       ∃ er', handleInSubquery v er = Some er'
         ∧ er_err er' = None ∧ er_p er' = apply
         ∧ ctxStack er' = rest ++ [ColumnExpr c]).
Proof.
  intros Hacc Herr1 Hst1 Hsub Hbuild Herr2 Hlen Hrow Herr3 Hcond Hc.
  pose proof (top_app _ _ _ Hst1) as Htop.
  pose proof (buildSubquery_frame _ _ _ _ _ Hbuild) as (Hst2 & Hp2 & _).
  pose proof (subqueryRow_frame _ _ _ _ _ Hrow) as (Hst3 & Hp3 & _).
  assert (handleInSubquery v er
          = let checkCondition' :=
              if in_Not v
              then (NewFunction ast.UnaryNot (Some (in_Type v))
                      [checkCondition]).1
              else checkCondition in
            match err with
            | Some e => Some (set_err (Some (Trace e)) er3)
            | None =>
                let er4 :=
                  set_p (buildApply (er_p er3) np outerSchema
                           (Some {| Condition := checkCondition';
                                    All := in_Not v |})) er3 in
                col ← last_column (er_p er4); set_top col er4
            end) as Hrun.
  { unfold handleInSubquery. cbv zeta. rewrite Hacc.
    cbn [mbind option_bind]. rewrite Herr1, Htop. cbn [mbind option_bind].
    rewrite Hsub, Hbuild. cbn [mbind option_bind]. rewrite Herr2.
    rewrite decide_False by (intros Hn; by apply Hn).
    rewrite Hrow. cbn [mbind option_bind]. rewrite Herr3, Hcond.
    cbn [mbind option_bind]. by rewrite Hc. }
  rewrite Hrun. clear Hrun. split.
  - intros e ->. eexists. split; [done|]. simpl.
    split; [done|]. split; congruence.
  - intros -> condition apply schema c Hschema. cbv zeta.
    rewrite Hp3, Hp2. fold condition. fold apply.
    change (er_p (set_p apply er3)) with apply.
    rewrite (last_column_app _ _ _ Hschema). cbn [mbind option_bind].
    erewrite set_top_app by (simpl; rewrite Hst3, Hst2; exact Hst1).
    eexists. split; [done|]. by simpl.
Qed.

(** C1 (amended). A quantified comparison whose left operand [lexpr] or
    subquery has more than one column goes through the gate only for
    [= ANY] and [!= ALL]; for every other operator and quantifier the
    rewrite fails with "Operand should contain 1 column(s)", and stack and
    plan stay as they were. For [= ANY] and [!= ALL] the operand and the
    subquery must have the same number of columns (the error names the
    operand's row length otherwise), and the comparison is then built: the
    plan becomes an apply whose checker has the condition and the
    quantifier, and the operand is replaced by the last column of the
    apply. *)
Theorem handleCompareSubquery_multi_column (v : CompareSubqueryExpr)
    (er er1 er2 : expressionRewriter) (rest : list Expression)
    (lexpr : Expression) (subq : SubqueryExpr) (np : LogicalPlan)
    (outerSchema : Schema) :
  Accept (cmp_L v) er = Some er1 → er_err er1 = None →
  ctxStack er1 = rest ++ [lexpr] →
  asSubqueryExpr (cmp_R v) = Some subq →
  buildSubquery subq er1 = Some (np, outerSchema, er2) → er_err er2 = None →
  getRowLen lexpr ≠ 1 ∨ len (GetSchema np) ≠ 1 →
  let canMultiCol :=
    (cmp_All v = false ∧ cmp_Op v = opcode.EQ)
    ∨ (cmp_All v = true ∧ cmp_Op v = opcode.NE) in
  (¬ canMultiCol →
   ∃ er', handleCompareSubquery v er = Some er'
     ∧ er_err er' = Some (ErrOperandColumns 1)
     ∧ ctxStack er' = ctxStack er1 ∧ er_p er' = er_p er1)
  ∧ (canMultiCol →
     (getRowLen lexpr ≠ len (GetSchema np) →
      ∃ er', handleCompareSubquery v er = Some er'
        ∧ er_err er' = Some (ErrOperandColumns (getRowLen lexpr))
        ∧ ctxStack er' = ctxStack er1 ∧ er_p er' = er_p er1)
     ∧ (getRowLen lexpr = len (GetSchema np) →
        ∀ rexpr er3 checkCondition,
          subqueryRow np (Some (NewFieldType types.KindRow)) er2
          = Some (rexpr, er3) →
          er_err er3 = None →
          constructBinaryOpFunction lexpr rexpr (opcode.Ops (cmp_Op v))
          = Some (checkCondition, None) →
          let apply :=
            buildApply (er_p er1) np outerSchema
              (Some {| Condition := checkCondition; All := cmp_All v |}) in
          ∀ schema c, GetSchema apply = schema ++ [c] →
            ∃ er', handleCompareSubquery v er = Some er'
              ∧ er_err er' = None ∧ er_p er' = apply
              ∧ ctxStack er' = rest ++ [ColumnExpr c])).
Proof.
  intros Hacc Herr1 Hst1 Hsub Hbuild Herr2 Hmulti canMultiCol.
  pose proof (top_app _ _ _ Hst1) as Htop.
  pose proof (buildSubquery_frame _ _ _ _ _ Hbuild) as (Hst2 & Hp2 & _).
  assert ((bool_decide (getRowLen lexpr ≠ 1)
           || bool_decide (len (GetSchema np) ≠ 1)) = true) as Hgate.
  { destruct Hmulti; [by rewrite bool_decide_eq_true_2|].
    by rewrite (bool_decide_eq_true_2 (len _ ≠ 1)), orb_true_r. }
  assert (canMultiCol
          ↔ (negb (cmp_All v) && bool_decide (cmp_Op v = opcode.EQ)
             || cmp_All v && bool_decide (cmp_Op v = opcode.NE)) = true)
    as Hcan.
  { subst canMultiCol. destruct (cmp_All v); simpl;
      rewrite ?orb_false_r, bool_decide_eq_true.
    - split; [intros [[Hall _]|[_ Hop]]; [discriminate|exact Hop]|].
      intros Hop. right. by split.
    - split; [intros [[_ Hop]|[Hall _]]; [exact Hop|discriminate]|].
      intros Hop. left. by split. }
  unfold handleCompareSubquery. cbv zeta. rewrite Hacc.
  cbn [mbind option_bind]. rewrite Herr1, Htop. cbn [mbind option_bind].
  rewrite Hsub, Hbuild. cbn [mbind option_bind]. rewrite Herr2, Hgate.
  split.
  - intros Hno. apply not_iff_compat in Hcan. apply Hcan in Hno.
    apply not_true_is_false in Hno. rewrite Hno.
    eexists. split; [done|]. by simpl.
  - intros Hyes. pose proof Hyes as Hop. apply Hcan in Hyes. rewrite Hyes.
    cbn [negb andb]. split.
    + intros Hlen. rewrite decide_True by done.
      eexists. split; [done|]. by simpl.
    + intros Hlen rexpr er3 checkCondition Hrow Herr3 Hcond schema c
        Hschema.
      pose proof (subqueryRow_frame _ _ _ _ _ Hrow) as (Hst3 & Hp3 & _).
      rewrite decide_False by (intros Hn; by apply Hn).
      rewrite Hrow. cbn [mbind option_bind]. rewrite Herr3.
      assert (match cmp_Op v with
              | opcode.EQ | opcode.NE | opcode.NullEQ =>
                  constructBinaryOpFunction lexpr rexpr
                    (opcode.Ops (cmp_Op v))
              | _ =>
                  Some (NewFunction (opcode.Ops (cmp_Op v))
                          (Some (NewFieldType mysql.TypeTiny))
                          [lexpr; rexpr])
              end = Some (checkCondition, None)) as ->.
      { by destruct Hop as [[_ Heq]|[_ Heq]]; rewrite Heq in *. }
      cbn [mbind option_bind].
      change (er_p (set_err None er3)) with (er_p er3).
      rewrite Hp3, Hp2.
      set (apply := buildApply (er_p er1) np outerSchema _) in *.
      change (er_p (set_p apply (set_err None er3))) with apply.
      rewrite (last_column_app _ _ _ Hschema). cbn [mbind option_bind].
      erewrite set_top_app by (simpl; rewrite Hst3, Hst2; exact Hst1).
      eexists. split; [done|]. by simpl.
Qed.

(** X10. IN over an uncorrelated subquery whose equality with the operand
    was built: the plan becomes a semi-join (an anti-semi-join for NOT IN)
    of the plan before with the subquery's plan on the conjuncts of the
    equality. Asked as a filter ([asScalar] false on entry), the operand is
    removed and nothing is left on the stack in its place; asked as a
    scalar, the operand is replaced by the last column of the semi-join. *)
Theorem handleInSubquery_semi_join (v : PatternInExpr)
    (er er1 er2 er3 : expressionRewriter) (rest : list Expression)
    (lexpr rexpr : Expression) (subq : SubqueryExpr) (np : LogicalPlan)
    (outerSchema : Schema) (checkCondition : Expression) :
  Accept (in_Expr v) (set_asScalar true er) = Some er1 → er_err er1 = None →
  ctxStack er1 = rest ++ [lexpr] →
  in_Sel v ≫= asSubqueryExpr = Some subq →
  buildSubquery subq er1 = Some (np, outerSchema, er2) → er_err er2 = None →
  getRowLen lexpr = len (GetSchema np) →
  subqueryRow np None er2 = Some (rexpr, er3) → er_err er3 = None →
  constructBinaryOpFunction lexpr rexpr ast.EQ = Some (checkCondition, None) →
  IsCorrelated np = false →
  let join :=
    buildSemiJoin (er_p er1) np (SplitCNFItems checkCondition) (asScalar er)
      (in_Not v) in
  (asScalar er = false →
     ∃ er', handleInSubquery v er = Some er'
       ∧ er_err er' = None ∧ er_p er' = join ∧ ctxStack er' = rest)
  ∧ (asScalar er = true →
     ∀ schema c, GetSchema join = schema ++ [c] →
       ∃ er', handleInSubquery v er = Some er'
         ∧ er_err er' = None ∧ er_p er' = join
         ∧ ctxStack er' = rest ++ [ColumnExpr c]).
Proof.
  intros Hacc Herr1 Hst1 Hsub Hbuild Herr2 Hlen Hrow Herr3 Hcond Hnc join.
  pose proof (top_app _ _ _ Hst1) as Htop.
  pose proof (buildSubquery_frame _ _ _ _ _ Hbuild) as (Hst2 & Hp2 & _).
  pose proof (subqueryRow_frame _ _ _ _ _ Hrow) as (Hst3 & Hp3 & _).
  rewrite (handleInSubquery_uncorrelated v er er1 er2 er3 lexpr rexpr subq
             np outerSchema checkCondition None) by done.
  cbv zeta. rewrite Hp3, Hp2. fold join.
  assert (ctxStack (set_p join er3) = rest ++ [lexpr]) as Hst4
    by (simpl; congruence).
  split.
  - intros ->. rewrite Hst4.
    assert (slice_to (rest ++ [lexpr]) (len (rest ++ [lexpr]) - 1)
            = Some rest) as ->.
    { rewrite len_app. change (len [lexpr]) with 1.
      replace (len rest + 1 - 1) with (len rest) by lia.
      apply slice_to_app. }
    eexists. split; [done|]. by simpl.
  - intros -> schema c Hschema.
    change (er_p (set_p join er3)) with join.
    rewrite (last_column_app _ _ _ Hschema). cbn [mbind option_bind].
    erewrite set_top_app by exact Hst4.
    eexists. split; [done|]. by simpl.
Qed.

(** A stack of at least two entries has two on top. *)
Lemma stack2_cases {A} (l : list A) :
  2 ≤ len l → ∃ rest a b, l = rest ++ [a; b].
Proof.
  intros Hl.
  destruct (stack_cases l) as [->|(l1 & b & ->)]; [by unfold len in Hl|].
  rewrite len_app in Hl. change (len [b]) with 1 in Hl.
  destruct (stack_cases l1) as [->|(l2 & a & ->)];
    [unfold len in Hl; simpl in Hl; lia|].
  exists l2, a, b. by rewrite <- !app_assoc.
Qed.

(** X11. [unaryOpToExpression] panics exactly on an empty stack. Otherwise
    it keeps the depth of the stack and everything below the top, and
    leaves the plan and the builder alone; an operator other than [+], [-],
    [~] and [!] records the unknown-operator error and keeps the top as
    well. *)
Theorem unaryOpToExpression_stack (v : UnaryOperationExpr)
    (er : expressionRewriter) :
  (unaryOpToExpression v er = None ↔ ctxStack er = [])
  ∧ (∀ er', unaryOpToExpression v er = Some er' →
       (∃ rest x y, ctxStack er = rest ++ [x] ∧ ctxStack er' = rest ++ [y])
       ∧ er_p er' = er_p er ∧ er_b er' = er_b er)
  ∧ (unary_Op v ∉ [opcode.Plus; opcode.Minus; opcode.BitNeg; opcode.Not] →
     ctxStack er ≠ [] →
     ∃ er', unaryOpToExpression v er = Some er'
       ∧ er_err er' = Some ErrUnknownUnaryOp ∧ ctxStack er' = ctxStack er).
Proof.
  destruct (stack_cases (ctxStack er)) as [Hs|(rest & x & Hs)].
  { assert (unaryOpToExpression v er = None) as Hrun.
    { unfold unaryOpToExpression. by rewrite Hs. }
    rewrite Hrun, Hs. by repeat split. }
  assert (∃ er', unaryOpToExpression v er = Some er'
            ∧ (∃ y, ctxStack er' = rest ++ [y])
            ∧ er_p er' = er_p er ∧ er_b er' = er_b er
            ∧ (unary_Op v ∉ [opcode.Plus; opcode.Minus; opcode.BitNeg;
                              opcode.Not] →
               er_err er' = Some ErrUnknownUnaryOp
               ∧ ctxStack er' = ctxStack er)) as (er' & Hrun & Hy & Hp & Hb & Hu).
  { unfold unaryOpToExpression. cbv zeta. rewrite Hs, index_app_last.
    cbn [mbind option_bind].
    set (er0 := if decide (getRowLen x ≠ 1)
                then set_err (Some (ErrOperandColumns 1)) er else er).
    assert (ctxStack er0 = rest ++ [x] ∧ er_p er0 = er_p er
            ∧ er_b er0 = er_b er) as (Hs0 & Hp0 & Hb0)
      by (subst er0; by case_decide).
    clearbody er0.
    destruct (unary_Op v) eqn:Hop;
      try (eexists; split; [reflexivity|]; simpl; rewrite Hs0;
           split; [by eexists|]; split; [done|]; split; [done|];
           intros _; by split);
      try (rewrite Hs0, index_app_last; cbn [mbind option_bind];
           destruct (NewFunction _ _ _) as [f e];
           rewrite store_app_last; cbn [mbind option_bind];
           eexists; split; [reflexivity|]; simpl;
           split; [by eexists|]; split; [done|]; split; [done|];
           intros Hn; exfalso; apply Hn; set_solver).
    eexists; split; [reflexivity|]. rewrite Hs0.
    split; [by eexists|]. split; [done|]. split; [done|].
    intros Hn; exfalso; apply Hn; set_solver. }
  rewrite Hrun, Hs. split; [|split].
  - split; [done|]. by destruct rest.
  - intros er'' [= <-]. destruct Hy as [y Hy]. split; [|done].
    by exists rest, x, y.
  - intros Hn _. exists er'. rewrite <- Hs. by destruct (Hu Hn).
Qed.

(** X12. [betweenToExpression] panics when the stack has fewer than three
    entries. Over three operands of which the value is not nil it returns:
    with an error recorded and the stack as it was, or without error and
    the three operands replaced by one entry; the plan is never touched. *)
Theorem betweenToExpression_failure (v : BetweenExpr)
    (er : expressionRewriter) :
  (len (ctxStack er) < 3 → betweenToExpression v er = None)
  ∧ ∀ rest value low high,
      ctxStack er = rest ++ [value; low; high] → value ≠ NilExpression →
      ∃ er', betweenToExpression v er = Some er'
        ∧ er_p er' = er_p er
        ∧ ((is_Some (er_err er') ∧ ctxStack er' = ctxStack er)
           ∨ (er_err er' = None ∧ ∃ f, ctxStack er' = rest ++ [f])).
Proof.
  split.
  { intros Hlt. unfold betweenToExpression. cbv zeta.
    assert (index (ctxStack er) (len (ctxStack er) - 3) = None) as ->
      by (apply index_None; lia).
    by destruct (between_Not v). }
  intros rest a b c Hs Hvalue.
  assert (Expression_Clone a = Some (Clone a)) as Hclone by (by destruct a).
  destruct (stack3 rest a b c) as (Ha & Hb & Hc & Hsl).
  unfold betweenToExpression. cbv zeta. rewrite Hs, Ha, Hb, Hc.
  destruct (between_Not v); cbn [mbind option_bind];
    (destruct (NewFunction _ _ [a; b]) as [l [e1|]];
     [eexists; split; [reflexivity|]; simpl; split; [done|]; left;
      by split|]);
    rewrite Hclone; cbn [mbind option_bind];
    (destruct (NewFunction _ _ [Clone a; c]) as [r [e2|]];
     cbn [mbind option_bind];
     [eexists; split; [reflexivity|]; simpl; split; [done|]; left;
      by split|]);
    (destruct (NewFunction _ _ [l; r]) as [f [e3|]];
     [eexists; split; [reflexivity|]; simpl; split; [done|]; left;
      by split|]);
    cbn [ctxStack set_err]; rewrite Hs, Hsl; cbn [mbind option_bind];
    (eexists; split; [reflexivity|]; simpl; split; [done|]; right;
     split; [done|]; by eexists).
Qed.

(** The predicate built by [notToExpression] when the registry knows the
    functions it names. *)
Lemma notToExpression_ok (hasNot : bool) (op : string)
    (tp : option FieldType) (args : list Expression)
    (er : expressionRewriter) :
  checkFunction op (len args) = None →
  (hasNot = true → checkFunction ast.UnaryNot 1 = None) →
  notToExpression hasNot op tp args er
  = (if hasNot
     then ScalarFunction ast.UnaryNot [ScalarFunction op args tp] tp
     else ScalarFunction op args tp, er).
Proof.
  intros Hop Hnot. unfold notToExpression, NewFunction. rewrite Hop.
  destruct hasNot; simpl; [|done].
  change (len [_]) with 1. by rewrite Hnot.
Qed.

(** X13. [notToExpression], started without error, returns the predicate,
    wrapped in a logical NOT when asked, and leaves the error slot empty;
    or it returns nil and records the registry's refusal of the predicate
    or of the NOT. It never touches the stack or the plan. *)
Theorem notToExpression_outcome (hasNot : bool) (op : string)
    (tp : option FieldType) (args : list Expression)
    (er er' : expressionRewriter) (f : Expression) :
  er_err er = None →
  notToExpression hasNot op tp args er = (f, er') →
  ctxStack er' = ctxStack er ∧ er_p er' = er_p er ∧ er_b er' = er_b er
  ∧ ((er_err er' = None
      ∧ f = if hasNot
            then ScalarFunction ast.UnaryNot [ScalarFunction op args tp] tp
            else ScalarFunction op args tp)
     ∨ (f = NilExpression
        ∧ ∃ e, er_err er' = Some e
            ∧ (checkFunction op (len args) = Some e
               ∨ (hasNot = true ∧ checkFunction op (len args) = None
                  ∧ checkFunction ast.UnaryNot 1 = Some e)))).
Proof.
  intros Herr. unfold notToExpression, NewFunction.
  destruct (checkFunction op (len args)) as [e|] eqn:Hop.
  { intros [= <- <-]. repeat split; try done. right.
    split; [done|]. exists e. split; [done|by left]. }
  destruct hasNot; simpl.
  - change (len [_]) with 1.
    destruct (checkFunction ast.UnaryNot 1) as [e|] eqn:Hnot;
      intros [= <- <-]; repeat split; try done.
    + right. split; [done|]. exists e. split; [done|]. by right.
    + by left.
  - intros [= <- <-]. repeat split; try done. by left.
Qed.

Lemma slice_to_app_last {A} (rest : list A) (x : A) :
  slice_to (rest ++ [x]) (len (rest ++ [x]) - 1) = Some rest.
Proof.
  rewrite len_app. change (len [x]) with 1.
  replace (len rest + 1 - 1) with (len rest) by lia. apply slice_to_app.
Qed.

(** The two entries on top of a stack and the stack below them. *)
Lemma stack2 {A} (rest : list A) (a b : A) :
  let s := rest ++ [a; b] in
  index s (len s - 2) = Some a ∧ index s (len s - 1) = Some b
  ∧ slice_to s (len s - 2) = Some rest
  ∧ slice_from s (len s - 2) = Some [a; b].
Proof.
  intros s. subst s. rewrite len_app. change (len [a; b]) with 2.
  replace (len rest + 2 - 2) with (len rest + 0) by lia.
  replace (len rest + 2 - 1) with (len rest + 1) by lia.
  rewrite !index_app_r by lia. rewrite Z.add_0_r.
  by rewrite slice_to_app, slice_from_app.
Qed.

(** X14. IS [NOT] NULL over the operand on top of the stack: a row operand
    gives the arity error and leaves the stack; a scalar operand is
    replaced by the is-null predicate over it, wrapped in a logical NOT for
    IS NOT NULL. *)
Theorem isnullToExpression_effect (v : IsNullExpr) (er : expressionRewriter)
    (rest : list Expression) (x : Expression) :
  ctxStack er = rest ++ [x] →
  (getRowLen x ≠ 1 →
   isnullToExpression v er = Some (set_err (Some (ErrOperandColumns 1)) er))
  ∧ (getRowLen x = 1 →
     checkFunction ast.IsNull 1 = None →
     (isnull_Not v = true → checkFunction ast.UnaryNot 1 = None) →
     let tp := Some (isnull_Type v) in
     isnullToExpression v er
     = Some (set_ctxStack
               (rest ++ [if isnull_Not v
                         then ScalarFunction ast.UnaryNot
                                [ScalarFunction ast.IsNull [x] tp] tp
                         else ScalarFunction ast.IsNull [x] tp]) er)).
Proof.
  intros Hs. unfold isnullToExpression. cbv zeta.
  rewrite Hs, index_app_last. cbn [mbind option_bind]. split.
  - intros Hrow. by rewrite decide_True.
  - intros Hrow Hreg Hnot. rewrite decide_False by (intros Hn; by apply Hn).
    rewrite notToExpression_ok by done.
    by rewrite Hs, slice_to_app_last.
Qed.

(** X15. IS [NOT] TRUE and IS [NOT] FALSE over the operand on top of the
    stack, whatever its row length (this builder makes no arity test): the
    operand is replaced by the is-true predicate, or the is-false predicate
    when the node's [True] is 0, wrapped in a logical NOT when asked. *)
Theorem istrueToScalarFunc_effect (v : IsTruthExpr) (er : expressionRewriter)
    (rest : list Expression) (x : Expression) :
  let op := if decide (istruth_True v = 0) then ast.IsFalsity
            else ast.IsTruth in
  let tp := Some (istruth_Type v) in
  ctxStack er = rest ++ [x] →
  checkFunction op 1 = None →
  (istruth_Not v = true → checkFunction ast.UnaryNot 1 = None) →
  istrueToScalarFunc v er
  = Some (set_ctxStack
            (rest ++ [if istruth_Not v
                      then ScalarFunction ast.UnaryNot
                             [ScalarFunction op [x] tp] tp
                      else ScalarFunction op [x] tp]) er).
Proof.
  intros op tp Hs Hreg Hnot. unfold istrueToScalarFunc. cbv zeta.
  rewrite Hs, index_app_last. cbn [mbind option_bind]. fold op.
  rewrite notToExpression_ok by done.
  by rewrite Hs, slice_to_app_last.
Qed.

(** X16. IN in its list form, over the subject and the candidates on top
    of the stack: they are replaced by one IN predicate over the subject
    followed by the candidates, wrapped in a logical NOT for NOT IN. In its
    subquery form the builder does nothing: what the subquery handler left
    on the stack and in the plan stays. *)
Theorem inToExpression_effect (v : PatternInExpr) (er : expressionRewriter) :
  (is_Some (in_Sel v) → inToExpression v er = Some er)
  ∧ (in_Sel v = None →
     ∀ rest subject candidates,
       ctxStack er = rest ++ subject :: candidates →
       length candidates = length (in_List v) →
       checkFunction ast.In (len (subject :: candidates)) = None →
       (in_Not v = true → checkFunction ast.UnaryNot 1 = None) →
       let tp := Some (in_Type v) in
       let args := subject :: candidates in
       inToExpression v er
       = Some (set_ctxStack
                 (rest ++ [if in_Not v
                           then ScalarFunction ast.UnaryNot
                                  [ScalarFunction ast.In args tp] tp
                           else ScalarFunction ast.In args tp]) er)).
Proof.
  unfold inToExpression. split.
  - by intros [n ->].
  - intros Hsel rest subject candidates Hs Hlen Hreg Hnot. rewrite Hsel.
    cbv zeta. rewrite Hs.
    assert (len (rest ++ subject :: candidates) - len (in_List v) - 1
            = len rest) as ->.
    { rewrite len_app. unfold len. simpl. lia. }
    assert (len (rest ++ subject :: candidates)
            = len rest + len (subject :: candidates)) as -> by apply len_app.
    rewrite slice_app. cbn [mbind option_bind].
    rewrite notToExpression_ok by done.
    by rewrite Hs, slice_to_app.
Qed.

(** X17. LIKE over the expression and the pattern on top of the stack: the
    two are replaced by one LIKE predicate whose third argument is the
    escape character as an integer constant without type, wrapped in a
    logical NOT for NOT LIKE. *)
Theorem likeToScalarFunc_effect (v : PatternLikeExpr)
    (er : expressionRewriter) (rest : list Expression)
    (expr pattern : Expression) :
  ctxStack er = rest ++ [expr; pattern] →
  checkFunction ast.Like 3 = None →
  (like_Not v = true → checkFunction ast.UnaryNot 1 = None) →
  let tp := Some (like_Type v) in
  let args := [expr; pattern; Constant (DInt64 (like_Escape v)) None] in
  likeToScalarFunc v er
  = Some (set_ctxStack
            (rest ++ [if like_Not v
                      then ScalarFunction ast.UnaryNot
                             [ScalarFunction ast.Like args tp] tp
                      else ScalarFunction ast.Like args tp]) er).
Proof.
  intros Hs Hreg Hnot tp args.
  destruct (stack2 rest expr pattern) as (Ha & Hb & Hsl & _).
  unfold likeToScalarFunc. cbv zeta. rewrite Hs, Ha, Hb.
  cbn [mbind option_bind]. fold args.
  rewrite notToExpression_ok by done.
  by rewrite Hs, Hsl.
Qed.

(** X26. REGEXP over the expression and the pattern on top of the stack:
    the two are replaced by one REGEXP predicate, wrapped in a logical NOT
    for NOT REGEXP. When the registry refuses the predicate the error is
    recorded and the two operands are replaced all the same, by nil. *)
Theorem regexpToScalarFunc_effect (v : PatternRegexpExpr)
    (er : expressionRewriter) (rest : list Expression)
    (expr pattern : Expression) :
  ctxStack er = rest ++ [expr; pattern] →
  let tp := Some (regexp_Type v) in
  (checkFunction ast.Regexp 2 = None →
   (regexp_Not v = true → checkFunction ast.UnaryNot 1 = None) →
   regexpToScalarFunc v er
   = Some (set_ctxStack
             (rest ++ [if regexp_Not v
                       then ScalarFunction ast.UnaryNot
                              [ScalarFunction ast.Regexp [expr; pattern] tp]
                              tp
                       else ScalarFunction ast.Regexp [expr; pattern] tp])
             er))
  ∧ (∀ e, checkFunction ast.Regexp 2 = Some e →
       regexpToScalarFunc v er
       = Some (set_ctxStack (rest ++ [NilExpression])
                 (set_err (Some e) er))).
Proof.
  intros Hs tp.
  destruct (stack2 rest expr pattern) as (Ha & Hb & Hsl & _).
  split.
  - intros Hreg Hnot. unfold regexpToScalarFunc. cbv zeta.
    rewrite Hs, Ha, Hb. cbn [mbind option_bind].
    rewrite notToExpression_ok by done.
    by rewrite Hs, Hsl.
  - intros e Hreg. unfold regexpToScalarFunc. cbv zeta.
    rewrite Hs, Ha, Hb. cbn [mbind option_bind].
    unfold notToExpression, NewFunction.
    change (len [expr; pattern]) with 2. rewrite Hreg.
    cbn [ctxStack set_err]. by rewrite Hs, Hsl.
Qed.

(** X18. [binaryOpToExpression] panics exactly when the stack has fewer
    than two entries. Over the operands [l] and [r] on top of the stack, an
    equality operator ([=], [!=], [<=>]) goes through the row
    decomposition, and any other operator builds one node over the two
    operands as they are, rows included; an error is recorded with both
    operands left on the stack, and a success replaces them by the one
    result. *)
Theorem binaryOpToExpression_effect (v : BinaryOperationExpr)
    (er : expressionRewriter) :
  (binaryOpToExpression v er = None ↔ len (ctxStack er) < 2)
  ∧ ∀ rest l r, ctxStack er = rest ++ [l; r] →
      ∃ f err,
        (if decide (binary_Op v ∈ [opcode.EQ; opcode.NE; opcode.NullEQ])
         then constructBinaryOpFunction l r (opcode.Ops (binary_Op v))
              = Some (f, err)
         else NewFunction (opcode.Ops (binary_Op v)) (Some (binary_Type v))
                [l; r] = (f, err))
        ∧ binaryOpToExpression v er
          = Some (match err with
                  | Some e => set_err (Some e) er
                  | None => set_ctxStack (rest ++ [f]) (set_err None er)
                  end).
Proof.
  assert (∀ rest l r, ctxStack er = rest ++ [l; r] →
      ∃ f err,
        (if decide (binary_Op v ∈ [opcode.EQ; opcode.NE; opcode.NullEQ])
         then constructBinaryOpFunction l r (opcode.Ops (binary_Op v))
              = Some (f, err)
         else NewFunction (opcode.Ops (binary_Op v)) (Some (binary_Type v))
                [l; r] = (f, err))
        ∧ binaryOpToExpression v er
          = Some (match err with
                  | Some e => set_err (Some e) er
                  | None => set_ctxStack (rest ++ [f]) (set_err None er)
                  end)) as Hmain.
  { intros rest l r Hs.
    destruct (stack2 rest l r) as (Ha & Hb & Hsl & Hfrom).
    unfold binaryOpToExpression. cbv zeta. rewrite Hs, Ha, Hb, Hfrom.
    cbn [mbind option_bind].
    destruct (constructBinaryOpFunction_total l r
                (opcode.Ops (binary_Op v))) as [[f1 e1] Hc].
    destruct (NewFunction (opcode.Ops (binary_Op v)) (Some (binary_Type v))
                [l; r]) as [f2 e2] eqn:Hn.
    destruct (binary_Op v) eqn:Hop;
      try (exists f2, e2;
           rewrite decide_False
             by (intros Hin;
                 repeat (apply elem_of_cons in Hin as [Hin|Hin];
                         [discriminate|]);
                 by apply elem_of_nil in Hin);
           split; [done|]; cbn [mbind option_bind];
           destruct e2; [done|]; cbn [ctxStack set_err];
           by rewrite Hs, Hsl);
      (exists f1, e1;
       rewrite decide_True
         by first [by left|by (right; left)|by (right; right; left)];
       split; [done|]; rewrite Hc; cbn [mbind option_bind];
       destruct e1; [done|]; cbn [ctxStack set_err];
       by rewrite Hs, Hsl). }
  split; [|done].
  destruct (decide (len (ctxStack er) < 2)) as [Hlt|Hge].
  - split; [done|]. intros _. unfold binaryOpToExpression. cbv zeta.
    assert (index (ctxStack er) (len (ctxStack er) - 2) = None) as ->
      by (apply index_None; lia).
    assert (slice_from (ctxStack er) (len (ctxStack er) - 2) = None) as ->
      by (unfold slice_from; apply decide_False; lia).
    by destruct (binary_Op v).
  - destruct (stack2_cases (ctxStack er)) as (rest & l & r & Hs); [lia|].
    destruct (Hmain rest l r Hs) as (f & err & _ & ->). split; [done|lia].
Qed.

(** Reading the top entries of a stack one by one gives them back. *)
Lemma mapM_index_top {A} (rest xs : list A) :
  mapM (index (rest ++ xs)) (seqZ (len rest) (len xs)) = Some xs.
Proof.
  revert rest. induction xs as [|x xs IH]; intros rest; [done|].
  assert (len (x :: xs) = Z.succ (len xs)) as -> by (unfold len; simpl; lia).
  rewrite seqZ_cons by (pose proof (len_nonneg xs); lia).
  rewrite Z.pred_succ. cbn [mapM].
  replace (len rest) with (len rest + 0) at 1 by lia.
  rewrite index_app_r by done.
  change (index (x :: xs) 0) with (Some x). cbn [mbind option_bind].
  assert (Z.succ (len rest) = len (rest ++ [x])) as ->
    by (rewrite len_app; change (len [x]) with 1; lia).
  replace (rest ++ x :: xs) with ((rest ++ [x]) ++ xs)
    by (by rewrite <- app_assoc).
  by rewrite IH.
Qed.

(** X19. The row constructor over the [k] values on top of the stack, [k]
    being the number of values of the node: when the registry takes [row]
    with [k] arguments, the values are replaced by one entry whose row
    length is [k] and whose component at each index is the value that was
    at that place; when it does not, the error is recorded and the values
    are gone from the stack all the same. *)
Theorem rowToScalarFunc_round_trip (v : RowExpr) (er : expressionRewriter)
    (rest values : list Expression) :
  ctxStack er = rest ++ values →
  length values = length (row_Values v) →
  (checkFunction ast.RowFunc (len values) = None →
   ∃ row,
     rowToScalarFunc v er = Some (set_ctxStack (rest ++ [row]) er)
     ∧ getRowLen row = len values
     ∧ ∀ i, getRowArg row i = index values i)
  ∧ (∀ e, checkFunction ast.RowFunc (len values) = Some e →
       rowToScalarFunc v er
       = Some (set_err (Some e) (set_ctxStack rest er))).
Proof.
  intros Hs Hlen.
  assert (len (row_Values v) = len values) as Hl by (unfold len; lia).
  assert (rowToScalarFunc v er
          = let '(function, e) := NewFunction ast.RowFunc None values in
            if e is Some e
            then Some (set_err (Some (Trace e)) (set_ctxStack rest er))
            else Some (push function (set_ctxStack rest er))) as Hrun.
  { unfold rowToScalarFunc. cbv zeta. rewrite Hs, Hl, len_app.
    replace (len rest + len values - len values) with (len rest) by lia.
    by rewrite mapM_index_top, slice_to_app. }
  rewrite Hrun. unfold NewFunction. split.
  - intros ->. eexists. split; [done|]. by split.
  - by intros e ->.
Qed.

(** X20. A function call over its [k] arguments on top of the stack, [k]
    being the number of arguments of the node: the arguments are always
    replaced by exactly one entry, the function node when the registry
    takes the name with [k] arguments, and nil, with the error recorded,
    when it does not. With fewer than [k] entries the pass panics. *)
Theorem funcCallToExpression_effect (v : FuncCallExpr)
    (er : expressionRewriter) :
  (len (ctxStack er) < len (call_Args v) → funcCallToExpression v er = None)
  ∧ ∀ rest args,
      ctxStack er = rest ++ args → length args = length (call_Args v) →
      funcCallToExpression v er
      = Some (match checkFunction (call_FnName v) (len args) with
              | None =>
                  set_ctxStack
                    (rest ++ [ScalarFunction (call_FnName v) args
                                (Some (call_Type v))])
                    (set_err None er)
              | Some e =>
                  set_ctxStack (rest ++ [NilExpression])
                    (set_err (Some e) er)
              end).
Proof.
  split.
  - intros Hlt. unfold funcCallToExpression. cbv zeta.
    unfold slice_from. by rewrite decide_False by lia.
  - intros rest args Hs Hlen.
    assert (len (call_Args v) = len args) as Hl by (unfold len; lia).
    unfold funcCallToExpression. cbv zeta. rewrite Hs, Hl, len_app.
    replace (len rest + len args - len args) with (len rest) by lia.
    rewrite slice_from_app. cbn [mbind option_bind]. unfold NewFunction.
    destruct (checkFunction _ _); cbn [ctxStack set_err];
      by rewrite Hs, slice_to_app.
Qed.

(** X21. CAST over the operand on top of the stack: when the target type
    has a conversion routine the operand is replaced by the cast node over
    it, with the target type as return type, without asking the function
    registry; when it has none the error is recorded and the stack is left
    alone, even empty. *)
Theorem castToScalarFunc_effect (v : FuncCastExpr) (er : expressionRewriter) :
  (∀ e, CastFuncFactory (cast_Tp v) = Some e →
     castToScalarFunc v er = Some (set_err (Some e) er))
  ∧ (CastFuncFactory (cast_Tp v) = None →
     (ctxStack er = [] → castToScalarFunc v er = None)
     ∧ ∀ rest x, ctxStack er = rest ++ [x] →
         castToScalarFunc v er
         = Some (set_ctxStack
                   (rest ++ [ScalarFunction "cast" [x] (Some (cast_Tp v))])
                   er)).
Proof.
  unfold castToScalarFunc. split; [by intros e ->|].
  intros ->. split.
  - intros Hs. unfold top. by rewrite Hs.
  - intros rest x Hs. rewrite (top_app _ _ _ Hs). cbn [mbind option_bind].
    by apply set_top_app with x.
Qed.

Lemma len_when_entries (whens : list (Expression * Expression)) :
  len (when_entries whens) = 2 * len whens.
Proof.
  induction whens as [|[c r] whens IH]; [done|].
  change (when_entries ((c, r) :: whens)) with ([c; r] ++ when_entries whens).
  rewrite len_app, IH. unfold len. simpl. lia.
Qed.

Lemma every_second_pairs (a k d : Z) :
  0 ≤ k → 0 ≤ d ≤ 1 →
  every_second a (a + 2 * k + d - 1) = (λ j, a + 2 * j) <$> seqZ 0 k.
Proof.
  intros Hk Hd. unfold every_second. do 2 f_equal.
  symmetry. apply Z.div_unique with d; lia.
Qed.

(** The loop of [caseToExpression] over the WHEN clauses of a simple CASE:
    [pre] is the stack up to the first clause not yet read. *)
Lemma collect_when_clauses (value : Expression)
    (whens : list (Expression * Expression)) (pre post stack : list Expression) :
  stack = pre ++ when_entries whens ++ post →
  value ≠ NilExpression →
  checkFunction ast.EQ 2 = None →
  collect (λ i,
      clone ← Expression_Clone value;
      condition ← index stack i;
      let '(arg, e) :=
        NewFunction ast.EQ (Some (NewFieldType mysql.TypeTiny))
          [clone; condition] in
      if e is Some e then Some ([], Some (Trace e)) else
      result ← index stack (i + 1);
      Some ([arg; result], None))
    ((λ j, len pre + 2 * j) <$> seqZ 0 (len whens))
  = Some ((λ '(c, r),
             [ScalarFunction ast.EQ [Clone value; c]
                (Some (NewFieldType mysql.TypeTiny)); r]) <$> whens, None).
Proof.
  intros Hs Hvalue Hreg. revert pre Hs.
  assert (Expression_Clone value = Some (Clone value)) as ->
    by (by destruct value).
  cbn [mbind option_bind].
  induction whens as [|[c r] whens IH]; intros pre Hs; [done|].
  assert (len ((c, r) :: whens) = Z.succ (len whens)) as ->
    by (unfold len; simpl; lia).
  rewrite seqZ_cons by (pose proof (len_nonneg whens); lia).
  rewrite Z.pred_succ. cbn [fmap list_fmap collect].
  assert (index stack (len pre + 2 * 0) = Some c) as ->.
  { rewrite Hs. replace (len pre + 2 * 0) with (len pre + 0) by lia.
    by rewrite index_app_r. }
  assert (index stack (len pre + 2 * 0 + 1) = Some r) as Hr.
  { rewrite Hs. replace (len pre + 2 * 0 + 1) with (len pre + 1) by lia.
    by rewrite index_app_r. }
  cbn [mbind option_bind].
  assert (NewFunction ast.EQ (Some (NewFieldType mysql.TypeTiny))
            [Clone value; c]
          = (ScalarFunction ast.EQ [Clone value; c]
               (Some (NewFieldType mysql.TypeTiny)), None)) as ->.
  { unfold NewFunction. change (len [Clone value; c]) with 2.
    by rewrite Hreg. }
  rewrite Hr.
  cbn [mbind option_bind].
  assert ((λ j, len pre + 2 * j) <$> seqZ (Z.succ 0) (len whens)
          = (λ j, len (pre ++ [c; r]) + 2 * j) <$> seqZ 0 (len whens)) as Hix.
  { change (Z.succ 0) with (1 + 0). rewrite <- fmap_add_seqZ.
    rewrite <- list_fmap_compose. apply list_fmap_ext. intros _ j _. simpl.
    rewrite len_app. change (len [c; r]) with 2. lia. }
  unfold fmap in Hix. unfold fmap. rewrite Hix.
  unfold fmap in IH. rewrite IH; [done|].
  rewrite Hs. unfold when_entries. simpl. by rewrite <- !app_assoc.
Qed.

(** X22. CASE over its operands on top of the stack: the conditions and
    results of the WHEN clauses in order, the ELSE result after them when
    there is one, and below them the case value when there is one. A
    searched CASE (no value) becomes one case node over these entries as
    they are. A simple CASE over a value that is not nil becomes one case
    node in which every condition is replaced by the equality of a clone of
    the value with it, the results and the ELSE result being kept; the
    value is consumed too. *)
Theorem caseToExpression_effect (v : CaseExpr) (er : expressionRewriter)
    (rest : list Expression) (whens : list (Expression * Expression))
    (els : option Expression) :
  length whens = length (case_WhenClauses v) →
  (is_Some els ↔ is_Some (case_ElseClause v)) →
  let tp := Some (case_Type v) in
  (case_Value v = None →
   ctxStack er = rest ++ when_entries whens ++ option_list els →
   checkFunction ast.Case (len (when_entries whens ++ option_list els))
   = None →
   caseToExpression v er
   = Some (set_ctxStack
             (rest ++ [ScalarFunction ast.Case
                         (when_entries whens ++ option_list els) tp]) er))
  ∧ (∀ value,
       is_Some (case_Value v) → value ≠ NilExpression →
       ctxStack er = rest ++ [value] ++ when_entries whens ++ option_list els →
       checkFunction ast.EQ 2 = None →
       let args :=
         when_entries
           ((λ '(c, r),
               (ScalarFunction ast.EQ [Clone value; c]
                  (Some (NewFieldType mysql.TypeTiny)), r)) <$> whens)
         ++ option_list els in
       checkFunction ast.Case (len args) = None →
       caseToExpression v er
       = Some (set_ctxStack (rest ++ [ScalarFunction ast.Case args tp]) er)).
Proof.
  intros Hlen Hels tp.
  assert (len (case_WhenClauses v) = len whens) as Hl by (unfold len; lia).
  pose proof (len_nonneg whens) as Hk.
  set (argsLen := if case_ElseClause v is Some _
                  then 2 * len (case_WhenClauses v) + 1
                  else 2 * len (case_WhenClauses v)).
  assert (argsLen = len (when_entries whens ++ option_list els)
          ∧ argsLen = 2 * len whens + len (option_list els)
          ∧ 0 ≤ len (option_list els) ≤ 1) as (Hargs & Hargs2 & Hd).
  { rewrite len_app, len_when_entries. subst argsLen. rewrite Hl.
    assert (len (option_list els) = if els is Some _ then 1 else 0) as ->
      by (by destruct els).
    destruct els as [e|], (case_ElseClause v) as [n|]; try lia.
    - destruct Hels as [Hels _]. by destruct Hels.
    - destruct Hels as [_ Hels]. by destruct Hels. }
  split.
  - intros Hval Hs Hreg. unfold caseToExpression. cbv zeta.
    fold argsLen. rewrite Hval, Hs, len_app, Hargs.
    replace (len rest + len (when_entries whens ++ option_list els)
             - len (when_entries whens ++ option_list els))
      with (len rest) by lia.
    rewrite slice_app. cbn [mbind option_bind]. unfold NewFunction.
    rewrite Hreg, Z.add_simpl_r. by rewrite slice_to_app.
  - intros value [n Hval] Hvalue Hs Hreg args Hcase.
    unfold caseToExpression. cbv zeta. fold argsLen. rewrite Hval.
    set (stack := ctxStack er) in *.
    assert (len stack = len rest + 1 + argsLen) as Hstk.
    { subst stack. rewrite Hs, !len_app, Hargs, len_app.
      change (len [value]) with 1. lia. }
    assert (index stack (len stack - argsLen - 1) = Some value) as ->.
    { replace (len stack - argsLen - 1) with (len rest + 0) by lia.
      subst stack. rewrite Hs. by rewrite index_app_r. }
    cbn [mbind option_bind].
    assert (every_second (len stack - argsLen) (len stack - 1)
            = (λ j, len (rest ++ [value]) + 2 * j) <$> seqZ 0 (len whens))
      as ->.
    { rewrite <- (every_second_pairs _ (len whens) (len (option_list els)))
        by done.
      rewrite len_app. change (len [value]) with 1. f_equal; lia. }
    rewrite (collect_when_clauses value whens (rest ++ [value])
               (option_list els) stack)
      by (first [done|subst stack; by rewrite Hs, <- !app_assoc]).
    cbn [mbind option_bind].
    assert (concat
              ((λ '(c, r),
                  [ScalarFunction ast.EQ [Clone value; c]
                     (Some (NewFieldType mysql.TypeTiny)); r]) <$> whens)
            = when_entries
                ((λ '(c, r),
                    (ScalarFunction ast.EQ [Clone value; c]
                       (Some (NewFieldType mysql.TypeTiny)), r)) <$> whens))
      as Hconcat.
    { unfold when_entries. rewrite <- list_fmap_compose. f_equal.
      apply list_fmap_ext. by intros _ [c r] _. }
    assert ((if case_ElseClause v is Some _
             then elseResult ← index stack (len stack - 1);
                  Some (concat
                          ((λ '(c, r),
                              [ScalarFunction ast.EQ [Clone value; c]
                                 (Some (NewFieldType mysql.TypeTiny)); r])
                             <$> whens) ++ [elseResult])
             else Some (concat
                          ((λ '(c, r),
                              [ScalarFunction ast.EQ [Clone value; c]
                                 (Some (NewFieldType mysql.TypeTiny)); r])
                             <$> whens)))
            = Some args) as ->.
    { subst args. rewrite Hconcat.
      destruct els as [e|], (case_ElseClause v) as [n'|]; simpl.
      - assert (index stack (len stack - 1) = Some e) as ->; [|done].
        subst stack. rewrite Hs. change (option_list (Some e)) with [e].
        replace (rest ++ [value] ++ when_entries whens ++ [e])
          with ((rest ++ [value] ++ when_entries whens) ++ [e])
          by (by rewrite <- !app_assoc).
        apply index_app_last.
      - destruct Hels as [Hels _]. by destruct Hels.
      - destruct Hels as [_ Hels]. by destruct Hels.
      - by rewrite app_nil_r. }
    cbn [mbind option_bind]. unfold NewFunction. rewrite Hcase.
    replace (len stack - (argsLen + 1)) with (len rest) by lia.
    subst stack. by rewrite Hs, slice_to_app.
Qed.

(** X23. Reading a system variable never panics and never removes an
    entry. An unknown name records the unknown-system-variable error with
    the lower-case name and leaves the stack. Otherwise the read records an
    error of the variable store and leaves the stack, or pushes one constant
    of string type, a snapshot of the value. The session is touched only
    when a session-scope read finds no session value for a variable with
    global scope, and is then what storing the global value gave. *)
Theorem rewriteVariable_system_read (v : VariableExpr)
    (er : expressionRewriter) :
  let name := ToLower (var_Name v) in
  var_IsSystem v = true →
  ∃ er',
    rewriteVariable v er = Some er'
    ∧ er_p er' = er_p er
    ∧ outerSchemas (er_b er') = outerSchemas (er_b er)
    ∧ (SysVars name = None →
       er' = set_err (Some (ErrUnknownSystemVar name)) er)
    ∧ ((ctxStack er' = ctxStack er ∧ is_Some (er_err er'))
       ∨ (er_err er' = er_err er
          ∧ ∃ d, ctxStack er'
                 = ctxStack er
                   ++ [Constant d (Some (NewFieldType mysql.TypeString))]))
    ∧ (er_b er' ≠ er_b er →
       var_IsGlobal v = false
       ∧ IsNull (GetSystemVar (b_sessionVars (er_b er)) name) = true
       ∧ ∃ sysVar globalVal,
           SysVars name = Some sysVar
           ∧ Z.land (Scope sysVar) variable.ScopeGlobal ≠ 0
           ∧ GetGlobalSysVar (er_b er) name = (globalVal, None)
           ∧ b_sessionVars (er_b er')
             = (SetSystemVar (b_sessionVars (er_b er)) name
                  (DString globalVal)).1).
Proof.
  intros name Hsys. unfold rewriteVariable. cbv zeta. rewrite Hsys.
  cbn [negb]. fold name.
  assert (∀ d, ∃ er',
            Some (push (datumToConstant d mysql.TypeString) er) = Some er'
            ∧ er_p er' = er_p er
            ∧ outerSchemas (er_b er') = outerSchemas (er_b er)
            ∧ ((ctxStack er' = ctxStack er ∧ is_Some (er_err er'))
               ∨ (er_err er' = er_err er
                  ∧ ∃ d', ctxStack er'
                          = ctxStack er
                            ++ [Constant d'
                                  (Some (NewFieldType mysql.TypeString))]))
            ∧ er_b er' = er_b er) as Hpush.
  { intros d. eexists. split; [done|]. simpl. repeat split.
    right. split; [done|]. by exists d. }
  assert (∀ e, ∃ er',
            Some (set_err (Some e) er) = Some er'
            ∧ er_p er' = er_p er
            ∧ outerSchemas (er_b er') = outerSchemas (er_b er)
            ∧ ((ctxStack er' = ctxStack er ∧ is_Some (er_err er'))
               ∨ (er_err er' = er_err er
                  ∧ ∃ d', ctxStack er'
                          = ctxStack er
                            ++ [Constant d'
                                  (Some (NewFieldType mysql.TypeString))]))
            ∧ er_b er' = er_b er) as Hfail.
  { intros e. eexists. split; [done|]. simpl. repeat split.
    left. split; [done|]. by eexists. }
  destruct (SysVars name) as [sysVar|] eqn:Hvar.
  2: { destruct (Hfail (ErrUnknownSystemVar name))
         as (er' & Hrun & Hp & Ho & Hst & Hb).
       exists er'. repeat split; try done. by injection Hrun as <-. }
  case_decide as Hscope.
  { destruct (Hpush (DString (SysVar_Value sysVar)))
      as (er' & Hrun & Hp & Ho & Hst & Hb).
    exists er'. by repeat split. }
  destruct (var_IsGlobal v) eqn:Hglobal.
  { destruct (GetGlobalSysVar (er_b er) name) as [value [e|]].
    - destruct (Hfail e) as (er' & Hrun & Hp & Ho & Hst & Hb).
      exists er'. by repeat split.
    - destruct (Hpush (DString value)) as (er' & Hrun & Hp & Ho & Hst & Hb).
      exists er'. by repeat split. }
  destruct (IsNull (GetSystemVar _ _)) eqn:Hnull.
  2: { destruct (Hpush (GetSystemVar (b_sessionVars (er_b er)) name))
         as (er' & Hrun & Hp & Ho & Hst & Hb).
       exists er'. by repeat split. }
  case_decide as Hflag.
  { destruct (Hpush (DString (SysVar_Value sysVar)))
      as (er' & Hrun & Hp & Ho & Hst & Hb).
    exists er'. by repeat split. }
  destruct (GetGlobalSysVar (er_b er) name) as [globalVal [e|]] eqn:Hget.
  { destruct (Hfail e) as (er' & Hrun & Hp & Ho & Hst & Hb).
    exists er'. by repeat split. }
  destruct (SetSystemVar _ _ _) as [sessionVars [e|]] eqn:Hset.
  - eexists. split; [done|]. simpl.
    split; [done|]. split; [done|]. split; [done|]. split.
    + left. split; [done|]. by eexists.
    + intros _. split; [done|]. split; [done|]. exists sysVar, globalVal.
      by rewrite Hset.
  - eexists. split; [done|]. simpl.
    split; [done|]. split; [done|]. split; [done|]. split.
    + right. split; [done|]. by eexists.
    + intros _. split; [done|]. split; [done|]. exists sysVar, globalVal.
      by rewrite Hset.
Qed.

(** X24. Assigning a user variable over the value on top of the stack:
    the value is replaced by the set-variable node over the lower-case name
    (a string constant) and the value, typed like the value. On an empty
    stack, or over a nil value, the pass panics. *)
Theorem rewriteVariable_user_assignment (v : VariableExpr)
    (er : expressionRewriter) :
  let name := ToLower (var_Name v) in
  var_IsSystem v = false → is_Some (var_Value v) →
  (ctxStack er = [] → rewriteVariable v er = None)
  ∧ ∀ rest x,
      ctxStack er = rest ++ [x] →
      (x = NilExpression → rewriteVariable v er = None)
      ∧ ∀ tp, GetType x = Some tp →
          checkFunction ast.SetVar 2 = None →
          rewriteVariable v er
          = Some (set_err None
                    (set_ctxStack
                       (rest ++ [ScalarFunction ast.SetVar
                                   [Constant (DString name)
                                      (Some (NewFieldType mysql.TypeString));
                                    x] tp]) er)).
Proof.
  intros name Hsys [n Hval]. unfold rewriteVariable. cbv zeta.
  rewrite Hsys, Hval. cbn [negb]. fold name. split.
  - intros Hs. by rewrite Hs.
  - intros rest x Hs. rewrite Hs, index_app_last. cbn [mbind option_bind].
    split; [by intros ->|].
    intros tp -> Hreg. cbn [mbind option_bind]. unfold NewFunction.
    change (len [_; _]) with 2. rewrite Hreg.
    by rewrite store_app_last.
Qed.

(** X25. What [toColumn] does to the rewriter: it pushes exactly one
    column and leaves the error slot, or it records an error and leaves the
    stack; it never touches the plan or the builder. An error of the lookup
    in the current schema ends the resolution at once, and an error of the
    lookup in an outer schema ends it before any scope further out is
    searched, whether or not such a scope has the column. *)
Theorem toColumn_outcome (v : ColumnName) (er : expressionRewriter) :
  er_p (toColumn v er) = er_p er ∧ er_b (toColumn v er) = er_b er
  ∧ ((er_err (toColumn v er) = er_err er
      ∧ ∃ c, ctxStack (toColumn v er) = ctxStack er ++ [ColumnExpr c]
             ∨ ctxStack (toColumn v er) = ctxStack er ++ [CorrelatedColumn c])
     ∨ (ctxStack (toColumn v er) = ctxStack er
        ∧ is_Some (er_err (toColumn v er))))
  ∧ (∀ column e, FindColumn (er_schema er) v = (column, Some e) →
       toColumn v er = set_err (Some e) er)
  ∧ (FindColumn (er_schema er) v = (None, None) →
     ∀ outer inner s e,
       outerSchemas (er_b er) = outer ++ s :: inner →
       Forall (λ s', FindColumn s' v = (None, None)) inner →
       FindColumn s v = (None, Some e) →
       toColumn v er = set_err (Some e) er).
Proof.
  assert (∀ outers,
            let er' := searchOuterSchemas v outers er in
            er_p er' = er_p er ∧ er_b er' = er_b er
            ∧ ((er_err er' = er_err er
                ∧ ∃ c, ctxStack er' = ctxStack er ++ [ColumnExpr c]
                       ∨ ctxStack er' = ctxStack er ++ [CorrelatedColumn c])
               ∨ (ctxStack er' = ctxStack er ∧ is_Some (er_err er'))))
    as Hsearch.
  { induction outers as [|s outers IH]; simpl.
    - repeat split. right. split; [done|]. by eexists.
    - destruct (FindColumn s v) as [[c|] [e|]]; simpl; try done.
      + repeat split. left. split; [done|]. exists c. by right.
      + repeat split. left. split; [done|]. exists c. by right.
      + repeat split. right. split; [done|]. by eexists. }
  split; [|split; [|split; [|split]]].
  - unfold toColumn.
    destruct (FindColumn (er_schema er) v) as [[c|] [e|]]; try done.
    apply Hsearch.
  - unfold toColumn.
    destruct (FindColumn (er_schema er) v) as [[c|] [e|]]; try done.
    apply Hsearch.
  - unfold toColumn.
    destruct (FindColumn (er_schema er) v) as [[c|] [e|]]; simpl.
    + right. split; [done|]. by eexists.
    + left. split; [done|]. exists c. by left.
    + right. split; [done|]. by eexists.
    + apply Hsearch.
  - intros column e Hfind. unfold toColumn. by rewrite Hfind.
  - intros Hfind outer inner s e Hstack Hinner Hs. unfold toColumn.
    rewrite Hfind, Hstack, reverse_app, reverse_cons, <- app_assoc. simpl.
    apply Forall_reverse in Hinner. revert Hinner.
    generalize (reverse inner). intros l Hl.
    induction Hl as [|s' l Hs' _ IH]; simpl.
    + by rewrite Hs.
    + by rewrite Hs'.
Qed.

End MoreProperties.

(** * The pass on concrete inputs *)

Section Examples.
#[local] Existing Instance Toy.expressionPkg.
#[local] Existing Instance Toy.variablePkg.
#[local] Existing Instance Toy.astTypes.
#[local] Existing Instance Toy.planPkg.
#[local] Existing Instance Toy.astAccept.

(** Against C1 as the spec words it (rows accepted for [= ALL] and
    [!= ANY] only): on [(1, 2) = ALL (SELECT c, d FROM t2)] the rewrite
    fails with "Operand should contain 1 column(s)", and so it does on
    [(1, 2) != ANY (...)]; the two combinations that go through with a row
    are [= ANY] and [!= ALL]. *)
Theorem handleCompareSubquery_row_operand :
  er_err <$> handleCompareSubquery (Toy.row_compare opcode.EQ true)
               (Toy.rewriter [] true [])
  = Some (Some (ErrOperandColumns 1))
  ∧ er_err <$> handleCompareSubquery (Toy.row_compare opcode.NE false)
                 (Toy.rewriter [] true [])
    = Some (Some (ErrOperandColumns 1))
  ∧ er_err <$> handleCompareSubquery (Toy.row_compare opcode.EQ false)
                 (Toy.rewriter [] true [])
    = Some None
  ∧ er_err <$> handleCompareSubquery (Toy.row_compare opcode.NE true)
                 (Toy.rewriter [] true [])
    = Some None.
Proof. repeat split; vm_compute; reflexivity. Qed.

(** C5. On [(1, (2, 3)) IN (SELECT c, d FROM t2)] the equality of the
    operand with the subquery's row cannot be built (its second component
    compares a row with a column), and the uncorrelated branch goes on: no
    error is recorded and the plan is a semi-join whose only condition is
    nil. The same operand over a correlated subquery records the error. *)
Theorem handleInSubquery_uncorrelated_drops_error :
  constructBinaryOpFunction
    (Toy.row [Toy.int 1; Toy.row [Toy.int 2; Toy.int 3]])
    (Toy.row (ColumnExpr <$> Toy.t2)) ast.EQ
  = Some (NilExpression, Some (ErrOperandColumns 2))
  ∧ (∃ er',
       handleInSubquery (Toy.nested_row_in Toy.select_c_d)
         (Toy.rewriter [] true []) = Some er'
       ∧ er_err er' = None
       ∧ er_p er'
         = Toy.SemiJoin (Toy.Table Toy.t) (Toy.Table Toy.t2) [NilExpression]
             true false)
  ∧ er_err <$> handleInSubquery
                 (Toy.nested_row_in Toy.select_c_d_where_c_eq_a)
                 (Toy.rewriter [] true [])
    = Some (Some (ErrOperandColumns 2)).
Proof.
  split; [vm_compute; reflexivity|]. split; [|vm_compute; reflexivity].
  eexists. split; [vm_compute; reflexivity|]. split; reflexivity.
Qed.

(** C6. On [-(1, 2)], [~(1, 2)] and [!(1, 2)] no error is left: the arity
    error is recorded and then overwritten by the outcome of building the
    function node, which replaces the row on the stack. [+(1, 2)] keeps the
    arity error, and on a scalar the four operators do what they should. *)
Theorem unaryOpToExpression_row_operand :
  let r := Toy.row [Toy.int 1; Toy.int 2] in
  Forall (λ '(op, name),
            unaryOpToExpression (Toy.unary op r) (Toy.rewriter [r] true [])
            = Some (Toy.rewriter [ScalarFunction name [r] (Some Toy.tiny)]
                      true []))
         [(opcode.Minus, ast.UnaryMinus); (opcode.BitNeg, ast.BitNeg);
          (opcode.Not, ast.UnaryNot)]
  ∧ er_err <$> unaryOpToExpression (Toy.unary opcode.Plus r)
                 (Toy.rewriter [r] true [])
    = Some (Some (ErrOperandColumns 1))
  ∧ unaryOpToExpression (Toy.unary opcode.Plus (Toy.int 1))
      (Toy.rewriter [Toy.int 1] true [])
    = Some (Toy.rewriter [Toy.int 1] true [])
  ∧ unaryOpToExpression (Toy.unary opcode.Minus (Toy.int 1))
      (Toy.rewriter [Toy.int 1] true [])
    = Some (Toy.rewriter
              [ScalarFunction ast.UnaryMinus [Toy.int 1] (Some Toy.tiny)]
              true []).
Proof.
  intros r. split; [|repeat split; vm_compute; reflexivity].
  repeat (constructor; [vm_compute; reflexivity|]). constructor.
Qed.

(** [(1, 2) < ANY (SELECT c, d FROM t2)] stops at the gate, with the
    operand left on the stack and the plan untouched;
    [(1, 2) = ANY (SELECT c, d FROM t2)] becomes an apply whose checker
    compares the components pairwise, with ANY semantics, and the operand is
    replaced by the last column of the apply. *)
Lemma handleCompareSubquery_multi_column_witness :
  (∃ er',
     handleCompareSubquery (Toy.row_compare opcode.LT false)
       (Toy.rewriter [] true []) = Some er'
     ∧ er_err er' = Some (ErrOperandColumns 1)
     ∧ ctxStack er' = [Toy.row [Toy.int 1; Toy.int 2]]
     ∧ er_p er' = Toy.Table Toy.t)
  ∧ (∃ er',
       handleCompareSubquery (Toy.row_compare opcode.EQ false)
         (Toy.rewriter [] true []) = Some er'
       ∧ er_err er' = None
       ∧ er_p er'
         = Toy.Apply (Toy.Table Toy.t) (Toy.Table Toy.t2) Toy.t
             (Some {| Condition :=
                        ScalarFunction ast.AndAnd
                          [ScalarFunction ast.EQ
                             [Toy.int 1; ColumnExpr (Toy.col "t2" "c" 0)]
                             (Some Toy.tiny);
                           ScalarFunction ast.EQ
                             [Toy.int 2; ColumnExpr (Toy.col "t2" "d" 1)]
                             (Some Toy.tiny)] (Some Toy.tiny);
                      All := false |})
       ∧ ctxStack er' = [] ++ [ColumnExpr (Toy.boolColumn "exists_row")]).
Proof.
  assert (getRowLen (Toy.row [Toy.int 1; Toy.int 2]) ≠ 1
          ∨ len (GetSchema (Toy.Table Toy.t2)) ≠ 1) as Hmulti
    by (left; vm_compute; discriminate).
  split.
  - pose proof (handleCompareSubquery_multi_column (AA := Toy.astAccept)
                  (EP := Toy.expressionPkg)
                  (Toy.row_compare opcode.LT false)
                  (Toy.rewriter [] true []) _ _ []
                  (Toy.row [Toy.int 1; Toy.int 2]) _ _ _
                  eq_refl eq_refl eq_refl eq_refl eq_refl eq_refl Hmulti)
      as Hgate.
    cbv zeta in Hgate. destruct Hgate as [Hrefused _].
    apply Hrefused. intros [[_ Hop]|[Hall _]]; discriminate.
  - pose proof (handleCompareSubquery_multi_column (AA := Toy.astAccept)
                  (EP := Toy.expressionPkg)
                  (Toy.row_compare opcode.EQ false)
                  (Toy.rewriter [] true []) _ _ []
                  (Toy.row [Toy.int 1; Toy.int 2]) _ _ _
                  eq_refl eq_refl eq_refl eq_refl eq_refl eq_refl Hmulti)
      as Hgate.
    cbv zeta in Hgate. destruct Hgate as [_ Haccepted].
    destruct (Haccepted (or_introl (conj eq_refl eq_refl))) as [_ Hbuilt].
    exact (Hbuilt eq_refl _ _ _ eq_refl eq_refl eq_refl
             (Toy.t ++ Toy.t2) (Toy.boolColumn "exists_row") eq_refl).
Defined.


(** [1] requested as scalar is returned; [(1, 2)] requested as scalar is
    refused with the arity error. *)
Lemma rewrite_scalar_final_stack_witness :
  rewrite (Toy.Operand (Toy.int 1)) (Toy.Table Toy.t) None true
    (Toy.builder [])
  = Some (Toy.int 1, Toy.Table Toy.t, None, Toy.builder [])
  ∧ rewrite (Toy.Operand (Toy.row [Toy.int 1; Toy.int 2])) (Toy.Table Toy.t)
      None true (Toy.builder [])
    = Some (NilExpression, Toy.Nil, Some (ErrOperandColumns 1),
            Toy.builder []).
Proof.
  split.
  - destruct (rewrite_scalar_final_stack (AA := Toy.astAccept)
                (Toy.Operand (Toy.int 1))
                (Toy.Table Toy.t) None (Toy.builder [])
                (Toy.rewriter [Toy.int 1] true []) eq_refl eq_refl)
      as (_ & _ & Hok & _).
    exact (Hok (Toy.int 1) eq_refl eq_refl).
  - destruct (rewrite_scalar_final_stack (AA := Toy.astAccept)
                (Toy.Operand (Toy.row [Toy.int 1; Toy.int 2]))
                (Toy.Table Toy.t) None (Toy.builder [])
                (Toy.rewriter [Toy.row [Toy.int 1; Toy.int 2]] true [])
                eq_refl eq_refl)
      as (_ & Harity & _ & _).
    apply (Harity (Toy.row [Toy.int 1; Toy.int 2]) eq_refl).
    vm_compute. discriminate.
Defined.

(** [EXISTS (SELECT c, d FROM t2 WHERE t2.c = t.a)] is a semi-join of [t]
    with [t2] on the filter; with the filter under another operator it is an
    apply. *)
Lemma handleExistSubquery_correlated_witness :
  er_p <$> handleExistSubquery
             (Toy.exists_subquery Toy.select_c_d_where_c_eq_a)
             (Toy.rewriter [] true [])
  = Some (Toy.SemiJoin (Toy.Table Toy.t) (Toy.Table Toy.t2)
            [ScalarFunction ast.EQ
               [ColumnExpr (Toy.col "t2" "c" 0);
                CorrelatedColumn (Toy.col "t" "a" 0)] (Some Toy.tiny)]
            true false)
  ∧ er_p <$> handleExistSubquery
               (Toy.exists_subquery Toy.select_correlated_no_selection)
               (Toy.rewriter [] true [])
    = Some (Toy.Apply (Toy.Table Toy.t)
              (Toy.Exists (Toy.compiled Toy.select_correlated_no_selection))
              Toy.t None).
Proof.
  split.
  - destruct (handleExistSubquery_correlated (AA := Toy.astAccept)
                (Toy.exists_subquery Toy.select_c_d_where_c_eq_a)
                (Toy.rewriter [] true []) (Toy.rewriter [] true [])
                (Toy.subquery Toy.select_c_d_where_c_eq_a)
                (Toy.compiled Toy.select_c_d_where_c_eq_a)
                (Toy.compiled Toy.select_c_d_where_c_eq_a) Toy.t
                eq_refl eq_refl eq_refl eq_refl eq_refl) as [Hsemi _].
    rewrite (Hsemi _ (Toy.Table Toy.t2) eq_refl eq_refl eq_refl).
    reflexivity.
  - destruct (handleExistSubquery_correlated (AA := Toy.astAccept)
                (Toy.exists_subquery Toy.select_correlated_no_selection)
                (Toy.rewriter [] true []) (Toy.rewriter [] true [])
                (Toy.subquery Toy.select_correlated_no_selection)
                (Toy.compiled Toy.select_correlated_no_selection)
                (Toy.compiled Toy.select_correlated_no_selection) Toy.t
                eq_refl eq_refl eq_refl eq_refl eq_refl) as [_ Happly].
    rewrite (Happly (or_introl eq_refl)). reflexivity.
Defined.

(** [1 NOT BETWEEN 0 AND 5] is [1 < 0 OR 1 > 5] and [1 BETWEEN 0 AND 5] is
    [1 >= 0 AND 1 <= 5], each in place of the three operands. *)
Lemma betweenToExpression_expansion_witness :
  betweenToExpression (Toy.between true)
    (Toy.rewriter [Toy.int 7; Toy.int 1; Toy.int 0; Toy.int 5] true [])
  = Some (Toy.rewriter
            [Toy.int 7;
             ScalarFunction ast.OrOr
               [ScalarFunction ast.LT [Toy.int 1; Toy.int 0] (Some Toy.tiny);
                ScalarFunction ast.GT [Toy.int 1; Toy.int 5] (Some Toy.tiny)]
               (Some Toy.tiny)] true [])
  ∧ betweenToExpression (Toy.between false)
      (Toy.rewriter [Toy.int 7; Toy.int 1; Toy.int 0; Toy.int 5] true [])
    = Some (Toy.rewriter
              [Toy.int 7;
               ScalarFunction ast.AndAnd
                 [ScalarFunction ast.GE [Toy.int 1; Toy.int 0]
                    (Some Toy.tiny);
                  ScalarFunction ast.LE [Toy.int 1; Toy.int 5]
                    (Some Toy.tiny)]
                 (Some Toy.tiny)] true []).
Proof.
  assert (Toy.int 1 ≠ NilExpression) as Hvalue by discriminate.
  split.
  - apply (betweenToExpression_expansion (PP := Toy.planPkg) (EP := Toy.expressionPkg)
             (Toy.between true)
             (Toy.rewriter [Toy.int 7; Toy.int 1; Toy.int 0; Toy.int 5]
                true [])
             [Toy.int 7] (Toy.int 1) (Toy.int 0) (Toy.int 5)
             eq_refl Hvalue eq_refl eq_refl eq_refl).
  - apply (betweenToExpression_expansion (PP := Toy.planPkg) (EP := Toy.expressionPkg)
             (Toy.between false)
             (Toy.rewriter [Toy.int 7; Toy.int 1; Toy.int 0; Toy.int 5]
                true [])
             [Toy.int 7] (Toy.int 1) (Toy.int 0) (Toy.int 5)
             eq_refl Hvalue eq_refl eq_refl eq_refl).
Defined.

(** Inside a subquery over [t2(c, d)] with [t(a, b)] and then [u(a)]
    pushed as enclosing scopes: [c] is a column of the current schema, [a]
    is the correlated column of [u], the innermost scope, [b] is the
    correlated column of [t], and [z] is unknown: the stack stays empty and
    the error is recorded. *)
Lemma toColumn_resolution_witness :
  let er := Toy.subquery_rewriter [Toy.t; Toy.u] in
  (ctxStack (toColumn (Toy.column_name "c") er)
   = [ColumnExpr (Toy.col "t2" "c" 0)]
   ∧ er_err (toColumn (Toy.column_name "c") er) = None)
  ∧ (ctxStack (toColumn (Toy.column_name "a") er)
     = [CorrelatedColumn (Toy.col "u" "a" 0)]
     ∧ er_err (toColumn (Toy.column_name "a") er) = None)
  ∧ (ctxStack (toColumn (Toy.column_name "b") er)
     = [CorrelatedColumn (Toy.col "t" "b" 1)]
     ∧ er_err (toColumn (Toy.column_name "b") er) = None)
  ∧ (ctxStack (toColumn (Toy.column_name "z") er) = []
     ∧ er_err (toColumn (Toy.column_name "z") er)
       = Some (ErrUnknownColumn "" "" "z")).
Proof.
  intros er. split; [|split; [|split]].
  - destruct (toColumn_resolution (PP := Toy.planPkg)
                (EP := Toy.expressionPkg) (Toy.column_name "c") er)
      as [Hcurrent _].
    rewrite (Hcurrent (Toy.col "t2" "c" 0) eq_refl). split; reflexivity.
  - destruct (toColumn_resolution (PP := Toy.planPkg)
                (EP := Toy.expressionPkg) (Toy.column_name "a") er)
      as [_ Houter].
    destruct (Houter eq_refl) as [Hfound _].
    rewrite (Hfound [Toy.t] [] Toy.u (Toy.col "u" "a" 0) None eq_refl);
      [split; reflexivity|constructor|reflexivity].
  - destruct (toColumn_resolution (PP := Toy.planPkg)
                (EP := Toy.expressionPkg) (Toy.column_name "b") er)
      as [_ Houter].
    destruct (Houter eq_refl) as [Hfound _].
    rewrite (Hfound [] [Toy.u] Toy.t (Toy.col "t" "b" 1) None eq_refl);
      [split; reflexivity|repeat constructor|reflexivity].
  - destruct (toColumn_resolution (PP := Toy.planPkg)
                (EP := Toy.expressionPkg) (Toy.column_name "z") er)
      as [_ Houter].
    destruct (Houter eq_refl) as [_ Hunknown].
    rewrite Hunknown; [split; reflexivity|]. repeat constructor.
Defined.

(** [buildSubquery] under one enclosing scope [u]: the stack is [u] again
    afterwards, when the subquery compiles and when it does not. *)
Lemma buildSubquery_restores_outerSchemas_witness :
  (∃ er', buildSubquery (Toy.subquery Toy.select_c_d)
            (Toy.rewriter [] true [Toy.u])
          = Some (Toy.Table Toy.t2, Toy.t, er')
          ∧ outerSchemas (er_b er') = [Toy.u] ∧ er_err er' = None)
  ∧ (∃ er', buildSubquery (Toy.subquery Toy.select_unknown_table)
              (Toy.rewriter [] true [Toy.u])
            = Some (Toy.Nil, [], er')
            ∧ outerSchemas (er_b er') = [Toy.u]
            ∧ er_err er' = Some (ErrExternal "table doesn't exist")).
Proof.
  split.
  - destruct (buildSubquery_restores_outerSchemas (PP := Toy.planPkg)
                (Toy.subquery Toy.select_c_d) (Toy.rewriter [] true [Toy.u])
                _ _ eq_refl eq_refl)
      as (_ & np' & outerSchema & er' & Hrun & Hstack & Hok & _).
    destruct (Hok eq_refl) as (-> & -> & Herr).
    exists er'. split; [exact Hrun|]. split; [exact Hstack|exact Herr].
  - destruct (buildSubquery_restores_outerSchemas (PP := Toy.planPkg)
                (Toy.subquery Toy.select_unknown_table)
                (Toy.rewriter [] true [Toy.u]) _ _ eq_refl eq_refl)
      as (_ & np' & outerSchema & er' & Hrun & Hstack & _ & Hfail).
    destruct (Hfail _ eq_refl) as (-> & -> & Herr).
    exists er'. split; [exact Hrun|]. split; [exact Hstack|exact Herr].
Defined.

(** [@X] reads the user variable [x], which the session has: a
    get-variable node. [@y] was never assigned: a NULL constant. *)
Lemma rewriteVariable_user_read_witness :
  rewriteVariable (Toy.user_variable "X") (Toy.rewriter [] true [])
  = Some (Toy.rewriter
            [ScalarFunction ast.GetVar
               [Constant (DString "x") (Some (NewFieldType mysql.TypeString))]
               (Some (NewFieldType mysql.TypeString))] true [])
  ∧ rewriteVariable (Toy.user_variable "y") (Toy.rewriter [] true [])
    = Some (Toy.rewriter
              [Constant DNull (Some (NewFieldType mysql.TypeNull))] true []).
Proof.
  split.
  - destruct (rewriteVariable_user_read (PP := Toy.planPkg)
                (EP := Toy.expressionPkg) (VP := Toy.variablePkg)
                (Toy.user_variable "X") (Toy.rewriter [] true [])
                eq_refl eq_refl) as (_ & Hget & _).
    apply Hget; [exists "1"|]; reflexivity.
  - destruct (rewriteVariable_user_read (PP := Toy.planPkg)
                (EP := Toy.expressionPkg) (VP := Toy.variablePkg)
                (Toy.user_variable "y") (Toy.rewriter [] true [])
                eq_refl eq_refl) as (Hnull & _).
    apply Hnull. reflexivity.
Defined.

End Examples.

(** * More concrete inputs

    The same small instance with the larger registry and the conversion
    routines. *)

Section MoreExamples.
#[local] Existing Instance Toy.fullPkg.
#[local] Existing Instance Toy.variablePkg.
#[local] Existing Instance Toy.astTypes.
#[local] Existing Instance Toy.planPkg.
#[local] Existing Instance Toy.astAccept.
#[local] Existing Instance Toy.evaluatorPkg.

(** [(1, (2, 3)) = (4, 5)] is refused with an arity error and a nil
    expression; [(1, 2) = (3, 4)] is built, and the two rows have the same
    length. *)
Lemma constructBinaryOpFunction_outcome_witness :
  (∃ n, constructBinaryOpFunction
          (Toy.row [Toy.int 1; Toy.row [Toy.int 2; Toy.int 3]])
          (Toy.row [Toy.int 4; Toy.int 5]) ast.EQ
        = Some (NilExpression, Some (ErrOperandColumns n)))
  ∧ getRowLen (Toy.row [Toy.int 1; Toy.int 2])
    = getRowLen (Toy.row [Toy.int 3; Toy.int 4]).
Proof.
  split.
  - destruct (constructBinaryOpFunction_outcome
                (Toy.row [Toy.int 1; Toy.row [Toy.int 2; Toy.int 3]])
                (Toy.row [Toy.int 4; Toy.int 5]) ast.EQ)
      as (f & [e|] & Hrun & Herr & _); [|vm_compute in Hrun; discriminate].
    destruct (Herr e eq_refl) as [-> [Hreg|[n ->]]];
      [vm_compute in Hreg; discriminate|].
    exists n. exact Hrun.
  - destruct (constructBinaryOpFunction_outcome
                (Toy.row [Toy.int 1; Toy.int 2])
                (Toy.row [Toy.int 3; Toy.int 4]) ast.EQ)
      as (f & [e|] & Hrun & _ & Hok); [vm_compute in Hrun; discriminate|].
    exact (Hok eq_refl).
Defined.

(** [(1, 2, 3) = (4, 5, 6)] is [1 = 4 AND (2 = 5 AND 3 = 6)]. *)
Lemma constructBinaryOpFunction_flat_rows_witness :
  constructBinaryOpFunction (Toy.row [Toy.int 1; Toy.int 2; Toy.int 3])
    (Toy.row [Toy.int 4; Toy.int 5; Toy.int 6]) ast.EQ
  = Some (ScalarFunction ast.AndAnd
            [ScalarFunction ast.EQ [Toy.int 1; Toy.int 4] (Some Toy.tiny);
             ScalarFunction ast.AndAnd
               [ScalarFunction ast.EQ [Toy.int 2; Toy.int 5] (Some Toy.tiny);
                ScalarFunction ast.EQ [Toy.int 3; Toy.int 6] (Some Toy.tiny)]
               (Some Toy.tiny)] (Some Toy.tiny), None).
Proof.
  refine (constructBinaryOpFunction_flat_rows
            [Toy.int 1; Toy.int 2; Toy.int 3]
            [Toy.int 4; Toy.int 5; Toy.int 6] None None ast.EQ
            eq_refl _ _ _ eq_refl);
    [simpl; lia|repeat constructor|repeat constructor].
Defined.

(** The row [(1, 2)] has a component at index 1 and none at index 2. *)
Lemma getRowArg_in_range_witness :
  is_Some (getRowArg (Toy.row [Toy.int 1; Toy.int 2]) 1)
  ∧ ¬ is_Some (getRowArg (Toy.row [Toy.int 1; Toy.int 2]) 2).
Proof.
  split.
  - apply getRowArg_in_range; [simpl; unfold len; simpl; lia|].
    simpl; unfold len; simpl; lia.
  - intros Hsome. apply getRowArg_in_range in Hsome.
    + simpl in Hsome; unfold len in Hsome; simpl in Hsome; lia.
    + simpl; unfold len; simpl; lia.
Defined.

(** A subquery alone, rewritten as a filter, gives no expression and the
    plan; the row [(1, 2)] requested as a scalar is refused, with a nil
    plan. *)
Lemma rewrite_outcome_witness :
  (∃ e, rewrite (Toy.Subquery Toy.select_c_d) (Toy.Table Toy.t) None false
          (Toy.builder [])
        = Some (e, Toy.Table Toy.t, None, Toy.builder []))
  ∧ (∃ e p' x, rewrite (Toy.Operand (Toy.row [Toy.int 1; Toy.int 2]))
                 (Toy.Table Toy.t) None true (Toy.builder [])
               = Some (e, p', Some x, Toy.builder [])
               ∧ e = NilExpression ∧ p' = Toy.Nil).
Proof.
  split.
  - destruct (rewrite_outcome (AA := Toy.astAccept)
                (Toy.Subquery Toy.select_c_d) (Toy.Table Toy.t) None false
                (Toy.builder []) (Toy.rewriter [] false []) eq_refl)
      as (e & p' & [x|] & Hrun & _ & Hres);
      [vm_compute in Hrun; discriminate|].
    destruct Hres as (_ & -> & _). exists e. exact Hrun.
  - destruct (rewrite_outcome (AA := Toy.astAccept)
                (Toy.Operand (Toy.row [Toy.int 1; Toy.int 2]))
                (Toy.Table Toy.t) None true (Toy.builder [])
                (Toy.rewriter [Toy.row [Toy.int 1; Toy.int 2]] true [])
                eq_refl)
      as (e & p' & [x|] & Hrun & _ & Hres);
      [|vm_compute in Hrun; discriminate].
    exists e, p', x. split; [exact Hrun|exact Hres].
Defined.

(** [buildSubquery] under the enclosing scope [u]: the nested build hands
    back [u; t], and the schema popped is the last one. *)
Lemma buildSubquery_pops_last_witness :
  ∃ np outerSchema er',
    buildSubquery (Toy.subquery Toy.select_c_d)
      (Toy.rewriter [Toy.int 7] true [Toy.u])
    = Some (np, outerSchema, er')
    ∧ (∃ last, [Toy.u; Toy.t] = outerSchemas (er_b er') ++ [last])
    ∧ ctxStack er' = [Toy.int 7].
Proof.
  destruct (buildSubquery_pops_last (PP := Toy.planPkg)
              (Toy.subquery Toy.select_c_d)
              (Toy.rewriter [Toy.int 7] true [Toy.u]) _ _ eq_refl)
    as [_ Hpop].
  eexists _, _, _. split; [reflexivity|].
  destruct (Hpop _ _ _ eq_refl) as (Hlast & _ & Hstack & _).
  split; [exact Hlast|exact Hstack].
Defined.

(** [EXISTS (SELECT c, d FROM t2 WHERE t2.c = t.a)], asked as a scalar:
    one entry more on the stack. *)
Lemma handleExistSubquery_effect_witness :
  ∃ er',
    handleExistSubquery (Toy.exists_subquery Toy.select_c_d_where_c_eq_a)
      (Toy.rewriter [Toy.int 7] true []) = Some er'
    ∧ ∃ x, ctxStack er' = [Toy.int 7] ++ [x].
Proof.
  eexists. split; [vm_compute; reflexivity|].
  destruct (handleExistSubquery_effect (AA := Toy.astAccept)
              (Toy.exists_subquery Toy.select_c_d_where_c_eq_a)
              (Toy.rewriter [Toy.int 7] true []) _ eq_refl eq_refl)
    as (_ & Hok & _).
  destruct (Hok eq_refl) as [[Hpush|[_ Hfilter]] _];
    [exact Hpush|discriminate Hfilter].
Defined.

(** [(SELECT c, d FROM t2 WHERE t2.c = t.a)] as a scalar subquery: one
    entry more on the stack, and the schema of the rewriter is kept. *)
Lemma handleScalarSubquery_effect_witness :
  ∃ er',
    handleScalarSubquery (Toy.subquery Toy.select_c_d_where_c_eq_a)
      (Toy.rewriter [Toy.int 7] true []) = Some er'
    ∧ (∃ x, ctxStack er' = [Toy.int 7] ++ [x])
    ∧ er_schema er' = Toy.t.
Proof.
  eexists. split; [vm_compute; reflexivity|].
  destruct (handleScalarSubquery_effect (PP := Toy.planPkg)
              (EP := Toy.fullPkg)
              (Toy.subquery Toy.select_c_d_where_c_eq_a)
              (Toy.rewriter [Toy.int 7] true []) _ eq_refl eq_refl)
    as (_ & Hok & _ & Hschema & _).
  split; [exact (Hok eq_refl)|exact Hschema].
Defined.

(** [(SELECT c, d FROM t2)] evaluates to the row [(1, 1)], which is pushed
    as a row of two constants. *)
Lemma handleScalarSubquery_uncorrelated_row_witness :
  handleScalarSubquery (Toy.subquery Toy.select_c_d)
    (Toy.rewriter [] true [])
  = Some (Toy.rewriter [Toy.row [Toy.int 1; Toy.int 1]] true []).
Proof.
  destruct (handleScalarSubquery_uncorrelated_row (PP := Toy.planPkg)
              (EP := Toy.fullPkg)
              (Toy.subquery Toy.select_c_d) (Toy.rewriter [] true [])
              _ _ _ _ _ _ _ _
              eq_refl eq_refl eq_refl eq_refl eq_refl eq_refl eq_refl
              eq_refl) as [Hok _].
  apply Hok; [simpl; lia|reflexivity].
Defined.

(** [(1, 2) NOT IN (SELECT c, d FROM t2 WHERE t2.c = t.a)]: an apply
    whose checker has the negated equality and ALL semantics, and the
    operand replaced by the last column of the apply. *)
Lemma handleInSubquery_correlated_witness :
  ∃ er',
    handleInSubquery (Toy.row_in true Toy.select_c_d_where_c_eq_a)
      (Toy.rewriter [] true []) = Some er'
    ∧ er_err er' = None
    ∧ er_p er'
      = Toy.Apply (Toy.Table Toy.t)
          (Toy.compiled Toy.select_c_d_where_c_eq_a) Toy.t
          (Some {| Condition :=
                     ScalarFunction ast.UnaryNot
                       [ScalarFunction ast.AndAnd
                          [ScalarFunction ast.EQ
                             [Toy.int 1; ColumnExpr (Toy.col "t2" "c" 0)]
                             (Some Toy.tiny);
                           ScalarFunction ast.EQ
                             [Toy.int 2; ColumnExpr (Toy.col "t2" "d" 1)]
                             (Some Toy.tiny)] (Some Toy.tiny)]
                       (Some Toy.tiny);
                   All := true |})
    ∧ ctxStack er' = [] ++ [ColumnExpr (Toy.boolColumn "exists_row")].
Proof.
  destruct (handleInSubquery_correlated (AA := Toy.astAccept)
              (EP := Toy.fullPkg)
              (Toy.row_in true Toy.select_c_d_where_c_eq_a)
              (Toy.rewriter [] true []) _ _ _ []
              (Toy.row [Toy.int 1; Toy.int 2]) _ _ _ _ _ _
              eq_refl eq_refl eq_refl eq_refl eq_refl eq_refl eq_refl
              eq_refl eq_refl eq_refl eq_refl) as [_ Hok].
  exact (Hok eq_refl (Toy.t ++ Toy.t2) (Toy.boolColumn "exists_row")
           eq_refl).
Defined.

(** [(1, 2) IN (SELECT c, d FROM t2)] asked as a filter: a semi-join on
    the two equalities, and nothing left on the stack. *)
Lemma handleInSubquery_semi_join_witness :
  ∃ er',
    handleInSubquery (Toy.row_in false Toy.select_c_d)
      (Toy.rewriter [] false []) = Some er'
    ∧ er_err er' = None
    ∧ er_p er'
      = Toy.SemiJoin (Toy.Table Toy.t) (Toy.Table Toy.t2)
          [ScalarFunction ast.EQ
             [Toy.int 1; ColumnExpr (Toy.col "t2" "c" 0)] (Some Toy.tiny);
           ScalarFunction ast.EQ
             [Toy.int 2; ColumnExpr (Toy.col "t2" "d" 1)] (Some Toy.tiny)]
          false false
    ∧ ctxStack er' = [].
Proof.
  pose proof (handleInSubquery_semi_join (AA := Toy.astAccept)
                (EP := Toy.fullPkg)
                (Toy.row_in false Toy.select_c_d)
                (Toy.rewriter [] false []) _ _ _ []
                (Toy.row [Toy.int 1; Toy.int 2]) _ _ _ _ _
                eq_refl eq_refl eq_refl eq_refl eq_refl eq_refl eq_refl
                eq_refl eq_refl eq_refl eq_refl) as Hjoin.
  cbv zeta in Hjoin. destruct Hjoin as [Hfilter _].
  exact (Hfilter eq_refl).
Defined.

(** [-x] on an empty stack panics; [*] is no unary operator: the error is
    recorded and the operand stays. *)
Lemma unaryOpToExpression_stack_witness :
  unaryOpToExpression (Toy.unary opcode.Minus (Toy.int 1))
    (Toy.rewriter [] true []) = None
  ∧ ∃ er',
      unaryOpToExpression (Toy.unary opcode.Mul (Toy.int 1))
        (Toy.rewriter [Toy.int 1] true []) = Some er'
      ∧ er_err er' = Some ErrUnknownUnaryOp
      ∧ ctxStack er' = [Toy.int 1].
Proof.
  split.
  - apply (unaryOpToExpression_stack (PP := Toy.planPkg)
             (EP := Toy.fullPkg)). reflexivity.
  - destruct (unaryOpToExpression_stack (PP := Toy.planPkg)
                (EP := Toy.fullPkg) (Toy.unary opcode.Mul (Toy.int 1))
                (Toy.rewriter [Toy.int 1] true [])) as (_ & _ & Hunknown).
    apply Hunknown; [|discriminate].
    intros Hin.
    repeat (apply elem_of_cons in Hin as [Hin|Hin]; [discriminate Hin|]).
    by apply elem_of_nil in Hin.
Defined.

(** BETWEEN over two entries panics; over [7; 1; 0; 5] it returns and
    keeps the plan. *)
Lemma betweenToExpression_failure_witness :
  betweenToExpression (Toy.between false)
    (Toy.rewriter [Toy.int 1; Toy.int 0] true []) = None
  ∧ ∃ er',
      betweenToExpression (Toy.between false)
        (Toy.rewriter [Toy.int 7; Toy.int 1; Toy.int 0; Toy.int 5] true [])
      = Some er'
      ∧ er_p er' = Toy.Table Toy.t.
Proof.
  split.
  - apply (betweenToExpression_failure (PP := Toy.planPkg)
             (EP := Toy.fullPkg)). unfold len. simpl. lia.
  - assert (Toy.int 1 ≠ NilExpression) as Hvalue by discriminate.
    destruct (betweenToExpression_failure (PP := Toy.planPkg)
                (EP := Toy.fullPkg) (Toy.between false)
                (Toy.rewriter [Toy.int 7; Toy.int 1; Toy.int 0; Toy.int 5]
                   true [])) as [_ Hthree].
    destruct (Hthree [Toy.int 7] (Toy.int 1) (Toy.int 0) (Toy.int 5)
                eq_refl Hvalue) as (er' & Hrun & Hp & _).
    exists er'. split; [exact Hrun|exact Hp].
Defined.

(** [NOT (isnull 1)] is built; a name that the registry does not know
    gives nil. *)
Lemma notToExpression_outcome_witness :
  (notToExpression true ast.IsNull (Some Toy.tiny) [Toy.int 1]
     (Toy.rewriter [] true [])).1
  = ScalarFunction ast.UnaryNot
      [ScalarFunction ast.IsNull [Toy.int 1] (Some Toy.tiny)] (Some Toy.tiny)
  ∧ (notToExpression true "nosuch" (Some Toy.tiny) [Toy.int 1]
       (Toy.rewriter [] true [])).1
    = NilExpression.
Proof.
  split.
  - destruct (notToExpression_outcome (PP := Toy.planPkg)
                (EP := Toy.fullPkg) true ast.IsNull (Some Toy.tiny)
                [Toy.int 1] (Toy.rewriter [] true [])
                (Toy.rewriter [] true [])
                (ScalarFunction ast.UnaryNot
                   [ScalarFunction ast.IsNull [Toy.int 1] (Some Toy.tiny)]
                   (Some Toy.tiny))
                eq_refl eq_refl) as (_ & _ & _ & [[_ Hf]|[Hf _]]).
    + exact Hf.
    + vm_compute in Hf. discriminate Hf.
  - destruct (notToExpression_outcome (PP := Toy.planPkg)
                (EP := Toy.fullPkg) true "nosuch" (Some Toy.tiny)
                [Toy.int 1] (Toy.rewriter [] true [])
                (set_err (Some (ErrExternal "Function is not implemented."))
                   (Toy.rewriter [] true []))
                NilExpression eq_refl eq_refl) as (_ & _ & _ & [[Herr _]|[Hf _]]).
    + vm_compute in Herr. discriminate Herr.
    + exact Hf.
Defined.

(** [1 IS NOT NULL] is [NOT (isnull 1)] in place of the operand;
    [(1, 2) IS NULL] is refused. *)
Lemma isnullToExpression_effect_witness :
  isnullToExpression (Toy.is_null true)
    (Toy.rewriter [Toy.int 7; Toy.int 1] true [])
  = Some (Toy.rewriter
            [Toy.int 7;
             ScalarFunction ast.UnaryNot
               [ScalarFunction ast.IsNull [Toy.int 1] (Some Toy.tiny)]
               (Some Toy.tiny)] true [])
  ∧ isnullToExpression (Toy.is_null false)
      (Toy.rewriter [Toy.row [Toy.int 1; Toy.int 2]] true [])
    = Some (set_err (Some (ErrOperandColumns 1))
              (Toy.rewriter [Toy.row [Toy.int 1; Toy.int 2]] true [])).
Proof.
  split.
  - destruct (isnullToExpression_effect (PP := Toy.planPkg)
                (EP := Toy.fullPkg) (Toy.is_null true)
                (Toy.rewriter [Toy.int 7; Toy.int 1] true [])
                [Toy.int 7] (Toy.int 1) eq_refl) as [_ Hscalar].
    exact (Hscalar eq_refl eq_refl (λ _, eq_refl)).
  - destruct (isnullToExpression_effect (PP := Toy.planPkg)
                (EP := Toy.fullPkg) (Toy.is_null false)
                (Toy.rewriter [Toy.row [Toy.int 1; Toy.int 2]] true [])
                [] (Toy.row [Toy.int 1; Toy.int 2]) eq_refl) as [Hrow _].
    apply Hrow. vm_compute. discriminate.
Defined.

(** [(1, 2) IS FALSE] is built over the row as it is. *)
Lemma istrueToScalarFunc_effect_witness :
  istrueToScalarFunc (Toy.is_truth false 0)
    (Toy.rewriter [Toy.int 7; Toy.row [Toy.int 1; Toy.int 2]] true [])
  = Some (Toy.rewriter
            [Toy.int 7;
             ScalarFunction ast.IsFalsity [Toy.row [Toy.int 1; Toy.int 2]]
               (Some Toy.tiny)] true []).
Proof.
  exact (istrueToScalarFunc_effect (PP := Toy.planPkg) (EP := Toy.fullPkg)
           (Toy.is_truth false 0)
           (Toy.rewriter [Toy.int 7; Toy.row [Toy.int 1; Toy.int 2]] true [])
           [Toy.int 7] (Toy.row [Toy.int 1; Toy.int 2])
           eq_refl eq_refl (λ _, eq_refl)).
Defined.

(** [1 NOT IN (2, 3)] is [NOT (in 1 2 3)] in place of the three entries;
    the subquery form leaves the rewriter alone. *)
Lemma inToExpression_effect_witness :
  inToExpression (Toy.in_list true)
    (Toy.rewriter [Toy.int 7; Toy.int 1; Toy.int 2; Toy.int 3] true [])
  = Some (Toy.rewriter
            [Toy.int 7;
             ScalarFunction ast.UnaryNot
               [ScalarFunction ast.In [Toy.int 1; Toy.int 2; Toy.int 3]
                  (Some Toy.tiny)] (Some Toy.tiny)] true [])
  ∧ inToExpression (Toy.row_in false Toy.select_c_d)
      (Toy.rewriter [Toy.int 7] true [])
    = Some (Toy.rewriter [Toy.int 7] true []).
Proof.
  split.
  - destruct (inToExpression_effect (PP := Toy.planPkg) (EP := Toy.fullPkg)
                (Toy.in_list true)
                (Toy.rewriter [Toy.int 7; Toy.int 1; Toy.int 2; Toy.int 3]
                   true [])) as [_ Hlist].
    exact (Hlist eq_refl [Toy.int 7] (Toy.int 1) [Toy.int 2; Toy.int 3]
             eq_refl eq_refl eq_refl (λ _, eq_refl)).
  - destruct (inToExpression_effect (PP := Toy.planPkg) (EP := Toy.fullPkg)
                (Toy.row_in false Toy.select_c_d)
                (Toy.rewriter [Toy.int 7] true [])) as [Hsel _].
    apply Hsel. eexists. reflexivity.
Defined.

(** [1 NOT LIKE 2] with the escape character 92. *)
Lemma likeToScalarFunc_effect_witness :
  likeToScalarFunc (Toy.like true)
    (Toy.rewriter [Toy.int 7; Toy.int 1; Toy.int 2] true [])
  = Some (Toy.rewriter
            [Toy.int 7;
             ScalarFunction ast.UnaryNot
               [ScalarFunction ast.Like
                  [Toy.int 1; Toy.int 2; Constant (DInt64 92) None]
                  (Some Toy.tiny)] (Some Toy.tiny)] true []).
Proof.
  exact (likeToScalarFunc_effect (PP := Toy.planPkg) (EP := Toy.fullPkg)
           (Toy.like true)
           (Toy.rewriter [Toy.int 7; Toy.int 1; Toy.int 2] true [])
           [Toy.int 7] (Toy.int 1) (Toy.int 2)
           eq_refl eq_refl (λ _, eq_refl)).
Defined.

(** [<] over one entry panics; [(1, 2) < (3, 4)] is one node over the two
    rows; [(1, 2) = (3, 4)] is [1 = 3 AND 2 = 4]. *)
Lemma binaryOpToExpression_effect_witness :
  binaryOpToExpression (Toy.binary opcode.LT)
    (Toy.rewriter [Toy.int 1] true []) = None
  ∧ binaryOpToExpression (Toy.binary opcode.LT)
      (Toy.rewriter [Toy.int 7; Toy.row [Toy.int 1; Toy.int 2];
                     Toy.row [Toy.int 3; Toy.int 4]] true [])
    = Some (Toy.rewriter
              [Toy.int 7;
               ScalarFunction ast.LT
                 [Toy.row [Toy.int 1; Toy.int 2];
                  Toy.row [Toy.int 3; Toy.int 4]] (Some Toy.tiny)] true [])
  ∧ binaryOpToExpression (Toy.binary opcode.EQ)
      (Toy.rewriter [Toy.int 7; Toy.row [Toy.int 1; Toy.int 2];
                     Toy.row [Toy.int 3; Toy.int 4]] true [])
    = Some (Toy.rewriter
              [Toy.int 7;
               ScalarFunction ast.AndAnd
                 [ScalarFunction ast.EQ [Toy.int 1; Toy.int 3]
                    (Some Toy.tiny);
                  ScalarFunction ast.EQ [Toy.int 2; Toy.int 4]
                    (Some Toy.tiny)] (Some Toy.tiny)] true []).
Proof.
  split; [|split].
  - apply (binaryOpToExpression_effect (PP := Toy.planPkg)
             (EP := Toy.fullPkg)). unfold len. simpl. lia.
  - destruct (binaryOpToExpression_effect (PP := Toy.planPkg)
                (EP := Toy.fullPkg) (Toy.binary opcode.LT)
                (Toy.rewriter [Toy.int 7; Toy.row [Toy.int 1; Toy.int 2];
                               Toy.row [Toy.int 3; Toy.int 4]] true []))
      as [_ Hpair].
    destruct (Hpair [Toy.int 7] (Toy.row [Toy.int 1; Toy.int 2])
                (Toy.row [Toy.int 3; Toy.int 4]) eq_refl)
      as (f & err & Hbuild & Hrun).
    vm_compute in Hbuild. injection Hbuild as <- <-.
    rewrite Hrun. reflexivity.
  - destruct (binaryOpToExpression_effect (PP := Toy.planPkg)
                (EP := Toy.fullPkg) (Toy.binary opcode.EQ)
                (Toy.rewriter [Toy.int 7; Toy.row [Toy.int 1; Toy.int 2];
                               Toy.row [Toy.int 3; Toy.int 4]] true []))
      as [_ Hpair].
    destruct (Hpair [Toy.int 7] (Toy.row [Toy.int 1; Toy.int 2])
                (Toy.row [Toy.int 3; Toy.int 4]) eq_refl)
      as (f & err & Hbuild & Hrun).
    vm_compute in Hbuild. injection Hbuild as <- <-.
    rewrite Hrun. reflexivity.
Defined.

(** The row constructor over [1] and [2]: one entry of row length 2 whose
    components are [1] and [2]. *)
Lemma rowToScalarFunc_round_trip_witness :
  ∃ row,
    rowToScalarFunc Toy.row_of_two
      (Toy.rewriter [Toy.int 7; Toy.int 1; Toy.int 2] true [])
    = Some (Toy.rewriter [Toy.int 7; row] true [])
    ∧ getRowLen row = 2
    ∧ getRowArg row 0 = Some (Toy.int 1)
    ∧ getRowArg row 1 = Some (Toy.int 2).
Proof.
  destruct (rowToScalarFunc_round_trip (PP := Toy.planPkg)
              (EP := Toy.fullPkg) Toy.row_of_two
              (Toy.rewriter [Toy.int 7; Toy.int 1; Toy.int 2] true [])
              [Toy.int 7] [Toy.int 1; Toy.int 2] eq_refl eq_refl)
    as [Hknown _].
  destruct (Hknown eq_refl) as (row & Hrun & Hlen & Harg).
  exists row. split; [exact Hrun|]. split; [exact Hlen|].
  split; [exact (Harg 0)|exact (Harg 1)].
Defined.

(** [concat(1, 2)] is built in place of its arguments; [nosuch(1, 2)]
    leaves nil in their place and the error; with one entry only the pass
    panics. *)
Lemma funcCallToExpression_effect_witness :
  funcCallToExpression (Toy.call "concat")
    (Toy.rewriter [Toy.int 7; Toy.int 1; Toy.int 2] true [])
  = Some (Toy.rewriter
            [Toy.int 7;
             ScalarFunction "concat" [Toy.int 1; Toy.int 2] (Some Toy.tiny)]
            true [])
  ∧ funcCallToExpression (Toy.call "nosuch")
      (Toy.rewriter [Toy.int 7; Toy.int 1; Toy.int 2] true [])
    = Some (set_err (Some (ErrExternal "Function is not implemented."))
              (Toy.rewriter [Toy.int 7; NilExpression] true []))
  ∧ funcCallToExpression (Toy.call "concat")
      (Toy.rewriter [Toy.int 1] true []) = None.
Proof.
  split; [|split].
  - destruct (funcCallToExpression_effect (PP := Toy.planPkg)
                (EP := Toy.fullPkg) (Toy.call "concat")
                (Toy.rewriter [Toy.int 7; Toy.int 1; Toy.int 2] true []))
      as [_ Hrun].
    exact (Hrun [Toy.int 7] [Toy.int 1; Toy.int 2] eq_refl eq_refl).
  - destruct (funcCallToExpression_effect (PP := Toy.planPkg)
                (EP := Toy.fullPkg) (Toy.call "nosuch")
                (Toy.rewriter [Toy.int 7; Toy.int 1; Toy.int 2] true []))
      as [_ Hrun].
    exact (Hrun [Toy.int 7] [Toy.int 1; Toy.int 2] eq_refl eq_refl).
  - apply (funcCallToExpression_effect (PP := Toy.planPkg)
             (EP := Toy.fullPkg)). unfold len. simpl. lia.
Defined.

(** A cast to a type with a conversion routine replaces the operand; a
    cast to the type without one records the error, even on an empty
    stack, where the first panics. *)
Lemma castToScalarFunc_effect_witness :
  castToScalarFunc (Toy.cast 1) (Toy.rewriter [Toy.int 7; Toy.int 1] true [])
  = Some (Toy.rewriter
            [Toy.int 7;
             ScalarFunction "cast" [Toy.int 1] (Some (NewFieldType 1))]
            true [])
  ∧ castToScalarFunc (Toy.cast 0) (Toy.rewriter [] true [])
    = Some (set_err (Some (ErrExternal "unknown cast type"))
              (Toy.rewriter [] true []))
  ∧ castToScalarFunc (Toy.cast 1) (Toy.rewriter [] true []) = None.
Proof.
  split; [|split].
  - destruct (castToScalarFunc_effect (PP := Toy.planPkg)
                (CP := Toy.evaluatorPkg) (Toy.cast 1)
                (Toy.rewriter [Toy.int 7; Toy.int 1] true []))
      as [_ Hcast].
    destruct (Hcast eq_refl) as [_ Htop].
    exact (Htop [Toy.int 7] (Toy.int 1) eq_refl).
  - destruct (castToScalarFunc_effect (PP := Toy.planPkg)
                (CP := Toy.evaluatorPkg) (Toy.cast 0)
                (Toy.rewriter [] true [])) as [Herr _].
    exact (Herr _ eq_refl).
  - destruct (castToScalarFunc_effect (PP := Toy.planPkg)
                (CP := Toy.evaluatorPkg) (Toy.cast 1)
                (Toy.rewriter [] true [])) as [_ Hcast].
    destruct (Hcast eq_refl) as [Hempty _].
    exact (Hempty eq_refl).
Defined.

(** [CASE WHEN 2 THEN 3 WHEN 4 THEN 5 ELSE 6 END] keeps its five entries;
    [CASE 1 WHEN 2 THEN 3 WHEN 4 THEN 5 ELSE 6 END] compares [1] with each
    condition. *)
Lemma caseToExpression_effect_witness :
  caseToExpression (Toy.case_of false)
    (Toy.rewriter [Toy.int 7; Toy.int 2; Toy.int 3; Toy.int 4; Toy.int 5;
                   Toy.int 6] true [])
  = Some (Toy.rewriter
            [Toy.int 7;
             ScalarFunction ast.Case
               [Toy.int 2; Toy.int 3; Toy.int 4; Toy.int 5; Toy.int 6]
               (Some Toy.tiny)] true [])
  ∧ caseToExpression (Toy.case_of true)
      (Toy.rewriter [Toy.int 7; Toy.int 1; Toy.int 2; Toy.int 3; Toy.int 4;
                     Toy.int 5; Toy.int 6] true [])
    = Some (Toy.rewriter
              [Toy.int 7;
               ScalarFunction ast.Case
                 [ScalarFunction ast.EQ [Toy.int 1; Toy.int 2]
                    (Some Toy.tiny);
                  Toy.int 3;
                  ScalarFunction ast.EQ [Toy.int 1; Toy.int 4]
                    (Some Toy.tiny);
                  Toy.int 5; Toy.int 6] (Some Toy.tiny)] true []).
Proof.
  assert (is_Some (Some (Toy.int 6))
          ↔ is_Some (Some (Toy.Operand (Toy.int 6)))) as Helse
    by (split; intros _; eexists; reflexivity).
  assert (Toy.int 1 ≠ NilExpression) as Hvalue by discriminate.
  split.
  - pose proof (caseToExpression_effect (PP := Toy.planPkg)
                  (EP := Toy.fullPkg) (Toy.case_of false)
                  (Toy.rewriter [Toy.int 7; Toy.int 2; Toy.int 3; Toy.int 4;
                                 Toy.int 5; Toy.int 6] true [])
                  [Toy.int 7] [(Toy.int 2, Toy.int 3); (Toy.int 4, Toy.int 5)]
                  (Some (Toy.int 6)) eq_refl Helse) as Hcase.
    cbv zeta in Hcase. destruct Hcase as [Hsearched _].
    exact (Hsearched eq_refl eq_refl eq_refl).
  - pose proof (caseToExpression_effect (PP := Toy.planPkg)
                  (EP := Toy.fullPkg) (Toy.case_of true)
                  (Toy.rewriter [Toy.int 7; Toy.int 1; Toy.int 2; Toy.int 3;
                                 Toy.int 4; Toy.int 5; Toy.int 6] true [])
                  [Toy.int 7] [(Toy.int 2, Toy.int 3); (Toy.int 4, Toy.int 5)]
                  (Some (Toy.int 6)) eq_refl Helse) as Hcase.
    cbv zeta in Hcase. destruct Hcase as [_ Hsimple].
    refine (Hsimple (Toy.int 1) _ Hvalue eq_refl eq_refl eq_refl).
    eexists. reflexivity.
Defined.

(** [@@NoSuch] is refused under its lower-case name; [@@autocommit] is
    read, and the plan and the outer schemas are as before. *)
Lemma rewriteVariable_system_read_witness :
  rewriteVariable (Toy.system_variable "NoSuch" false)
    (Toy.rewriter [] true [])
  = Some (set_err (Some (ErrUnknownSystemVar "nosuch"))
            (Toy.rewriter [] true []))
  ∧ ∃ er',
      rewriteVariable (Toy.system_variable "autocommit" false)
        (Toy.rewriter [] true []) = Some er'
      ∧ er_p er' = Toy.Table Toy.t
      ∧ outerSchemas (er_b er') = [].
Proof.
  split.
  - destruct (rewriteVariable_system_read (PP := Toy.planPkg)
                (EP := Toy.fullPkg) (VP := Toy.variablePkg)
                (Toy.system_variable "NoSuch" false)
                (Toy.rewriter [] true []) eq_refl)
      as (er' & Hrun & _ & _ & Hunknown & _).
    rewrite Hrun. f_equal. exact (Hunknown eq_refl).
  - destruct (rewriteVariable_system_read (PP := Toy.planPkg)
                (EP := Toy.fullPkg) (VP := Toy.variablePkg)
                (Toy.system_variable "autocommit" false)
                (Toy.rewriter [] true []) eq_refl)
      as (er' & Hrun & Hp & Houter & _).
    exists er'. split; [exact Hrun|]. split; [exact Hp|exact Houter].
Defined.

(** [@X := 1] over the value [1] on the stack is the set-variable node
    over the name [x]; on an empty stack the pass panics. *)
Lemma rewriteVariable_user_assignment_witness :
  rewriteVariable (Toy.assignment "X")
    (Toy.rewriter [Toy.int 7; Toy.int 1] true [])
  = Some (Toy.rewriter
            [Toy.int 7;
             ScalarFunction ast.SetVar
               [Constant (DString "x")
                  (Some (NewFieldType mysql.TypeString)); Toy.int 1]
               (Some Toy.tiny)] true [])
  ∧ rewriteVariable (Toy.assignment "X") (Toy.rewriter [] true []) = None.
Proof.
  assert (is_Some (Some (Toy.Operand (Toy.int 1)))) as Hvalue
    by (eexists; reflexivity).
  split.
  - destruct (rewriteVariable_user_assignment (PP := Toy.planPkg)
                (EP := Toy.fullPkg) (VP := Toy.variablePkg)
                (Toy.assignment "X")
                (Toy.rewriter [Toy.int 7; Toy.int 1] true [])
                eq_refl Hvalue) as [_ Hrun].
    destruct (Hrun [Toy.int 7] (Toy.int 1) eq_refl) as [_ Hset].
    exact (Hset (Some Toy.tiny) eq_refl eq_refl).
  - destruct (rewriteVariable_user_assignment (PP := Toy.planPkg)
                (EP := Toy.fullPkg) (VP := Toy.variablePkg)
                (Toy.assignment "X") (Toy.rewriter [] true [])
                eq_refl Hvalue) as [Hempty _].
    exact (Hempty eq_refl).
Defined.

(** Inside a subquery over [t2(c, d)] whose enclosing scopes are [t(a, b)]
    and then a schema in which [a] is ambiguous: the search ends with the
    error of the innermost scope, although [t] has the column. *)
Lemma toColumn_outcome_witness :
  toColumn (Toy.column_name "a") (Toy.subquery_rewriter [Toy.t; Toy.aa])
  = set_err (Some (ErrExternal "Column is ambiguous"))
      (Toy.subquery_rewriter [Toy.t; Toy.aa]).
Proof.
  destruct (toColumn_outcome (PP := Toy.planPkg) (EP := Toy.fullPkg)
              (Toy.column_name "a") (Toy.subquery_rewriter [Toy.t; Toy.aa]))
    as (_ & _ & _ & _ & Houter).
  apply (Houter eq_refl [Toy.t] [] Toy.aa _ eq_refl);
    [constructor|reflexivity].
Defined.

(** [1 REGEXP 2] is built in place of its operands; under the registry
    that does not know [regexp] the operands are replaced by nil and the
    error is recorded. *)
Lemma regexpToScalarFunc_effect_witness :
  regexpToScalarFunc (Toy.regexp false)
    (Toy.rewriter [Toy.int 7; Toy.int 1; Toy.int 2] true [])
  = Some (Toy.rewriter
            [Toy.int 7;
             ScalarFunction ast.Regexp [Toy.int 1; Toy.int 2]
               (Some Toy.tiny)] true [])
  ∧ regexpToScalarFunc (EP := Toy.expressionPkg) (Toy.regexp false)
      (Toy.rewriter [Toy.int 7; Toy.int 1; Toy.int 2] true [])
    = Some (set_err (Some (ErrExternal "Function is not implemented."))
              (Toy.rewriter [Toy.int 7; NilExpression] true [])).
Proof.
  split.
  - pose proof (regexpToScalarFunc_effect (PP := Toy.planPkg)
                  (EP := Toy.fullPkg) (Toy.regexp false)
                  (Toy.rewriter [Toy.int 7; Toy.int 1; Toy.int 2] true [])
                  [Toy.int 7] (Toy.int 1) (Toy.int 2) eq_refl) as Hregexp.
    cbv zeta in Hregexp. destruct Hregexp as [Hknown _].
    exact (Hknown eq_refl (λ _, eq_refl)).
  - pose proof (regexpToScalarFunc_effect (PP := Toy.planPkg)
                  (EP := Toy.expressionPkg) (Toy.regexp false)
                  (Toy.rewriter [Toy.int 7; Toy.int 1; Toy.int 2] true [])
                  [Toy.int 7] (Toy.int 1) (Toy.int 2) eq_refl) as Hregexp.
    cbv zeta in Hregexp. destruct Hregexp as [_ Hrefused].
    exact (Hrefused _ eq_refl).
Defined.

End MoreExamples.
